(** * Pub/sub delivery for WebSocket clients: a shallow embedding

    Source: zato/server/connection/web_socket/pubsub.py
    (classes [DeliveryTask], [Message], [GDMessage], [NonGDMessage],
    [PubSubTool]).

    Conventions of the embedding.
    - The code is Python 2.  An object that defines [__cmp__] is compared
      by it in [<], [==] and inside [bisect].
    - Ordering fields of a message ([priority], [ext_pub_time], [pub_time])
      are integers; every other field is an opaque dynamic value.
    - A [SortedList] below its load threshold keeps all entries in a single
      Python list; that is the regime modelled here.  Its iterator is the
      iterator of that list: an index that is checked against the current
      length at every step.
    - Callbacks supplied from outside the module (transport delivery,
      persistence) are oracles over an abstract world [W]; an oracle either
      returns or raises.
    - Locks are re-entrant and taken by a single greenlet in every function
      modelled here, so [with lock:] is transparent. *)

From stdpp Require Import gmap strings list fin_maps sorting.
From Stdlib Require Import ZArith Lia.

Local Open Scope Z_scope.

(** ** Dynamic values and exceptions *)

Inductive Val :=
| VNone
| VBool (b : bool)
| VInt (z : Z)
| VStr (s : string).

Inductive Exn :=
| KeyError (k : string)
| ValueError
| CallbackError.

#[export] Instance Val_eq_dec : EqDecision Val.
Proof. solve_decision. Defined.

#[export] Instance Exn_eq_dec : EqDecision Exn.
Proof. solve_decision. Defined.

Inductive Result (A : Type) :=
| Ok (a : A)
| Raise (e : Exn).
Arguments Ok {A} a.
Arguments Raise {A} e.

(** ** Messages *)

Module Msg.

Record Message := {
  pub_msg_id : Val;
  pub_correl_id : Val;
  in_reply_to : Val;
  ext_client_id : Val;
  group_id : Val;
  position_in_group : Val;
  pub_time : Z;
  ext_pub_time : Z;
  data : Val;
  mime_type : Val;
  priority : Z;
  expiration : Val;
  expiration_time : Val;
  has_gd : Val
}.

#[export] Instance Message_eq_dec : EqDecision Message.
Proof. solve_decision. Defined.

(** Python 2 built-in [cmp] on integers. *)
Definition cmp (a b : Z) : Z :=
  if a <? b then -1 else if a =? b then 0 else 1.

(** Python 2 [cmp] on tuples: the first pair of items that differ decides;
    when one tuple is a prefix of the other the shorter one is smaller. *)
Fixpoint cmp_tuple (a b : list Z) : Z :=
  match a, b with
  | [], [] => 0
  | [], _ :: _ => -1
  | _ :: _, [] => 1
  | x :: a', y :: b' => if x =? y then cmp_tuple a' b' else cmp x y
  end.

(** [Message.__cmp__(self, other, max_pri=9)]. *)
Definition __cmp__ (self other : Message) : Z :=
  let max_pri := 9 in
  cmp_tuple
    [max_pri - priority self; ext_pub_time self; pub_time self]
    [max_pri - priority other; ext_pub_time other; pub_time other].

(** [a < b] and [a == b] on messages, both routed through [__cmp__]. *)
Definition lt (a b : Message) : bool := __cmp__ a b <? 0.
Definition eq (a b : Message) : bool := __cmp__ a b =? 0.

(** [Message.to_dict]. *)
Definition to_dict (self : Message) : list (string * Val) :=
  [("pub_msg_id"%string, pub_msg_id self); ("has_gd"%string, has_gd self)].

(** A row handed over by the SQL layer: attribute access never fails. *)
Record Row := {
  r_pub_msg_id : Val;
  r_pub_correl_id : Val;
  r_in_reply_to : Val;
  r_ext_client_id : Val;
  r_group_id : Val;
  r_position_in_group : Val;
  r_pub_time : Z;
  r_ext_pub_time : Z;
  r_data : Val;
  r_mime_type : Val;
  r_priority : Z;
  r_expiration : Val;
  r_expiration_time : Val;
  r_has_gd : Val
}.

(** [GDMessage.__init__]. *)
Definition GDMessage (msg : Row) : Message := {|
  pub_msg_id := r_pub_msg_id msg;
  pub_correl_id := r_pub_correl_id msg;
  in_reply_to := r_in_reply_to msg;
  ext_client_id := r_ext_client_id msg;
  group_id := r_group_id msg;
  position_in_group := r_position_in_group msg;
  pub_time := r_pub_time msg;
  ext_pub_time := r_ext_pub_time msg;
  data := r_data msg;
  mime_type := r_mime_type msg;
  priority := r_priority msg;
  expiration := r_expiration msg;
  expiration_time := r_expiration_time msg;
  has_gd := r_has_gd msg
|}.

(** A Python dict received from a publisher.  Each of the fourteen keys the
    constructor reads is either present ([Some]) or absent ([None]). *)
Record Dict := {
  d_pub_msg_id : option Val;
  d_pub_correl_id : option Val;
  d_in_reply_to : option Val;
  d_ext_client_id : option Val;
  d_group_id : option Val;
  d_position_in_group : option Val;
  d_pub_time : option Z;
  d_ext_pub_time : option Z;
  d_data : option Val;
  d_mime_type : option Val;
  d_priority : option Z;
  d_expiration : option Val;
  d_expiration_time : option Val;
  d_has_gd : option Val
}.

(** [msg[key]]: [KeyError] when the key is absent. *)
Definition getitem {A} (key : string) (entry : option A) : Result A :=
  match entry with
  | Some v => Ok v
  | None => Raise (KeyError key)
  end.

Definition bind {A B} (r : Result A) (k : A -> Result B) : Result B :=
  match r with
  | Ok a => k a
  | Raise e => Raise e
  end.

Local Notation "x <- c ;; k" := (bind c (fun x => k))
  (at level 100, c at next level, right associativity).

(** [NonGDMessage.__init__]: the subscripts are evaluated top to bottom, so
    the first absent key is the one reported. *)
Definition NonGDMessage (msg : Dict) : Result Message :=
  v1 <- getitem "pub_msg_id" (d_pub_msg_id msg) ;;
  v2 <- getitem "pub_correl_id" (d_pub_correl_id msg) ;;
  v3 <- getitem "in_reply_to" (d_in_reply_to msg) ;;
  v4 <- getitem "ext_client_id" (d_ext_client_id msg) ;;
  v5 <- getitem "group_id" (d_group_id msg) ;;
  v6 <- getitem "position_in_group" (d_position_in_group msg) ;;
  v7 <- getitem "pub_time" (d_pub_time msg) ;;
  v8 <- getitem "ext_pub_time" (d_ext_pub_time msg) ;;
  v9 <- getitem "data" (d_data msg) ;;
  v10 <- getitem "mime_type" (d_mime_type msg) ;;
  v11 <- getitem "priority" (d_priority msg) ;;
  v12 <- getitem "expiration" (d_expiration msg) ;;
  v13 <- getitem "expiration_time" (d_expiration_time msg) ;;
  v14 <- getitem "has_gd" (d_has_gd msg) ;;
  Ok {|
    pub_msg_id := v1; pub_correl_id := v2; in_reply_to := v3;
    ext_client_id := v4; group_id := v5; position_in_group := v6;
    pub_time := v7; ext_pub_time := v8; data := v9; mime_type := v10;
    priority := v11; expiration := v12; expiration_time := v13;
    has_gd := v14
  |}.

End Msg.

Export Msg.

(** ** SortedList (single-list regime) *)

Module SortedList.

(** [bisect.bisect_right(a, x)]: the insertion point after any entries
    equal to [x].  Written as the scan that the binary search agrees with on
    a sorted list. *)
Fixpoint bisect_right (a : list Message) (x : Message) : nat :=
  match a with
  | [] => O
  | y :: a' => if Msg.lt x y then O else S (bisect_right a' x)
  end.

(** [bisect.bisect_left(a, x)]: the insertion point before any entries
    equal to [x]. *)
Fixpoint bisect_left (a : list Message) (x : Message) : nat :=
  match a with
  | [] => O
  | y :: a' => if Msg.lt y x then S (bisect_left a' x) else O
  end.

(** [list.insert(i, x)]. *)
Definition list_insert_at (i : nat) (x : Message) (l : list Message) :=
  take i l ++ x :: drop i l.

(** [SortedList.add(val)]. *)
Definition add (l : list Message) (val : Message) : list Message :=
  list_insert_at (bisect_right l val) val l.

(** [SortedList.remove(val)]: the entry at the left insertion point is
    deleted when it compares equal to [val]; otherwise [ValueError]. *)
Definition remove (l : list Message) (val : Message) : Result (list Message) :=
  let idx := bisect_left l val in
  match l !! idx with
  | Some y => if Msg.eq y val then Ok (delete idx l) else Raise ValueError
  | None => Raise ValueError
  end.

(** [SortedList(iterable)] followed by nothing else: repeated [add]. *)
Definition update (l : list Message) (vals : list Message) : list Message :=
  foldl add l vals.

(** Entries are in ascending order: no entry is greater than a later one. *)
Definition le (a b : Message) : Prop := 0 <= __cmp__ b a.
Definition sorted (l : list Message) : Prop := StronglySorted le l.

(** Ascending with pairwise distinct ordering keys. *)
Definition slt (a b : Message) : Prop := __cmp__ a b < 0.
Definition strictly_sorted (l : list Message) : Prop := StronglySorted slt l.

End SortedList.

(** ** Observable events

    Every call that leaves the module and every log line is recorded, in
    program order. *)

Inductive Event :=
| Delivered (m : Message)        (* deliver callback returned *)
| DeliverFailed (m : Message)    (* deliver callback raised; warning logged *)
| Confirmed (m : Message)        (* confirm callback returned *)
| ConfirmFailed (m : Message)    (* confirm callback raised; warning logged *)
| Removed (m : Message)          (* delivery_list.remove(msg) returned *)
| Slept (t : Z)                  (* gevent.sleep(t) *)
| Fetched (sub_key : string) (last_run : option Z) (session : Val)
| Spawned (task : nat)           (* spawn_greenlet(self.run) *)
| Info (sub_key : string)        (* logger.info in stop *)
| Warned (e : Exn).              (* logger.warn in an outer handler *)

Definition event_msg (e : Event) : option Message :=
  match e with
  | Delivered m | DeliverFailed m | Confirmed m | ConfirmFailed m
  | Removed m => Some m
  | _ => None
  end.

(** ** External collaborators *)

Class Collaborators (W : Type) := {
  (* self.web_socket.deliver_pubsub_msg(msg) *)
  web_socket_deliver_pubsub_msg : Message -> W -> Result unit * W;
  (* self.pubsub.confirm_pubsub_msg_delivered(sub_key, pub_msg_id) *)
  pubsub_confirm_pubsub_msg_delivered : string -> Val -> W -> Result unit * W;
  (* self.pubsub.get_sql_messages_by_sub_key(sub_key, last_sql_run, session) *)
  pubsub_get_sql_messages_by_sub_key :
    string -> option Z -> Val -> W -> Result (list Row) * W;
  (* the next draw of the module-level random generator *)
  random_next : W -> Z * W
}.

(** [random.randint(a, b)]: an integer N with a <= N <= b, each of the
    [b - a + 1] values standing for one residue of the draw. *)
Definition randint {W} `{Collaborators W} (a b : Z) (w : W) : Z * W :=
  let '(d, w') := random_next w in (a + d mod (b - a + 1), w').

(** ** DeliveryTask *)

Module DeliveryTask.

Record t := {
  keep_running : bool;
  sub_key : string;
  delivery_lock : nat;     (* address of the RLock *)
  delivery_list : nat      (* address of the SortedList *)
}.

(** How a call of [_run_delivery] ends. *)
Inductive Outcome :=
| ReturnedTrue             (* fell off the loop: return True *)
| ReturnedNone             (* bare return inside the handler *)
| Raised (e : Exn).        (* an exception left the function *)

Definition emit {A} (evs : list Event) (r : option (A * list Event))
  : option (A * list Event) :=
  match r with
  | Some (a, tr) => Some (a, evs ++ tr)
  | None => None
  end.

Section Callbacks.

Context {W : Type}.
Variable deliver_pubsub_msg_cb : Message -> W -> Result unit * W.
Variable confirm_pubsub_msg_delivered_cb : string -> Val -> W -> Result unit * W.

(** The body of [for msg in self.delivery_list], with the list iterator
    made explicit: [i] is the iterator's index into the live list [l].  The
    iterator stops when [i] is past the end of the list as it is then. *)
Fixpoint delivery_loop (fuel : nat) (self_sub_key : string)
    (l : list Message) (i : nat) (w : W)
  : option (Outcome * list Message * W * list Event) :=
  match fuel with
  | O => None
  | S fuel' =>
    match l !! i with
    | None => Some (ReturnedTrue, l, w, [])
    | Some msg =>
      match deliver_pubsub_msg_cb msg w with
      | (Raise _, w1) => Some (ReturnedNone, l, w1, [DeliverFailed msg])
      | (Ok _, w1) =>
        match confirm_pubsub_msg_delivered_cb self_sub_key (pub_msg_id msg) w1 with
        | (Raise _, w2) =>
          emit [Delivered msg; ConfirmFailed msg]
               (delivery_loop fuel' self_sub_key l (S i) w2)
        | (Ok _, w2) =>
          match SortedList.remove l msg with
          | Raise e => Some (Raised e, l, w2, [Delivered msg; Confirmed msg])
          | Ok l' =>
            emit [Delivered msg; Confirmed msg; Removed msg]
                 (delivery_loop fuel' self_sub_key l' (S i) w2)
          end
        end
      end
    end
  end.

(** [DeliveryTask._run_delivery]: one pass over the queue. *)
Definition _run_delivery (self_sub_key : string) (l : list Message) (w : W)
  : option (Outcome * list Message * W * list Event) :=
  delivery_loop (S (length l)) self_sub_key l O w.

End Callbacks.

End DeliveryTask.

(** ** The object store

    Lists and tasks are Python objects shared by reference between the
    registry and the greenlets; they live in a store and are named by
    their address.  Objects are never freed while referenced, so the store
    only grows. *)

Record Heap := {
  lists : list (list Message);
  tasks : list DeliveryTask.t;
  locks : nat
}.

Definition dead_task : DeliveryTask.t :=
  {| DeliveryTask.keep_running := false; DeliveryTask.sub_key := "";
     DeliveryTask.delivery_lock := O; DeliveryTask.delivery_list := O |}.

Definition list_at (h : Heap) (loc : nat) : list Message :=
  default [] (lists h !! loc).

Definition task_at (h : Heap) (tid : nat) : DeliveryTask.t :=
  default dead_task (tasks h !! tid).

Definition set_list (loc : nat) (l : list Message) (h : Heap) : Heap :=
  {| lists := <[loc := l]> (lists h); tasks := tasks h; locks := locks h |}.

(** [DeliveryTask.stop]: clears the flag of the task object. *)
Definition stop_task (tid : nat) (h : Heap) : Heap :=
  {| lists := lists h;
     tasks := alter (fun t =>
       {| DeliveryTask.keep_running := false;
          DeliveryTask.sub_key := DeliveryTask.sub_key t;
          DeliveryTask.delivery_lock := DeliveryTask.delivery_lock t;
          DeliveryTask.delivery_list := DeliveryTask.delivery_list t |}) tid (tasks h);
     locks := locks h |}.

Module TaskLoop.

Section Callbacks.

Context {W : Type} `{Collaborators W}.
Variable deliver_pubsub_msg_cb : Message -> W -> Result unit * W.
Variable confirm_pubsub_msg_delivered_cb : string -> Val -> W -> Result unit * W.

(** One trip round [while self.keep_running] in [DeliveryTask.run].  The
    boolean tells whether the loop goes on. *)
Definition run_iteration (no_msg_sleep_time : Z) (tid : nat) (h : Heap) (w : W)
  : option (bool * Heap * W * list Event) :=
  let self := task_at h tid in
  if negb (DeliveryTask.keep_running self) then Some (false, h, w, [])
  else
    let loc := DeliveryTask.delivery_list self in
    match list_at h loc with
    | [] => Some (true, h, w, [Slept no_msg_sleep_time])
    | _ :: _ =>
      match DeliveryTask._run_delivery deliver_pubsub_msg_cb
              confirm_pubsub_msg_delivered_cb
              (DeliveryTask.sub_key self) (list_at h loc) w with
      | None => None
      | Some (DeliveryTask.ReturnedTrue, l', w', tr) =>
        Some (true, set_list loc l' h, w', tr ++ [Slept no_msg_sleep_time])
      | Some (DeliveryTask.ReturnedNone, l', w', tr) =>
        let '(t, w'') := randint 10 20 w' in
        Some (true, set_list loc l' h, w'', tr ++ [Slept t])
      | Some (DeliveryTask.Raised e, l', w', tr) =>
        Some (false, set_list loc l' h, w', tr ++ [Warned e])
      end
    end.

(** [DeliveryTask.run(no_msg_sleep_time=1)], cut after [n] iterations. *)
Fixpoint run (n : nat) (no_msg_sleep_time : Z) (tid : nat) (h : Heap) (w : W)
  : option (Heap * W * list Event) :=
  match n with
  | O => Some (h, w, [])
  | S n' =>
    match run_iteration no_msg_sleep_time tid h w with
    | None => None
    | Some (false, h', w', tr) => Some (h', w', tr)
    | Some (true, h', w', tr) =>
      match run n' no_msg_sleep_time tid h' w' with
      | None => None
      | Some (h'', w'', tr') => Some (h'', w'', tr ++ tr')
      end
    end
  end.

End Callbacks.

End TaskLoop.

(** ** PubSubTool *)

Module PubSubTool.

Record t := {
  sub_key_locks : gmap string nat;
  batch_size : gmap string Z;
  sub_keys : list string;
  delivery_lists : gmap string nat;
  delivery_tasks : gmap string nat;
  last_sql_run : gmap string (option Z)
}.

(** [PubSubTool.__init__]: every container starts empty. *)
Definition __init__ : t :=
  {| sub_key_locks := ∅; batch_size := ∅; sub_keys := [];
     delivery_lists := ∅; delivery_tasks := ∅; last_sql_run := ∅ |}.

Definition set_sub_key_locks (v : gmap string nat) (o : t) : t :=
  {| sub_key_locks := v; batch_size := batch_size o; sub_keys := sub_keys o;
     delivery_lists := delivery_lists o; delivery_tasks := delivery_tasks o;
     last_sql_run := last_sql_run o |}.
Definition set_batch_size (v : gmap string Z) (o : t) : t :=
  {| sub_key_locks := sub_key_locks o; batch_size := v; sub_keys := sub_keys o;
     delivery_lists := delivery_lists o; delivery_tasks := delivery_tasks o;
     last_sql_run := last_sql_run o |}.
Definition set_sub_keys (v : list string) (o : t) : t :=
  {| sub_key_locks := sub_key_locks o; batch_size := batch_size o; sub_keys := v;
     delivery_lists := delivery_lists o; delivery_tasks := delivery_tasks o;
     last_sql_run := last_sql_run o |}.
Definition set_delivery_lists (v : gmap string nat) (o : t) : t :=
  {| sub_key_locks := sub_key_locks o; batch_size := batch_size o;
     sub_keys := sub_keys o; delivery_lists := v;
     delivery_tasks := delivery_tasks o; last_sql_run := last_sql_run o |}.
Definition set_delivery_tasks (v : gmap string nat) (o : t) : t :=
  {| sub_key_locks := sub_key_locks o; batch_size := batch_size o;
     sub_keys := sub_keys o; delivery_lists := delivery_lists o;
     delivery_tasks := v; last_sql_run := last_sql_run o |}.
Definition set_last_sql_run (v : gmap string (option Z)) (o : t) : t :=
  {| sub_key_locks := sub_key_locks o; batch_size := batch_size o;
     sub_keys := sub_keys o; delivery_lists := delivery_lists o;
     delivery_tasks := delivery_tasks o; last_sql_run := v |}.

(** The whole program state a method of the tool can touch. *)
Record Sys (W : Type) := {
  self : t;
  heap : Heap;
  world : W;
  trace : list Event
}.
Arguments self {W} _.
Arguments heap {W} _.
Arguments world {W} _.
Arguments trace {W} _.

Section Methods.

Context {W : Type} `{Collaborators W}.

(** Statements run in a state monad with exceptions.  What a statement
    changed before it raised stays changed. *)
Definition M (A : Type) : Type := Sys W -> Result A * Sys W.

Definition ret {A} (a : A) : M A := fun s => (Ok a, s).

Definition bind {A B} (m : M A) (k : A -> M B) : M B :=
  fun s =>
    match m s with
    | (Ok a, s') => k a s'
    | (Raise e, s') => (Raise e, s')
    end.

Local Notation "x <~ c ;; k" := (bind c (fun x => k))
  (at level 100, c at next level, right associativity).

Definition raise {A} (e : Exn) : M A := fun s => (Raise e, s).

Definition lift {A} (r : Result A) : M A := fun s => (r, s).

Definition with_self (f : t -> t) : M unit :=
  fun s => (Ok tt, {| self := f (self s); heap := heap s;
                      world := world s; trace := trace s |}).

Definition with_heap (f : Heap -> Heap) : M unit :=
  fun s => (Ok tt, {| self := self s; heap := f (heap s);
                      world := world s; trace := trace s |}).

Definition log (e : Event) : M unit :=
  fun s => (Ok tt, {| self := self s; heap := heap s;
                      world := world s; trace := trace s ++ [e] |}).

(** [try: body except Exception, e: handler(e)]. *)
Definition try_except (body : M unit) (handler : Exn -> M unit) : M unit :=
  fun s =>
    match body s with
    | (Ok a, s') => (Ok a, s')
    | (Raise e, s') => handler e s'
    end.

(** [for x in l: body(x)] over a list that the body does not touch. *)
Fixpoint for_each {A} (l : list A) (body : A -> M unit) : M unit :=
  match l with
  | [] => ret tt
  | x :: l' => _ <~ body x ;; for_each l' body
  end.

(** [d[k]], [d[k] = v] and [del d[k]] on one of the dicts of [self]. *)
Definition getitem {V} (d : t -> gmap string V) (k : string) : M V :=
  fun s =>
    match d (self s) !! k with
    | Some v => (Ok v, s)
    | None => (Raise (KeyError k), s)
    end.

Definition setitem {V} (d : t -> gmap string V)
    (set : gmap string V -> t -> t) (k : string) (v : V) : M unit :=
  with_self (fun o => set (<[k := v]> (d o)) o).

Definition delitem {V} (d : t -> gmap string V)
    (set : gmap string V -> t -> t) (k : string) : M unit :=
  _ <~ getitem d k ;;
  with_self (fun o => set (delete k (d o)) o).

(** [list.remove(x)]: drops the first occurrence. *)
Fixpoint list_remove (x : string) (l : list string) : option (list string) :=
  match l with
  | [] => None
  | y :: l' =>
    if decide (x = y) then Some l'
    else match list_remove x l' with
         | Some r => Some (y :: r)
         | None => None
         end
  end.

Definition sub_keys_remove (sub_key : string) : M unit :=
  fun s =>
    match list_remove sub_key (sub_keys (self s)) with
    | Some l => with_self (set_sub_keys l) s
    | None => (Raise ValueError, s)
    end.

(** Object creation: the new object gets the next free address. *)
Definition new_SortedList : M nat :=
  fun s =>
    let h := heap s in
    (Ok (length (lists h)),
     {| self := self s;
        heap := {| lists := lists h ++ [[]]; tasks := tasks h; locks := locks h |};
        world := world s; trace := trace s |}).

Definition new_RLock : M nat :=
  fun s =>
    let h := heap s in
    (Ok (locks h),
     {| self := self s;
        heap := {| lists := lists h; tasks := tasks h; locks := S (locks h) |};
        world := world s; trace := trace s |}).

(** [DeliveryTask.__init__]: fills the fields and spawns the greenlet. *)
Definition new_DeliveryTask (sub_key : string) (delivery_lock delivery_list : nat)
  : M nat :=
  fun s =>
    let h := heap s in
    let tid := length (tasks h) in
    (Ok tid,
     {| self := self s;
        heap := {| lists := lists h;
                   tasks := tasks h ++
                     [{| DeliveryTask.keep_running := true;
                         DeliveryTask.sub_key := sub_key;
                         DeliveryTask.delivery_lock := delivery_lock;
                         DeliveryTask.delivery_list := delivery_list |}];
                   locks := locks h |};
        world := world s; trace := trace s ++ [Spawned tid] |}).

(** [task.stop()]. *)
Definition stop (tid : nat) : M unit :=
  fun s =>
    (Ok tt,
     {| self := self s; heap := stop_task tid (heap s); world := world s;
        trace := trace s ++ [Info (DeliveryTask.sub_key (task_at (heap s) tid))] |}).

(** [PubSubTool.add_sub_key_no_lock]. *)
Definition add_sub_key_no_lock (sub_key : string) : M unit :=
  fun s =>
    if decide (sub_key ∈ sub_keys (self s)) then ret tt s
    else
      (_ <~ with_self (fun o => set_sub_keys (sub_keys o ++ [sub_key]) o) ;;
       _ <~ setitem batch_size set_batch_size sub_key 1 ;;
       _ <~ setitem last_sql_run set_last_sql_run sub_key None ;;
       delivery_list <~ new_SortedList ;;
       delivery_lock <~ new_RLock ;;
       _ <~ setitem delivery_lists set_delivery_lists sub_key delivery_list ;;
       task <~ new_DeliveryTask sub_key delivery_lock delivery_list ;;
       _ <~ setitem delivery_tasks set_delivery_tasks sub_key task ;;
       setitem sub_key_locks set_sub_key_locks sub_key delivery_lock) s.

(** [PubSubTool.add_sub_key]. *)
Definition add_sub_key (sub_key : string) : M unit :=
  add_sub_key_no_lock sub_key.

(** [PubSubTool.remove_sub_key]. *)
Definition remove_sub_key (sub_key : string) : M unit :=
  try_except
    (_ <~ sub_keys_remove sub_key ;;
     _ <~ delitem batch_size set_batch_size sub_key ;;
     _ <~ delitem last_sql_run set_last_sql_run sub_key ;;
     _ <~ delitem sub_key_locks set_sub_key_locks sub_key ;;
     _ <~ delitem delivery_lists set_delivery_lists sub_key ;;
     task <~ getitem delivery_tasks sub_key ;;
     _ <~ stop task ;;
     delitem delivery_tasks set_delivery_tasks sub_key)
    (fun e => log (Warned e)).

(** [PubSubTool.remove_all_sub_keys]: iterates over a copy of the keys. *)
Definition remove_all_sub_keys : M unit :=
  fun s =>
    let sub_keys := sub_keys (self s) in
    for_each sub_keys remove_sub_key s.

(** [self.delivery_lists[sub_key].add(m)] once the list object is known. *)
Definition list_add (loc : nat) (m : Message) : M unit :=
  with_heap (fun h => set_list loc (SortedList.add (list_at h loc) m) h).

(** [PubSubTool._add_non_gd_messages_by_sub_key]. *)
Definition _add_non_gd_messages_by_sub_key (sub_key : string)
    (messages : list Dict) : M unit :=
  for_each messages (fun msg =>
    loc <~ getitem delivery_lists sub_key ;;
    m <~ lift (NonGDMessage msg) ;;
    list_add loc m).

(** [PubSubTool.add_non_gd_messages_by_sub_key]. *)
Definition add_non_gd_messages_by_sub_key (sub_key : string)
    (messages : list Dict) : M unit :=
  _ <~ getitem sub_key_locks sub_key ;;
  _add_non_gd_messages_by_sub_key sub_key messages.

(** The call [self.pubsub.get_sql_messages_by_sub_key(...)]. *)
Definition get_sql_messages_by_sub_key (sub_key : string)
    (last_run : option Z) (session : Val) : M (list Row) :=
  fun s =>
    let '(r, w') := pubsub_get_sql_messages_by_sub_key sub_key last_run session
                      (world s) in
    (r, {| self := self s; heap := heap s; world := w';
           trace := trace s ++ [Fetched sub_key last_run session] |}).

(** [PubSubTool._fetch_gd_messages_by_sub_key(sub_key, session=None)]. *)
Definition _fetch_gd_messages_by_sub_key (sub_key : string) (session : Val)
  : M unit :=
  last_run <~ getitem last_sql_run sub_key ;;
  rows <~ get_sql_messages_by_sub_key sub_key last_run session ;;
  for_each rows (fun msg =>
    loc <~ getitem delivery_lists sub_key ;;
    list_add loc (GDMessage msg)).

(** [PubSubTool.fetch_gd_messages_by_sub_key(sub_key, session=None)]. *)
Definition fetch_gd_messages_by_sub_key (sub_key : string) (session : Val)
  : M unit :=
  _ <~ getitem sub_key_locks sub_key ;;
  _fetch_gd_messages_by_sub_key sub_key session.

(** The body of the loop in [handle_new_messages], for one [sub_key]:
    the lock of the key is looked up, then the two conditional calls. *)
Definition handle_sub_key (has_gd : bool) (non_gd_msg_list : list Dict)
    (sub_key : string) : M unit :=
  _ <~ getitem sub_key_locks sub_key ;;
  _ <~ (if has_gd then _fetch_gd_messages_by_sub_key sub_key VNone
        else ret tt) ;;
  match non_gd_msg_list with
  | [] => ret tt
  | _ :: _ => _add_non_gd_messages_by_sub_key sub_key non_gd_msg_list
  end.

(** [PubSubTool.handle_new_messages]. *)
Definition handle_new_messages (cid : Val) (has_gd : bool)
    (sub_key_list : list string) (non_gd_msg_list : list Dict) : M unit :=
  for_each sub_key_list (handle_sub_key has_gd non_gd_msg_list).

(** [PubSubTool.confirm_pubsub_msg_delivered]. *)
Definition confirm_pubsub_msg_delivered (sub_key : string) (pub_msg_id : Val)
    (w : W) : Result unit * W :=
  pubsub_confirm_pubsub_msg_delivered sub_key pub_msg_id w.

(** The greenlet of a task created by [add_sub_key_no_lock]: [run] with the
    two callbacks that the constructor call passes in. *)
Definition task_run (n : nat) (tid : nat) (h : Heap) (w : W)
  : option (Heap * W * list Event) :=
  TaskLoop.run web_socket_deliver_pubsub_msg confirm_pubsub_msg_delivered
               n 1 tid h w.

Definition task_pass (sub_key : string) (l : list Message) (w : W) :=
  DeliveryTask._run_delivery web_socket_deliver_pubsub_msg
    confirm_pubsub_msg_delivered sub_key l w.

(** A freshly constructed tool in a fresh process. *)
Definition initial (w : W) : Sys W :=
  {| self := __init__;
     heap := {| lists := []; tasks := []; locks := O |};
     world := w; trace := [] |}.

End Methods.

End PubSubTool.

(** ** The pass as a derivation

    The five ways one step of [delivery_loop] can go, as a big-step
    relation: [pass_from k l i w o l' w' tr] says that the iterator standing
    at index [i] of the live list [l] runs to outcome [o], leaving list [l'],
    world [w'] and trace [tr]. *)

Section PassRelation.

Context {W : Type}.
Variable deliver_pubsub_msg_cb : Message -> W -> Result unit * W.
Variable confirm_pubsub_msg_delivered_cb : string -> Val -> W -> Result unit * W.
Variable self_sub_key : string.

Inductive pass_from :
  list Message -> nat -> W -> DeliveryTask.Outcome ->
  list Message -> W -> list Event -> Prop :=
| pass_exhausted l i w :
    l !! i = None ->
    pass_from l i w DeliveryTask.ReturnedTrue l w []
| pass_deliver_failed l i w msg e w1 :
    l !! i = Some msg ->
    deliver_pubsub_msg_cb msg w = (Raise e, w1) ->
    pass_from l i w DeliveryTask.ReturnedNone l w1 [DeliverFailed msg]
| pass_confirm_failed l i w msg u e w1 w2 o l' w' tr :
    l !! i = Some msg ->
    deliver_pubsub_msg_cb msg w = (Ok u, w1) ->
    confirm_pubsub_msg_delivered_cb self_sub_key (pub_msg_id msg) w1 = (Raise e, w2) ->
    pass_from l (S i) w2 o l' w' tr ->
    pass_from l i w o l' w' ([Delivered msg; ConfirmFailed msg] ++ tr)
| pass_remove_raised l i w msg u u' e w1 w2 :
    l !! i = Some msg ->
    deliver_pubsub_msg_cb msg w = (Ok u, w1) ->
    confirm_pubsub_msg_delivered_cb self_sub_key (pub_msg_id msg) w1 = (Ok u', w2) ->
    SortedList.remove l msg = Raise e ->
    pass_from l i w (DeliveryTask.Raised e) l w2 [Delivered msg; Confirmed msg]
| pass_removed l i w msg u u' w1 w2 l1 o l' w' tr :
    l !! i = Some msg ->
    deliver_pubsub_msg_cb msg w = (Ok u, w1) ->
    confirm_pubsub_msg_delivered_cb self_sub_key (pub_msg_id msg) w1 = (Ok u', w2) ->
    SortedList.remove l msg = Ok l1 ->
    pass_from l1 (S i) w2 o l' w' tr ->
    pass_from l i w o l' w' ([Delivered msg; Confirmed msg; Removed msg] ++ tr).

End PassRelation.

(** ** Registry invariant

    What holds of the tool between any two method calls: the key list has
    no repeats, every per-key dict has exactly the listed keys, the
    last-run marker of every key is Python's [None], and distinct keys own
    distinct list objects that exist in the store. *)

Record consistent {W : Type} (s : PubSubTool.Sys W) : Prop := {
  cons_nodup : NoDup (PubSubTool.sub_keys (PubSubTool.self s));
  cons_batch_size : forall k,
    k ∈ PubSubTool.sub_keys (PubSubTool.self s) <->
    is_Some (PubSubTool.batch_size (PubSubTool.self s) !! k);
  cons_last_sql_run : forall k,
    k ∈ PubSubTool.sub_keys (PubSubTool.self s) <->
    is_Some (PubSubTool.last_sql_run (PubSubTool.self s) !! k);
  cons_sub_key_locks : forall k,
    k ∈ PubSubTool.sub_keys (PubSubTool.self s) <->
    is_Some (PubSubTool.sub_key_locks (PubSubTool.self s) !! k);
  cons_delivery_lists : forall k,
    k ∈ PubSubTool.sub_keys (PubSubTool.self s) <->
    is_Some (PubSubTool.delivery_lists (PubSubTool.self s) !! k);
  cons_delivery_tasks : forall k,
    k ∈ PubSubTool.sub_keys (PubSubTool.self s) <->
    is_Some (PubSubTool.delivery_tasks (PubSubTool.self s) !! k);
  cons_marker_unset : forall k v,
    PubSubTool.last_sql_run (PubSubTool.self s) !! k = Some v -> v = None;
  cons_lists_alloc : forall k loc,
    PubSubTool.delivery_lists (PubSubTool.self s) !! k = Some loc ->
    (loc < length (lists (PubSubTool.heap s)))%nat;
  cons_lists_apart : forall k1 k2 loc,
    PubSubTool.delivery_lists (PubSubTool.self s) !! k1 = Some loc ->
    PubSubTool.delivery_lists (PubSubTool.self s) !! k2 = Some loc ->
    k1 = k2;
  cons_tasks_alloc : forall k tid,
    PubSubTool.delivery_tasks (PubSubTool.self s) !! k = Some tid ->
    (tid < length (tasks (PubSubTool.heap s)))%nat
}.

(** The queue of a key, read through the registry. *)
Definition queue_of {W : Type} (s : PubSubTool.Sys W) (k : string)
  : option (list Message) :=
  match PubSubTool.delivery_lists (PubSubTool.self s) !! k with
  | Some loc => Some (list_at (PubSubTool.heap s) loc)
  | None => None
  end.

(** [s1] is [s] except that the list at [loc] now holds [q]. *)
Definition only_queue_changed {W : Type} (loc : nat) (q : list Message)
    (s s1 : PubSubTool.Sys W) : Prop :=
  PubSubTool.self s1 = PubSubTool.self s /\
  PubSubTool.world s1 = PubSubTool.world s /\
  PubSubTool.trace s1 = PubSubTool.trace s /\
  tasks (PubSubTool.heap s1) = tasks (PubSubTool.heap s) /\
  locks (PubSubTool.heap s1) = locks (PubSubTool.heap s) /\
  lists (PubSubTool.heap s1) = <[loc := q]> (lists (PubSubTool.heap s)).

(** Every list object in the store is in ascending order. *)
Definition queues_sorted (h : Heap) : Prop :=
  Forall SortedList.sorted (lists h).

(** [s1] differs from [s] at most in the content of list objects, the
    world and the trace; list objects stay ascending if they were. *)
Definition frame {W : Type} (s s1 : PubSubTool.Sys W) : Prop :=
  PubSubTool.self s1 = PubSubTool.self s /\
  length (lists (PubSubTool.heap s1)) = length (lists (PubSubTool.heap s)) /\
  tasks (PubSubTool.heap s1) = tasks (PubSubTool.heap s) /\
  (queues_sorted (PubSubTool.heap s) -> queues_sorted (PubSubTool.heap s1)).

(** A statement that leaves every list object as it is. *)
Definition keeps_lists {W A : Type}
    (m : PubSubTool.Sys W -> Result A * PubSubTool.Sys W) : Prop :=
  forall s, lists (PubSubTool.heap (m s).2) = lists (PubSubTool.heap s).

(** The states a tool can be in: a fresh tool, then any sequence of calls
    of its public methods and of iterations of the tasks it spawned. *)
Inductive reachable {W : Type} `{Collaborators W} : PubSubTool.Sys W -> Prop :=
| reach_initial w :
    reachable (PubSubTool.initial w)
| reach_add_sub_key k s :
    reachable s -> reachable (PubSubTool.add_sub_key k s).2
| reach_remove_sub_key k s :
    reachable s -> reachable (PubSubTool.remove_sub_key k s).2
| reach_remove_all_sub_keys s :
    reachable s -> reachable (PubSubTool.remove_all_sub_keys s).2
| reach_add_non_gd k msgs s :
    reachable s ->
    reachable (PubSubTool.add_non_gd_messages_by_sub_key k msgs s).2
| reach_fetch_gd k session s :
    reachable s ->
    reachable (PubSubTool.fetch_gd_messages_by_sub_key k session s).2
| reach_handle_new_messages cid has_gd keys msgs s :
    reachable s ->
    reachable (PubSubTool.handle_new_messages cid has_gd keys msgs s).2
| reach_task_iteration tid s b h' w' tr :
    reachable s ->
    TaskLoop.run_iteration web_socket_deliver_pubsub_msg
      PubSubTool.confirm_pubsub_msg_delivered 1 tid
      (PubSubTool.heap s) (PubSubTool.world s) = Some (b, h', w', tr) ->
    reachable {| PubSubTool.self := PubSubTool.self s; PubSubTool.heap := h';
                 PubSubTool.world := w';
                 PubSubTool.trace := PubSubTool.trace s ++ tr |}.

(** Wrapping every dict of a batch, first failure first: what the loop of
    [_add_non_gd_messages_by_sub_key] constructs along the way. *)
Fixpoint wrap_all (msgs : list Dict) : Result (list Message) :=
  match msgs with
  | [] => Ok []
  | d :: msgs' =>
    match NonGDMessage d with
    | Raise e => Raise e
    | Ok m =>
      match wrap_all msgs' with
      | Raise e => Raise e
      | Ok ms => Ok (m :: ms)
      end
    end
  end.

(** ** Scripted collaborators

    A world in which the outcome of each transport and confirmation call is
    read off a script (an exhausted script means success), the SQL layer
    returns a fixed list of rows, and the random generator a fixed draw. *)

Module Stub.

Record World := {
  deliver_plan : list bool;
  confirm_plan : list bool;
  rows : list Row;
  draw : Z
}.

Definition answer (b : bool) : Result unit :=
  if b then Ok tt else Raise CallbackError.

Definition deliver (m : Message) (w : World) : Result unit * World :=
  match deliver_plan w with
  | [] => (Ok tt, w)
  | b :: p => (answer b, {| deliver_plan := p; confirm_plan := confirm_plan w;
                             rows := rows w; draw := draw w |})
  end.

Definition confirm (sub_key : string) (pub_msg_id : Val) (w : World)
  : Result unit * World :=
  match confirm_plan w with
  | [] => (Ok tt, w)
  | b :: p => (answer b, {| deliver_plan := deliver_plan w; confirm_plan := p;
                             rows := rows w; draw := draw w |})
  end.

Definition fetch (sub_key : string) (last_run : option Z) (session : Val)
    (w : World) : Result (list Row) * World :=
  (Ok (rows w), w).

#[global] Instance collaborators : Collaborators World := {|
  web_socket_deliver_pubsub_msg := deliver;
  pubsub_confirm_pubsub_msg_delivered := confirm;
  pubsub_get_sql_messages_by_sub_key := fetch;
  random_next := fun w => (draw w, w)
|}.

Definition world (d c : list bool) : World :=
  {| deliver_plan := d; confirm_plan := c; rows := []; draw := 0 |}.

Definition msg (id : string) (pri ext pub : Z) : Message :=
  {| pub_msg_id := VStr id; pub_correl_id := VNone; in_reply_to := VNone;
     ext_client_id := VNone; group_id := VNone; position_in_group := VNone;
     pub_time := pub; ext_pub_time := ext; data := VStr "payload";
     mime_type := VStr "text/plain"; priority := pri; expiration := VInt 60;
     expiration_time := VInt 0; has_gd := VBool false |}.

Definition row (id : string) (pri ext pub : Z) : Row :=
  {| r_pub_msg_id := VStr id; r_pub_correl_id := VNone; r_in_reply_to := VNone;
     r_ext_client_id := VNone; r_group_id := VNone;
     r_position_in_group := VNone; r_pub_time := pub; r_ext_pub_time := ext;
     r_data := VStr "payload"; r_mime_type := VStr "text/plain";
     r_priority := pri; r_expiration := VInt 60; r_expiration_time := VInt 0;
     r_has_gd := VBool true |}.

Definition dict (id : string) (pri ext pub : Z) : Dict :=
  {| d_pub_msg_id := Some (VStr id); d_pub_correl_id := Some VNone;
     d_in_reply_to := Some VNone; d_ext_client_id := Some VNone;
     d_group_id := Some VNone; d_position_in_group := Some VNone;
     d_pub_time := Some pub; d_ext_pub_time := Some ext;
     d_data := Some (VStr "payload"); d_mime_type := Some (VStr "text/plain");
     d_priority := Some pri; d_expiration := Some (VInt 60);
     d_expiration_time := Some (VInt 0); d_has_gd := Some (VBool false) |}.

(** A dict without the ["priority"] key. *)
Definition dict_no_priority (id : string) : Dict :=
  {| d_pub_msg_id := Some (VStr id); d_pub_correl_id := Some VNone;
     d_in_reply_to := Some VNone; d_ext_client_id := Some VNone;
     d_group_id := Some VNone; d_position_in_group := Some VNone;
     d_pub_time := Some 0; d_ext_pub_time := Some 0;
     d_data := Some (VStr "payload"); d_mime_type := Some (VStr "text/plain");
     d_priority := None; d_expiration := Some (VInt 60);
     d_expiration_time := Some (VInt 0); d_has_gd := Some (VBool false) |}.

End Stub.

(** ** Notions used to state further properties *)

(** The messages a trace reports as handed to the transport, in order. *)
Definition delivered_of (tr : list Event) : list Message :=
  omap (fun e => match e with Delivered m => Some m | _ => None end) tr.

(** The messages for which a trace reports a call of the transport,
    successful or not, in order. *)
Definition attempted_of (tr : list Event) : list Message :=
  omap (fun e => match e with
                 | Delivered m | DeliverFailed m => Some m
                 | _ => None
                 end) tr.

(** The messages a trace reports as taken out of the queue, in order. *)
Definition removed_of (tr : list Event) : list Message :=
  omap (fun e => match e with Removed m => Some m | _ => None end) tr.

(** The sleeps a trace reports, in order. *)
Definition sleeps_of (tr : list Event) : list Z :=
  omap (fun e => match e with Slept t => Some t | _ => None end) tr.

(** Entries at positions 0, 2, 4, ... of a list. *)
Fixpoint every_other {A : Type} (l : list A) : list A :=
  match l with
  | [] => []
  | x :: l' =>
    x :: match l' with
         | [] => []
         | _ :: l'' => every_other l''
         end
  end.

(** The keys [NonGDMessage.__init__] reads, in the order it reads them,
    restricted to those a dict does not have. *)
Definition missing_keys (d : Dict) : list string :=
  let absent {A} (name : string) (entry : option A) : list string :=
    match entry with Some _ => [] | None => [name] end in
  absent "pub_msg_id" (d_pub_msg_id d) ++
  absent "pub_correl_id" (d_pub_correl_id d) ++
  absent "in_reply_to" (d_in_reply_to d) ++
  absent "ext_client_id" (d_ext_client_id d) ++
  absent "group_id" (d_group_id d) ++
  absent "position_in_group" (d_position_in_group d) ++
  absent "pub_time" (d_pub_time d) ++
  absent "ext_pub_time" (d_ext_pub_time d) ++
  absent "data" (d_data d) ++
  absent "mime_type" (d_mime_type d) ++
  absent "priority" (d_priority d) ++
  absent "expiration" (d_expiration d) ++
  absent "expiration_time" (d_expiration_time d) ++
  absent "has_gd" (d_has_gd d).

(** The dict that has a message's fourteen fields as its entries. *)
Definition dict_of_message (m : Message) : Dict :=
  {| d_pub_msg_id := Some (pub_msg_id m);
     d_pub_correl_id := Some (pub_correl_id m);
     d_in_reply_to := Some (in_reply_to m);
     d_ext_client_id := Some (ext_client_id m);
     d_group_id := Some (group_id m);
     d_position_in_group := Some (position_in_group m);
     d_pub_time := Some (pub_time m);
     d_ext_pub_time := Some (ext_pub_time m);
     d_data := Some (data m);
     d_mime_type := Some (mime_type m);
     d_priority := Some (priority m);
     d_expiration := Some (expiration m);
     d_expiration_time := Some (expiration_time m);
     d_has_gd := Some (has_gd m) |}.

(** Every registered key has a task object that is running, carries the
    key, and holds the very lock and list the registry holds for the key. *)
Definition wired {W : Type} (s : PubSubTool.Sys W) : Prop :=
  forall k tid,
    PubSubTool.delivery_tasks (PubSubTool.self s) !! k = Some tid ->
    exists lock loc,
      tasks (PubSubTool.heap s) !! tid =
        Some {| DeliveryTask.keep_running := true; DeliveryTask.sub_key := k;
                DeliveryTask.delivery_lock := lock;
                DeliveryTask.delivery_list := loc |} /\
      PubSubTool.sub_key_locks (PubSubTool.self s) !! k = Some lock /\
      PubSubTool.delivery_lists (PubSubTool.self s) !! k = Some loc.

(** Every task object whose flag is still set is the one the registry
    holds for the key the task carries: no task runs unaccounted for. *)
Definition accounted {W : Type} (s : PubSubTool.Sys W) : Prop :=
  forall tid t,
    tasks (PubSubTool.heap s) !! tid = Some t ->
    DeliveryTask.keep_running t = true ->
    PubSubTool.delivery_tasks (PubSubTool.self s) !! DeliveryTask.sub_key t =
      Some tid.

(** ** Collaborators with a failing persistence layer

    Transport and confirmation succeed, the SQL query always raises. *)

Module Outage.

#[global] Instance collaborators : Collaborators unit := {|
  web_socket_deliver_pubsub_msg := fun _ w => (Ok tt, w);
  pubsub_confirm_pubsub_msg_delivered := fun _ _ w => (Ok tt, w);
  pubsub_get_sql_messages_by_sub_key := fun _ _ _ w => (Raise CallbackError, w);
  random_next := fun w => (0, w)
|}.

End Outage.

(** * Properties *)

(** ** Ordering of messages *)

Section Ordering.

Lemma cmp_range a b : Msg.cmp a b = -1 \/ Msg.cmp a b = 0 \/ Msg.cmp a b = 1.
Proof.
  unfold Msg.cmp. destruct (a <? b); [auto|]. destruct (a =? b); auto.
Qed.

Lemma cmp_lt a b : Msg.cmp a b = -1 <-> a < b.
Proof.
  unfold Msg.cmp.
  destruct (Z.ltb_spec a b); [lia|].
  destruct (Z.eqb_spec a b); lia.
Qed.

Lemma cmp_eq a b : Msg.cmp a b = 0 <-> a = b.
Proof.
  unfold Msg.cmp.
  destruct (Z.ltb_spec a b); [lia|].
  destruct (Z.eqb_spec a b); lia.
Qed.

Lemma cmp_gt a b : Msg.cmp a b = 1 <-> b < a.
Proof.
  unfold Msg.cmp.
  destruct (Z.ltb_spec a b); [lia|].
  destruct (Z.eqb_spec a b); lia.
Qed.

(** The sign of [__cmp__] read off the three ordering fields. *)
Lemma cmp_neg (a b : Message) :
  __cmp__ a b = -1 <->
  priority b < priority a \/
  (priority a = priority b /\ ext_pub_time a < ext_pub_time b) \/
  (priority a = priority b /\ ext_pub_time a = ext_pub_time b /\
   pub_time a < pub_time b).
Proof.
  unfold __cmp__; cbn [cmp_tuple].
  destruct (Z.eqb_spec (9 - priority a) (9 - priority b)) as [Hp|Hp].
  - destruct (Z.eqb_spec (ext_pub_time a) (ext_pub_time b)) as [He|He].
    + destruct (Z.eqb_spec (pub_time a) (pub_time b)) as [Ht|Ht].
      * lia.
      * rewrite cmp_lt. lia.
    + rewrite cmp_lt. lia.
  - rewrite cmp_lt. lia.
Qed.

Lemma cmp_zero (a b : Message) :
  __cmp__ a b = 0 <->
  priority a = priority b /\ ext_pub_time a = ext_pub_time b /\
  pub_time a = pub_time b.
Proof.
  unfold __cmp__; cbn [cmp_tuple].
  destruct (Z.eqb_spec (9 - priority a) (9 - priority b)) as [Hp|Hp].
  - destruct (Z.eqb_spec (ext_pub_time a) (ext_pub_time b)) as [He|He].
    + destruct (Z.eqb_spec (pub_time a) (pub_time b)) as [Ht|Ht].
      * lia.
      * rewrite cmp_eq. lia.
    + rewrite cmp_eq. lia.
  - rewrite cmp_eq. lia.
Qed.

Lemma cmp_values (a b : Message) :
  __cmp__ a b = -1 \/ __cmp__ a b = 0 \/ __cmp__ a b = 1.
Proof.
  unfold __cmp__; cbn [cmp_tuple].
  repeat match goal with |- context [if ?c then _ else _] => destruct c end;
    auto using cmp_range.
Qed.

Lemma cmp_pos (a b : Message) : __cmp__ a b = 1 <-> __cmp__ b a = -1.
Proof.
  rewrite cmp_neg.
  destruct (cmp_values a b) as [Hc|[Hc|Hc]].
  - pose proof Hc as Hc'. apply cmp_neg in Hc'. lia.
  - pose proof Hc as Hc'. apply cmp_zero in Hc'. lia.
  - split; [intros _|auto].
    destruct (Z.lt_trichotomy (priority a) (priority b)) as [?|[?|?]];
      [lia| |].
    + destruct (Z.lt_trichotomy (ext_pub_time a) (ext_pub_time b))
        as [?|[?|?]].
      * assert (__cmp__ a b = -1) by (apply cmp_neg; lia). lia.
      * destruct (Z.lt_trichotomy (pub_time a) (pub_time b)) as [?|[?|?]].
        -- assert (__cmp__ a b = -1) by (apply cmp_neg; lia). lia.
        -- assert (__cmp__ a b = 0) by (apply cmp_zero; lia). lia.
        -- lia.
      * lia.
    + assert (__cmp__ a b = -1) by (apply cmp_neg; lia). lia.
Qed.

Lemma cmp_refl (a : Message) : __cmp__ a a = 0.
Proof. apply cmp_zero; auto. Qed.

Lemma cmp_antisym (a b : Message) : __cmp__ b a = - __cmp__ a b.
Proof.
  destruct (cmp_values a b) as [Hc|[Hc|Hc]]; rewrite Hc.
  - apply cmp_pos in Hc. lia.
  - apply cmp_zero in Hc. assert (__cmp__ b a = 0) by (apply cmp_zero; lia). lia.
  - apply cmp_pos in Hc. lia.
Qed.

End Ordering.

Section SortedListFacts.

Lemma lt_true (a b : Message) :
  Msg.lt a b = true <->
  priority b < priority a \/
  (priority a = priority b /\ ext_pub_time a < ext_pub_time b) \/
  (priority a = priority b /\ ext_pub_time a = ext_pub_time b /\
   pub_time a < pub_time b).
Proof.
  rewrite <- cmp_neg. unfold Msg.lt.
  destruct (cmp_values a b) as [Hc|[Hc|Hc]]; rewrite Hc;
    split; intro; try reflexivity; try lia; try discriminate.
Qed.

Lemma lt_false (a b : Message) :
  Msg.lt a b = false <->
  ~ (priority b < priority a \/
     (priority a = priority b /\ ext_pub_time a < ext_pub_time b) \/
     (priority a = priority b /\ ext_pub_time a = ext_pub_time b /\
      pub_time a < pub_time b)).
Proof.
  rewrite <- lt_true. destruct (Msg.lt a b); split; intro; done.
Qed.

Lemma eq_true (a b : Message) :
  Msg.eq a b = true <->
  priority a = priority b /\ ext_pub_time a = ext_pub_time b /\
  pub_time a = pub_time b.
Proof.
  rewrite <- cmp_zero. unfold Msg.eq. apply Z.eqb_eq.
Qed.

Lemma le_spec (a b : Message) :
  SortedList.le a b <-> Msg.lt b a = false.
Proof.
  unfold SortedList.le, Msg.lt. rewrite Z.ltb_ge. reflexivity.
Qed.

Lemma le_fields (a b : Message) :
  SortedList.le a b <->
  priority b < priority a \/
  (priority a = priority b /\ ext_pub_time a < ext_pub_time b) \/
  (priority a = priority b /\ ext_pub_time a = ext_pub_time b /\
   pub_time a <= pub_time b).
Proof. rewrite le_spec, lt_false. lia. Qed.

Lemma le_trans (a b c : Message) :
  SortedList.le a b -> SortedList.le b c -> SortedList.le a c.
Proof. rewrite !le_fields. lia. Qed.

Lemma slt_fields (a b : Message) :
  SortedList.slt a b <-> Msg.lt a b = true.
Proof. unfold SortedList.slt, Msg.lt. rewrite Z.ltb_lt. reflexivity. Qed.

Lemma slt_le (a b : Message) : SortedList.slt a b -> SortedList.le a b.
Proof. rewrite slt_fields, lt_true, le_fields. lia. Qed.

Lemma strictly_sorted_sorted (l : list Message) :
  SortedList.strictly_sorted l -> SortedList.sorted l.
Proof.
  induction 1 as [|x l Hl IH Hx]; constructor; [exact IH|].
  eapply Forall_impl; [exact Hx|]. intros y. apply slt_le.
Qed.

Lemma add_nil (x : Message) : SortedList.add [] x = [x].
Proof. reflexivity. Qed.

(** [add] puts the new entry where it keeps the list ascending. *)
Lemma add_cons (y : Message) (l : list Message) (x : Message) :
  SortedList.add (y :: l) x =
  if Msg.lt x y then x :: y :: l else y :: SortedList.add l x.
Proof.
  unfold SortedList.add, SortedList.list_insert_at. cbn [SortedList.bisect_right].
  destruct (Msg.lt x y); reflexivity.
Qed.

Lemma add_elem_of (l : list Message) (x z : Message) :
  z ∈ SortedList.add l x <-> z = x \/ z ∈ l.
Proof.
  induction l as [|y l IH].
  - cbn. set_solver.
  - rewrite add_cons. destruct (Msg.lt x y).
    + clear IH. set_solver.
    + rewrite !elem_of_cons, IH. tauto.
Qed.

Lemma add_length (l : list Message) (x : Message) :
  length (SortedList.add l x) = S (length l).
Proof.
  induction l as [|y l IH]; [reflexivity|].
  rewrite add_cons. destruct (Msg.lt x y); cbn; [reflexivity|].
  rewrite IH. reflexivity.
Qed.

Lemma add_sorted (l : list Message) (x : Message) :
  SortedList.sorted l -> SortedList.sorted (SortedList.add l x).
Proof.
  induction 1 as [|y l Hl IH Hy].
  - repeat constructor.
  - rewrite add_cons. destruct (Msg.lt x y) eqn:E.
    + constructor; [constructor; assumption|].
      assert (SortedList.le x y) as Hxy
        by (apply slt_le, slt_fields; exact E).
      constructor; [exact Hxy|].
      eapply Forall_impl; [exact Hy|]. intros z Hz. eapply le_trans; eauto.
    + constructor; [exact IH|].
      apply Forall_forall. intros z Hz. apply add_elem_of in Hz as [->|Hz].
      * apply le_spec. exact E.
      * rewrite Forall_forall in Hy. auto.
Qed.

Lemma update_sorted (vals l : list Message) :
  SortedList.sorted l -> SortedList.sorted (SortedList.update l vals).
Proof.
  revert l. induction vals as [|v vals IH]; intros l Hl; [exact Hl|].
  cbn. apply IH, add_sorted, Hl.
Qed.

End SortedListFacts.

Ltac decide_lt :=
  match goal with
  | |- context [Msg.lt ?a ?b] =>
    first
      [ replace (Msg.lt a b) with true by (symmetry; apply lt_true; lia)
      | replace (Msg.lt a b) with false by (symmetry; apply lt_false; lia) ]
  end.

(** C3.  Comparison of two messages, durable or ephemeral alike, follows
    the key (9 - priority, ext_pub_time, pub_time) in ascending order:
    [a] sorts before [b] exactly when [a] has the higher priority, or the
    same priority and the earlier external publish time, or both equal and
    the earlier internal publish time; they compare equal exactly when all
    three fields agree.  A sorted list keeps its entries ascending under
    insertion, and three messages (priority 9, ext 100), (priority 5,
    ext 50), (priority 5, ext 10), inserted in any order, are iterated as
    p9 at 100, p5 at 10, p5 at 50. *)
Theorem message_ordering_by_key (x y z : Message) :
  priority x = 9 -> ext_pub_time x = 100 ->
  priority y = 5 -> ext_pub_time y = 50 ->
  priority z = 5 -> ext_pub_time z = 10 ->
  (forall a b : Message,
     (__cmp__ a b < 0 <->
        priority b < priority a \/
        (priority a = priority b /\ ext_pub_time a < ext_pub_time b) \/
        (priority a = priority b /\ ext_pub_time a = ext_pub_time b /\
         pub_time a < pub_time b)) /\
     (__cmp__ a b = 0 <->
        priority a = priority b /\ ext_pub_time a = ext_pub_time b /\
        pub_time a = pub_time b) /\
     __cmp__ b a = - __cmp__ a b) /\
  (forall (r : Row) (d : Dict) (m : Message),
     NonGDMessage d = Ok m ->
     priority (GDMessage r) = r_priority r /\
     ext_pub_time (GDMessage r) = r_ext_pub_time r /\
     pub_time (GDMessage r) = r_pub_time r /\
     d_priority d = Some (priority m) /\
     d_ext_pub_time d = Some (ext_pub_time m) /\
     d_pub_time d = Some (pub_time m)) /\
  (forall (l : list Message) (v : Message),
     SortedList.sorted l -> SortedList.sorted (SortedList.add l v)) /\
  (forall order : list Message,
     order ≡ₚ [x; y; z] -> SortedList.update [] order = [x; z; y]).
Proof.
  intros Hx1 Hx2 Hy1 Hy2 Hz1 Hz2. split; [|split; [|split]].
  - intros a b. split; [|split; [apply cmp_zero|apply cmp_antisym]].
    rewrite <- cmp_neg.
    destruct (cmp_values a b) as [Hc|[Hc|Hc]]; rewrite Hc; lia.
  - intros r d m Hm. unfold NonGDMessage in Hm.
    destruct d; cbn in *.
    repeat match goal with
    | H : context [Msg.getitem _ ?o] |- _ => destruct o; cbn in H; [|discriminate H]
    end.
    injection Hm as <-. cbn. auto 10.
  - intros l v. apply add_sorted.
  - intros order Hp. symmetry in Hp. apply permutations_Permutation in Hp.
    cbn in Hp. unfold SortedList.update.
    rewrite !elem_of_cons, elem_of_nil in Hp.
    destruct Hp as [->|[->|[->|[->|[->|[->|[]]]]]]]; cbn [foldl];
      repeat first [rewrite add_nil | rewrite add_cons | decide_lt];
      reflexivity.
Qed.

(** The three messages of the example, inserted lowest first. *)
Lemma message_ordering_by_key_witness :
  let x := Stub.msg "p9" 9 100 3 in
  let y := Stub.msg "p5late" 5 50 2 in
  let z := Stub.msg "p5early" 5 10 1 in
  SortedList.update [] [y; z; x] = [x; z; y] /\ __cmp__ x z < 0.
Proof.
  intros x y z.
  destruct (message_ordering_by_key x y z eq_refl eq_refl eq_refl eq_refl
              eq_refl eq_refl) as (Hcmp & _ & _ & Horder).
  split.
  - apply Horder. symmetry. apply (Permutation_cons_append [y; z] x).
  - apply (Hcmp x z). left. vm_compute. reflexivity.
Defined.

(** ** One delivery pass *)

Section ListFacts.

Lemma StronglySorted_delete {A} (R : A -> A -> Prop) (l : list A) (i : nat) :
  StronglySorted R l -> StronglySorted R (delete i l).
Proof.
  intros Hl. revert i. induction Hl as [|x l Hl IH Hx]; intros [|i]; cbn.
  - constructor.
  - constructor.
  - exact Hl.
  - constructor; [apply IH|].
    apply Forall_forall. intros y Hy. rewrite Forall_forall in Hx.
    apply Hx. eapply elem_of_sublist; [exact Hy|apply sublist_delete].
Qed.

Lemma drop_delete_le {A} (l : list A) (i j : nat) :
  (j <= i)%nat -> drop i (delete j l) = drop (S i) l.
Proof.
  revert i j. induction l as [|x l IH]; intros i j Hji.
  - destruct j; cbn; rewrite ?drop_nil; reflexivity.
  - destruct j as [|j]; [reflexivity|].
    destruct i as [|i]; [lia|]. cbn. apply IH. lia.
Qed.

Lemma take_delete_ge {A} (l : list A) (i j : nat) :
  (i <= j)%nat -> take i (delete j l) = take i l.
Proof.
  revert i j. induction l as [|x l IH]; intros i j Hij.
  - destruct j; reflexivity.
  - destruct i as [|i]; [destruct j; reflexivity|].
    destruct j as [|j]; [lia|]. cbn. f_equal. apply IH. lia.
Qed.

Lemma strictly_sorted_NoDup (l : list Message) :
  SortedList.strictly_sorted l -> NoDup l.
Proof.
  induction 1 as [|x l Hl IH Hx]; constructor; [|exact IH].
  intros Hin. rewrite Forall_forall in Hx. specialize (Hx _ Hin).
  unfold SortedList.slt in Hx. rewrite cmp_refl in Hx. lia.
Qed.

Lemma lt_irrefl (m : Message) : Msg.lt m m = false.
Proof. unfold Msg.lt. rewrite cmp_refl. reflexivity. Qed.

Lemma eq_refl_msg (m : Message) : Msg.eq m m = true.
Proof. unfold Msg.eq. rewrite cmp_refl. reflexivity. Qed.

Lemma bisect_left_le (l : list Message) (i : nat) (m : Message) :
  l !! i = Some m -> (SortedList.bisect_left l m <= i)%nat.
Proof.
  revert i. induction l as [|y l IH]; intros [|i] Hi; try discriminate.
  - cbn in Hi. injection Hi as ->. cbn. rewrite lt_irrefl. lia.
  - cbn in Hi. cbn. destruct (Msg.lt y m); [|lia].
    specialize (IH _ Hi). lia.
Qed.

Lemma bisect_left_strict (l : list Message) (i : nat) (m : Message) :
  SortedList.strictly_sorted l -> l !! i = Some m ->
  SortedList.bisect_left l m = i.
Proof.
  intros Hl. revert i. induction Hl as [|y l Hl IH Hy]; intros [|i] Hi;
    try discriminate.
  - cbn in Hi. injection Hi as ->. cbn. rewrite lt_irrefl. reflexivity.
  - cbn in Hi. cbn.
    assert (Msg.lt y m = true) as ->.
    { apply slt_fields. rewrite Forall_forall in Hy. apply Hy.
      eapply list_elem_of_lookup_2; eauto. }
    f_equal. auto.
Qed.

Lemma bisect_left_sorted (l : list Message) (i : nat) (m : Message) :
  SortedList.sorted l -> l !! i = Some m ->
  exists y, l !! SortedList.bisect_left l m = Some y /\ Msg.eq y m = true.
Proof.
  intros Hl. revert i. induction Hl as [|y l Hl IH Hy]; intros [|i] Hi;
    try discriminate.
  - cbn in Hi. injection Hi as ->. cbn. rewrite lt_irrefl.
    exists m. split; [reflexivity|apply eq_refl_msg].
  - cbn in Hi. cbn. destruct (Msg.lt y m) eqn:E.
    + cbn. eauto.
    + exists y. split; [reflexivity|].
      rewrite Forall_forall in Hy.
      assert (SortedList.le y m) as Hle
        by (apply Hy; eapply list_elem_of_lookup_2; eauto).
      unfold SortedList.le in Hle. unfold Msg.lt in E.
      apply Z.ltb_ge in E. rewrite cmp_antisym in Hle.
      unfold Msg.eq. apply Z.eqb_eq. lia.
Qed.

(** What a successful [remove] did: it deleted one entry at or before the
    position of the message it was given. *)
Lemma remove_shape (l l' : list Message) (i : nat) (m : Message) :
  l !! i = Some m -> SortedList.remove l m = Ok l' ->
  exists j, (j <= i)%nat /\ (j < length l)%nat /\ l' = delete j l.
Proof.
  intros Hi Hr. unfold SortedList.remove in Hr.
  destruct (l !! SortedList.bisect_left l m) as [y|] eqn:Ey; [|discriminate].
  destruct (Msg.eq y m); [|discriminate]. injection Hr as <-.
  exists (SortedList.bisect_left l m). split; [|split; [|reflexivity]].
  - apply bisect_left_le; assumption.
  - eapply lookup_lt_Some; eauto.
Qed.

Lemma remove_sorted (l : list Message) (i : nat) (m : Message) :
  SortedList.sorted l -> l !! i = Some m ->
  exists l', SortedList.remove l m = Ok l'.
Proof.
  intros Hl Hi. destruct (bisect_left_sorted l i m Hl Hi) as (y & Hy & Heq).
  unfold SortedList.remove. rewrite Hy, Heq. eauto.
Qed.

Lemma remove_strict (l : list Message) (i : nat) (m : Message) :
  SortedList.strictly_sorted l -> l !! i = Some m ->
  SortedList.remove l m = Ok (delete i l).
Proof.
  intros Hl Hi. unfold SortedList.remove.
  rewrite (bisect_left_strict l i m Hl Hi), Hi, eq_refl_msg. reflexivity.
Qed.

End ListFacts.

Section Pass.

Context {W : Type}.
Variable deliver : Message -> W -> Result unit * W.
Variable confirm : string -> Val -> W -> Result unit * W.
Variable k : string.

Local Abbreviation loop := (DeliveryTask.delivery_loop deliver confirm).
Local Abbreviation derivation := (pass_from deliver confirm k).

(** The function computes a derivation of the relation. *)
Lemma loop_derivation fuel l i w o l' w' tr :
  loop fuel k l i w = Some (o, l', w', tr) -> derivation l i w o l' w' tr.
Proof.
  revert l i w o l' w' tr.
  induction fuel as [|fuel IH]; intros l i w o l' w' tr Hrun; [discriminate|].
  cbn [DeliveryTask.delivery_loop] in Hrun.
  destruct (l !! i) as [msg|] eqn:Hi.
  - destruct (deliver msg w) as [[u|e] w1] eqn:Hd.
    + destruct (confirm k (pub_msg_id msg) w1) as [[u'|e] w2] eqn:Hc.
      * destruct (SortedList.remove l msg) as [l1|e] eqn:Hr.
        -- destruct (loop fuel k l1 (S i) w2) as [[[[o1 l2] w3] tr1]|] eqn:Hrec;
             [|discriminate].
           cbn in Hrun. injection Hrun as <- <- <- <-.
           eapply pass_removed; eauto.
        -- injection Hrun as <- <- <- <-. eapply pass_remove_raised; eauto.
      * destruct (loop fuel k l (S i) w2) as [[[[o1 l2] w3] tr1]|] eqn:Hrec;
          [|discriminate].
        cbn in Hrun. injection Hrun as <- <- <- <-.
        eapply pass_confirm_failed; eauto.
    + injection Hrun as <- <- <- <-. eapply pass_deliver_failed; eauto.
  - injection Hrun as <- <- <- <-. apply pass_exhausted; assumption.
Qed.

(** With fuel above the number of entries still ahead of the iterator the
    loop runs to its end. *)
Lemma loop_total fuel l i w :
  (length l - i < fuel)%nat -> is_Some (loop fuel k l i w).
Proof.
  revert l i w. induction fuel as [|fuel IH]; intros l i w Hfuel; [lia|].
  cbn [DeliveryTask.delivery_loop].
  destruct (l !! i) as [msg|] eqn:Hi; [|eauto].
  pose proof (lookup_lt_Some _ _ _ Hi) as Hlt.
  destruct (deliver msg w) as [[u|e] w1]; [|eauto].
  destruct (confirm k (pub_msg_id msg) w1) as [[u'|e] w2].
  - destruct (SortedList.remove l msg) as [l1|e] eqn:Hr; [|eauto].
    destruct (remove_shape _ _ _ _ Hi Hr) as (j & Hj & Hjl & ->).
    destruct (IH (delete j l) (S i) w2) as [[[[o1 l2] w3] tr1] ->]; [|cbn; eauto].
    rewrite length_delete by (eapply lookup_lt_is_Some_2; lia). lia.
  - destruct (IH l (S i) w2) as [[[[o1 l2] w3] tr1] ->]; [lia|cbn; eauto].
Qed.

Lemma run_delivery_total l w :
  is_Some (DeliveryTask._run_delivery deliver confirm k l w).
Proof. apply loop_total. lia. Qed.

(** A pass only ever takes entries out. *)
Lemma pass_sublist l i w o l' w' tr :
  derivation l i w o l' w' tr -> l' `sublist_of` l.
Proof.
  induction 1 as [ | | l i w msg u e w1 w2 o l' w' tr Hi Hd Hc Hrec IH |
                   | l i w msg u u' w1 w2 l1 o l' w' tr Hi Hd Hc Hr Hrec IH ];
    try reflexivity; [exact IH|].
  destruct (remove_shape _ _ _ _ Hi Hr) as (j & _ & _ & ->).
  etransitivity; [exact IH|apply sublist_delete].
Qed.

(** A failed transport call ends the pass on the spot.  [mid] are the
    entries the iterator stepped over before it reached the failing message
    [m], [rest] the entries behind [m]. *)
Lemma pass_abort l i w o l' w' tr m :
  derivation l i w o l' w' tr -> DeliverFailed m ∈ tr ->
  exists tr0 mid rest pre',
    tr = tr0 ++ [DeliverFailed m] /\ o = DeliveryTask.ReturnedNone /\
    drop i l = mid ++ m :: rest /\ l' = pre' ++ m :: rest /\
    (forall ev x, ev ∈ tr0 -> event_msg ev = Some x -> x ∈ mid).
Proof.
  induction 1 as [ l i w Hi | l i w msg e w1 Hi Hd
                 | l i w msg u e w1 w2 o l' w' tr Hi Hd Hc Hrec IH
                 | l i w msg u u' e w1 w2 Hi Hd Hc Hr
                 | l i w msg u u' w1 w2 l1 o l' w' tr Hi Hd Hc Hr Hrec IH ];
    intros Hin.
  - inversion Hin.
  - apply list_elem_of_singleton in Hin. injection Hin as ->.
    exists [], [], (drop (S i) l), (take i l).
    split; [reflexivity|]. split; [reflexivity|].
    rewrite <- (drop_S _ _ _ Hi). split; [reflexivity|].
    split; [symmetry; apply take_drop|].
    intros ev x He. inversion He.
  - cbn in Hin. rewrite !elem_of_cons in Hin.
    destruct Hin as [Hin|[Hin|Hin]]; try discriminate.
    destruct (IH Hin) as (tr0 & mid & rest & pre' & -> & -> & Hdrop & -> & Hev).
    exists ([Delivered msg; ConfirmFailed msg] ++ tr0), (msg :: mid), rest, pre'.
    split; [reflexivity|]. split; [reflexivity|].
    split; [rewrite (drop_S _ _ _ Hi), Hdrop; reflexivity|].
    split; [reflexivity|].
    intros ev x He Hx. cbn in He. rewrite !elem_of_cons in He.
    destruct He as [->|[->|He]].
    + injection Hx as <-. left.
    + injection Hx as <-. left.
    + right. eauto.
  - cbn in Hin. rewrite !elem_of_cons, elem_of_nil in Hin.
    destruct Hin as [Hin|[Hin|[]]]; discriminate.
  - cbn in Hin. rewrite !elem_of_cons in Hin.
    destruct Hin as [Hin|[Hin|[Hin|Hin]]]; try discriminate.
    destruct (IH Hin) as (tr0 & mid & rest & pre' & -> & -> & Hdrop & -> & Hev).
    destruct (remove_shape _ _ _ _ Hi Hr) as (j & Hj & _ & ->).
    rewrite drop_delete_le in Hdrop by lia.
    destruct (l !! S i) as [s|] eqn:Hs.
    + exists ([Delivered msg; Confirmed msg; Removed msg] ++ tr0),
             (msg :: s :: mid), rest, pre'.
      split; [reflexivity|]. split; [reflexivity|].
      split; [rewrite (drop_S _ _ _ Hi), (drop_S _ _ _ Hs), Hdrop; reflexivity|].
      split; [reflexivity|].
      intros ev x He Hx. cbn in He. rewrite !elem_of_cons in He.
      destruct He as [->|[->|[->|He]]].
      * injection Hx as <-. left.
      * injection Hx as <-. left.
      * injection Hx as <-. left.
      * right. right. eauto.
    + apply lookup_ge_None in Hs.
      rewrite drop_ge in Hdrop by lia.
      destruct mid; discriminate.
Qed.

(** How the outcome shows in the trace. *)
Lemma pass_outcome l i w o l' w' tr :
  derivation l i w o l' w' tr ->
  match o with
  | DeliveryTask.ReturnedTrue => forall m, DeliverFailed m ∉ tr
  | DeliveryTask.ReturnedNone => exists tr0 m, tr = tr0 ++ [DeliverFailed m]
  | DeliveryTask.Raised e => ~ SortedList.sorted l
  end.
Proof.
  induction 1 as [ l i w Hi | l i w msg e w1 Hi Hd
                 | l i w msg u e w1 w2 o l' w' tr Hi Hd Hc Hrec IH
                 | l i w msg u u' e w1 w2 Hi Hd Hc Hr
                 | l i w msg u u' w1 w2 l1 o l' w' tr Hi Hd Hc Hr Hrec IH ].
  - intros m Hin. inversion Hin.
  - exists [], msg. reflexivity.
  - destruct o.
    + intros m Hin. cbn in Hin. rewrite !elem_of_cons in Hin.
      destruct Hin as [Hin|[Hin|Hin]]; try discriminate. eapply IH; eauto.
    + destruct IH as (tr0 & m & ->).
      exists ([Delivered msg; ConfirmFailed msg] ++ tr0), m. reflexivity.
    + exact IH.
  - intros Hl. destruct (remove_sorted l i msg Hl Hi) as [l1 Hl1]. congruence.
  - destruct (remove_shape _ _ _ _ Hi Hr) as (j & _ & _ & ->).
    destruct o.
    + intros m Hin. cbn in Hin. rewrite !elem_of_cons in Hin.
      destruct Hin as [Hin|[Hin|[Hin|Hin]]]; try discriminate. eapply IH; eauto.
    + destruct IH as (tr0 & m & ->).
      exists ([Delivered msg; Confirmed msg; Removed msg] ++ tr0), m. reflexivity.
    + intros Hl. apply IH. apply StronglySorted_delete. exact Hl.
Qed.

(** A confirmation is only ever attempted after a successful delivery of
    the same message, and a removal only after a successful confirmation. *)
Lemma pass_event_order l i w o l' w' tr m :
  derivation l i w o l' w' tr ->
  (Confirmed m ∈ tr -> Delivered m ∈ tr) /\
  (ConfirmFailed m ∈ tr -> Delivered m ∈ tr) /\
  (Removed m ∈ tr -> Confirmed m ∈ tr).
Proof.
  induction 1 as [ l i w Hi | l i w msg e w1 Hi Hd
                 | l i w msg u e w1 w2 o l' w' tr Hi Hd Hc Hrec IH
                 | l i w msg u u' e w1 w2 Hi Hd Hc Hr
                 | l i w msg u u' w1 w2 l1 o l' w' tr Hi Hd Hc Hr Hrec IH ];
    cbn; rewrite ?elem_of_cons, ?elem_of_nil;
    repeat split; intros Hin; rewrite ?elem_of_cons, ?elem_of_nil in *;
    repeat match goal with
    | H : _ \/ _ |- _ => destruct H as [H|H]
    | H : False |- _ => destruct H
    | H : Confirmed _ = _ |- _ => first [discriminate H | injection H as ->]
    | H : ConfirmFailed _ = _ |- _ => first [discriminate H | injection H as ->]
    | H : Removed _ = _ |- _ => first [discriminate H | injection H as ->]
    | H : Delivered _ = _ |- _ => first [discriminate H | injection H as ->]
    end; try tauto; try (destruct IH as (? & ? & ?); tauto).
Qed.

End Pass.

Section PassDistinctKeys.

Context {W : Type}.
Variable deliver : Message -> W -> Result unit * W.
Variable confirm : string -> Val -> W -> Result unit * W.
Variable k : string.

Local Abbreviation derivation := (pass_from deliver confirm k).

Lemma elem_of_delete_inv {A} (l : list A) (i : nat) (x : A) :
  x ∈ l -> x ∉ delete i l -> l !! i = Some x.
Proof.
  revert i. induction l as [|y l IH]; intros i Hin Hout; [inversion Hin|].
  destruct i as [|i]; cbn in *.
  - apply elem_of_cons in Hin as [->|Hin]; [reflexivity|contradiction].
  - apply IH.
    + apply elem_of_cons in Hin as [->|Hin]; [|exact Hin].
      exfalso. apply Hout. left.
    + intros Hx. apply Hout. right. exact Hx.
Qed.

Lemma NoDup_delete_notin {A} (l : list A) (i : nat) (x : A) :
  NoDup l -> l !! i = Some x -> x ∉ delete i l.
Proof.
  intros Hl. revert i. induction Hl as [|y l Hy Hl IH]; intros [|i] Hi;
    try discriminate; cbn in *.
  - injection Hi as ->. exact Hy.
  - intros Hin. apply elem_of_cons in Hin as [->|Hin].
    + apply Hy. eapply list_elem_of_lookup_2; eauto.
    + eapply IH; eauto.
Qed.

(** With pairwise distinct keys the pass never touches what lies before
    the iterator, keeps the keys distinct, and [remove] does not raise. *)
Lemma pass_strict l i w o l' w' tr :
  derivation l i w o l' w' tr -> SortedList.strictly_sorted l ->
  take i l' = take i l /\ SortedList.strictly_sorted l' /\
  (forall e, o <> DeliveryTask.Raised e).
Proof.
  induction 1 as [ l i w Hi | l i w msg e w1 Hi Hd
                 | l i w msg u e w1 w2 o l' w' tr Hi Hd Hc Hrec IH
                 | l i w msg u u' e w1 w2 Hi Hd Hc Hr
                 | l i w msg u u' w1 w2 l1 o l' w' tr Hi Hd Hc Hr Hrec IH ];
    intros Hl.
  - repeat split; [assumption|discriminate].
  - repeat split; [assumption|discriminate].
  - destruct (IH Hl) as (Htake & Hl' & Ho). repeat split; [|assumption..].
    transitivity (take i (take (S i) l')).
    { rewrite take_take. f_equal. lia. }
    rewrite Htake, take_take. f_equal. lia.
  - rewrite (remove_strict l i msg Hl Hi) in Hr. discriminate.
  - rewrite (remove_strict l i msg Hl Hi) in Hr. injection Hr as <-.
    destruct IH as (Htake & Hl' & Ho); [apply StronglySorted_delete, Hl|].
    repeat split; [|assumption..].
    transitivity (take i (take (S i) l')).
    { rewrite take_take. f_equal. lia. }
    rewrite Htake, take_take, Nat.min_l by lia.
    apply take_delete_ge. lia.
Qed.

(** An entry that is gone after the pass was removed by it. *)
Lemma pass_gone_was_removed l i w o l' w' tr m :
  derivation l i w o l' w' tr -> SortedList.strictly_sorted l ->
  m ∈ l -> m ∉ l' -> Removed m ∈ tr.
Proof.
  induction 1 as [ l i w Hi | l i w msg e w1 Hi Hd
                 | l i w msg u e w1 w2 o l' w' tr Hi Hd Hc Hrec IH
                 | l i w msg u u' e w1 w2 Hi Hd Hc Hr
                 | l i w msg u u' w1 w2 l1 o l' w' tr Hi Hd Hc Hr Hrec IH ];
    intros Hl Hin Hout; try contradiction.
  - cbn. rewrite !elem_of_cons. right. right. auto.
  - rewrite (remove_strict l i msg Hl Hi) in Hr. injection Hr as <-.
    cbn. rewrite !elem_of_cons.
    destruct (decide (m ∈ delete i l)) as [Hm|Hm].
    + right. right. right. apply IH; [apply StronglySorted_delete, Hl|..];
        assumption.
    + pose proof (elem_of_delete_inv _ _ _ Hin Hm) as Hi'.
      rewrite Hi in Hi'. injection Hi' as ->. auto.
Qed.

(** A message whose confirmation failed is still queued after the pass. *)
Lemma pass_unconfirmed_stays l i w o l' w' tr m :
  derivation l i w o l' w' tr -> SortedList.strictly_sorted l ->
  ConfirmFailed m ∈ tr -> m ∈ l'.
Proof.
  induction 1 as [ l i w Hi | l i w msg e w1 Hi Hd
                 | l i w msg u e w1 w2 o l' w' tr Hi Hd Hc Hrec IH
                 | l i w msg u u' e w1 w2 Hi Hd Hc Hr
                 | l i w msg u u' w1 w2 l1 o l' w' tr Hi Hd Hc Hr Hrec IH ];
    intros Hl Hin; cbn in Hin; rewrite ?elem_of_cons, ?elem_of_nil in Hin.
  - destruct Hin.
  - destruct Hin as [Hin|[]]. discriminate.
  - destruct Hin as [Hin|[Hin|Hin]]; [discriminate| |auto].
    injection Hin as ->.
    destruct (pass_strict _ _ _ _ _ _ _ Hrec Hl) as (Htake & _ & _).
    assert (msg ∈ take (S i) l') as Hm.
    { rewrite Htake. apply (list_elem_of_lookup_2 _ i).
      rewrite lookup_take_lt by lia. exact Hi. }
    eapply elem_of_sublist; [exact Hm|apply sublist_take].
  - destruct Hin as [Hin|[Hin|[]]]; discriminate.
  - destruct Hin as [Hin|[Hin|[Hin|Hin]]]; try discriminate.
    rewrite (remove_strict l i msg Hl Hi) in Hr. injection Hr as <-.
    apply IH; [apply StronglySorted_delete, Hl|assumption].
Qed.

(** A message whose confirmation succeeded is not queued after the pass. *)
Lemma pass_confirmed_leaves l i w o l' w' tr m :
  derivation l i w o l' w' tr -> SortedList.strictly_sorted l ->
  Confirmed m ∈ tr -> m ∈ l /\ m ∉ l'.
Proof.
  induction 1 as [ l i w Hi | l i w msg e w1 Hi Hd
                 | l i w msg u e w1 w2 o l' w' tr Hi Hd Hc Hrec IH
                 | l i w msg u u' e w1 w2 Hi Hd Hc Hr
                 | l i w msg u u' w1 w2 l1 o l' w' tr Hi Hd Hc Hr Hrec IH ];
    intros Hl Hin; cbn in Hin; rewrite ?elem_of_cons, ?elem_of_nil in Hin.
  - destruct Hin.
  - destruct Hin as [Hin|[]]. discriminate.
  - destruct Hin as [Hin|[Hin|Hin]]; [discriminate..|auto].
  - rewrite (remove_strict l i msg Hl Hi) in Hr. discriminate.
  - rewrite (remove_strict l i msg Hl Hi) in Hr. injection Hr as <-.
    pose proof (pass_sublist _ _ _ _ _ _ _ _ _ _ Hrec) as Hsub.
    destruct Hin as [Hin|[Hin|[Hin|Hin]]]; try discriminate.
    + injection Hin as ->. split; [eapply list_elem_of_lookup_2; eauto|].
      intros Hm. eapply (NoDup_delete_notin l i msg);
        [apply strictly_sorted_NoDup, Hl|exact Hi|].
      eapply elem_of_sublist; eauto.
    + destruct IH as [Hm Hm']; [apply StronglySorted_delete, Hl|assumption|].
      split; [|exact Hm'].
      eapply elem_of_sublist; [exact Hm|apply sublist_delete].
Qed.


(** A pass that neither aborts nor removes anything attempts every entry
    from the iterator on. *)
Lemma pass_all_attempted l i w o l' w' tr :
  derivation l i w o l' w' tr ->
  o = DeliveryTask.ReturnedTrue -> (forall x, Removed x ∉ tr) ->
  forall m, m ∈ drop i l -> Delivered m ∈ tr.
Proof.
  induction 1 as [ l i w Hi | l i w msg e w1 Hi Hd
                 | l i w msg u e w1 w2 o l' w' tr Hi Hd Hc Hrec IH
                 | l i w msg u u' e w1 w2 Hi Hd Hc Hr
                 | l i w msg u u' w1 w2 l1 o l' w' tr Hi Hd Hc Hr Hrec IH ];
    intros Ho Hnr m Hm; try discriminate.
  - apply lookup_ge_None in Hi. rewrite drop_ge in Hm by lia. inversion Hm.
  - rewrite (drop_S _ _ _ Hi) in Hm. cbn. rewrite !elem_of_cons.
    apply elem_of_cons in Hm as [->|Hm]; [auto|].
    right. right. apply IH; [assumption| |assumption].
    intros x Hx. apply (Hnr x). cbn. rewrite !elem_of_cons. auto.
  - exfalso. apply (Hnr msg). cbn. rewrite !elem_of_cons. auto.
Qed.

End PassDistinctKeys.

(** ** One pass over any queue

    What holds whether or not ordering keys repeat in the queue. *)

Section PassAnyKeys.

Context {W : Type}.
Variable deliver : Message -> W -> Result unit * W.
Variable confirm : string -> Val -> W -> Result unit * W.
Variable k : string.

Local Abbreviation derivation := (pass_from deliver confirm k).

(** A queue with entries taken out is still ascending. *)
Lemma sorted_sublist (l l' : list Message) :
  l' `sublist_of` l -> SortedList.sorted l -> SortedList.sorted l'.
Proof.
  intros Hsub Hl. revert l' Hsub.
  induction Hl as [|x l Hl IH Hx]; intros l' Hsub.
  - apply sublist_nil_r in Hsub as ->. constructor.
  - apply sublist_cons_r in Hsub as [Hsub|(l'' & -> & Hsub)];
      [apply IH; exact Hsub|].
    constructor; [apply IH; exact Hsub|].
    apply Forall_forall. intros y Hy. rewrite Forall_forall in Hx.
    apply Hx. eapply elem_of_sublist; eauto.
Qed.

(** [remove] deletes one entry, and that entry compares equal to its
    argument. *)
Lemma remove_equal_key (l l1 : list Message) (m : Message) :
  SortedList.remove l m = Ok l1 ->
  exists j y, l !! j = Some y /\ Msg.eq y m = true /\ l1 = delete j l.
Proof.
  unfold SortedList.remove. intros Hr.
  destruct (l !! SortedList.bisect_left l m) as [y|] eqn:Hy; [|discriminate].
  destruct (Msg.eq y m) eqn:E; [|discriminate].
  injection Hr as <-. eauto.
Qed.

(** Every event of a pass is about a message of the queue. *)
Lemma pass_events_queued l i w o l' w' tr ev x :
  derivation l i w o l' w' tr -> ev ∈ tr -> event_msg ev = Some x -> x ∈ l.
Proof.
  induction 1 as [ l i w Hi | l i w msg e w1 Hi Hd
                 | l i w msg u e w1 w2 o l' w' tr Hi Hd Hc Hrec IH
                 | l i w msg u u' e w1 w2 Hi Hd Hc Hr
                 | l i w msg u u' w1 w2 l1 o l' w' tr Hi Hd Hc Hr Hrec IH ];
    intros Hev Hx.
  - inversion Hev.
  - apply list_elem_of_singleton in Hev. subst ev. injection Hx as <-.
    eapply list_elem_of_lookup_2, Hi.
  - apply elem_of_app in Hev as [Hev|Hev]; [|auto].
    assert (x = msg) as ->.
    { rewrite !elem_of_cons, elem_of_nil in Hev.
      destruct Hev as [->|[->|[]]]; cbn in Hx; congruence. }
    eapply list_elem_of_lookup_2, Hi.
  - assert (x = msg) as ->.
    { rewrite !elem_of_cons, elem_of_nil in Hev.
      destruct Hev as [->|[->|[]]]; cbn in Hx; congruence. }
    eapply list_elem_of_lookup_2, Hi.
  - apply elem_of_app in Hev as [Hev|Hev].
    + assert (x = msg) as ->.
      { rewrite !elem_of_cons, elem_of_nil in Hev.
        destruct Hev as [->|[->|[->|[]]]]; cbn in Hx; congruence. }
      eapply list_elem_of_lookup_2, Hi.
    + destruct (remove_equal_key _ _ _ Hr) as (j & y & _ & _ & ->).
      eapply elem_of_sublist; [|apply sublist_delete]. auto.
Qed.

(** An entry that is gone after the pass was deleted by a [remove] whose
    argument compares equal to it. *)
Lemma pass_gone_equal_key l i w o l' w' tr m :
  derivation l i w o l' w' tr -> m ∈ l -> m ∉ l' ->
  exists m', Removed m' ∈ tr /\ __cmp__ m m' = 0.
Proof.
  induction 1 as [ l i w Hi | l i w msg e w1 Hi Hd
                 | l i w msg u e w1 w2 o l' w' tr Hi Hd Hc Hrec IH
                 | l i w msg u u' e w1 w2 Hi Hd Hc Hr
                 | l i w msg u u' w1 w2 l1 o l' w' tr Hi Hd Hc Hr Hrec IH ];
    intros Hin Hout; try contradiction.
  - destruct (IH Hin Hout) as (m' & Hm' & Heq).
    exists m'. split; [|exact Heq]. apply elem_of_app. right. exact Hm'.
  - destruct (remove_equal_key _ _ _ Hr) as (j & y & Hj & Hy & ->).
    destruct (decide (m ∈ delete j l)) as [Hstill|Hgone].
    + destruct (IH Hstill Hout) as (m' & Hm' & Heq).
      exists m'. split; [|exact Heq]. apply elem_of_app. right. exact Hm'.
    + pose proof (elem_of_delete_inv _ _ _ Hin Hgone) as Hm.
      rewrite Hj in Hm. injection Hm as ->.
      exists msg. split.
      * apply elem_of_app. left. rewrite !elem_of_cons. auto.
      * unfold Msg.eq in Hy. apply Z.eqb_eq in Hy. exact Hy.
Qed.

(** The transport is called at most once per position of the iterator. *)
Lemma pass_attempts l i w o l' w' tr :
  derivation l i w o l' w' tr ->
  (length (attempted_of tr) <= length l - i)%nat.
Proof.
  induction 1 as [ l i w Hi | l i w msg e w1 Hi Hd
                 | l i w msg u e w1 w2 o l' w' tr Hi Hd Hc Hrec IH
                 | l i w msg u u' e w1 w2 Hi Hd Hc Hr
                 | l i w msg u u' w1 w2 l1 o l' w' tr Hi Hd Hc Hr Hrec IH ];
    try (apply lookup_lt_Some in Hi); unfold attempted_of in *; cbn in *;
    try lia.
  destruct (remove_equal_key _ _ _ Hr) as (j & y & Hj & _ & ->).
  rewrite length_delete in IH by eauto. lia.
Qed.


End PassAnyKeys.

(** ** Claims about one pass *)

(** X23.  A pass always runs to its end.  If the transport callback raises
    on a message [m], that is the last thing the pass does: it returns
    without the success indicator, everything it attempted before lies ahead
    of [m] in the queue, no entry behind [m] is attempted, and [m] with
    every entry behind it is still queued afterwards.  This holds for every
    queue, whether or not ordering keys repeat. *)
Theorem transport_failure_aborts_pass {W : Type}
    (deliver : Message -> W -> Result unit * W)
    (confirm : string -> Val -> W -> Result unit * W)
    (k : string) (q : list Message) (w : W) :
  exists o q' w' tr,
    DeliveryTask._run_delivery deliver confirm k q w = Some (o, q', w', tr) /\
    (forall m, DeliverFailed m ∈ tr ->
       exists tr0 pre rest pre',
         tr = tr0 ++ [DeliverFailed m] /\ o = DeliveryTask.ReturnedNone /\
         q = pre ++ m :: rest /\ q' = pre' ++ m :: rest /\
         (forall ev x, ev ∈ tr0 -> event_msg ev = Some x -> x ∈ pre)).
Proof.
  destruct (run_delivery_total deliver confirm k q w)
    as [[[[o q'] w'] tr] Hrun].
  exists o, q', w', tr. split; [exact Hrun|].
  apply loop_derivation in Hrun.
  intros m Hm.
  destruct (pass_abort _ _ _ _ _ _ _ _ _ _ _ Hrun Hm)
    as (tr0 & mid & rest & pre' & ? & ? & Hdrop & ? & ?).
  exists tr0, mid, rest, pre'. rewrite drop_0 in Hdrop. auto.
Qed.

(** The head-of-line scenario: A (priority 9) and B (priority 5) are
    queued and the transport fails on A. *)
Lemma transport_failure_aborts_pass_witness :
  exists q' tr pre',
    PubSubTool.task_pass "k" [Stub.msg "A" 9 100 1; Stub.msg "B" 5 50 2]
      (Stub.world [false] []) =
      Some (DeliveryTask.ReturnedNone, q', Stub.world [] [], tr) /\
    q' = pre' ++ [Stub.msg "A" 9 100 1; Stub.msg "B" 5 50 2].
Proof.
  destruct (transport_failure_aborts_pass Stub.deliver Stub.confirm "k"
              [Stub.msg "A" 9 100 1; Stub.msg "B" 5 50 2]
              (Stub.world [false] []))
    as (o & q' & w' & tr & Hrun & Habort).
  pose proof Hrun as Heval. vm_compute in Heval.
  injection Heval as <- <- <- <-.
  destruct (Habort (Stub.msg "A" 9 100 1))
    as (tr0 & pre & rest & pre' & _ & _ & Hq & Hq' & _).
  { apply list_elem_of_singleton. reflexivity. }
  exists [Stub.msg "A" 9 100 1; Stub.msg "B" 5 50 2],
         [DeliverFailed (Stub.msg "A" 9 100 1)], [].
  split; reflexivity.
Defined.

(** C1.  The head-of-line scenario of the claim, evaluated.  A (priority
    9) and B (priority 5) are queued.  In the first pass the transport
    fails on A: the pass ends there, B is not attempted and both stay
    queued, as the claim says.  In the next pass the transport and the
    confirmation succeed for every message: A is delivered, confirmed and
    removed, but the pass does not proceed to B.  The removal has moved B
    to the position the iterator has already left, so the pass ends without
    attempting B, leaves B queued and still returns the success indicator.
    B is delivered only by the pass after that. *)
Theorem head_of_line_recovery_skips_successor :
  let A := Stub.msg "A" 9 100 1 in
  let B := Stub.msg "B" 5 50 2 in
  let recovery := [Delivered A; Confirmed A; Removed A] in
  PubSubTool.task_pass "k" [A; B] (Stub.world [false] []) =
    Some (DeliveryTask.ReturnedNone, [A; B], Stub.world [] [],
          [DeliverFailed A]) /\
  PubSubTool.task_pass "k" [A; B] (Stub.world [] []) =
    Some (DeliveryTask.ReturnedTrue, [B], Stub.world [] [], recovery) /\
  (Delivered B ∉ recovery) /\ (DeliverFailed B ∉ recovery) /\
  PubSubTool.task_pass "k" [B] (Stub.world [] []) =
    Some (DeliveryTask.ReturnedTrue, [], Stub.world [] [],
          [Delivered B; Confirmed B; Removed B]).
Proof.
  intros A B recovery.
  split; [vm_compute; reflexivity|].
  split; [vm_compute; reflexivity|].
  split; [|split; [|vm_compute; reflexivity]];
    intros Hin; subst recovery;
    rewrite !elem_of_cons, elem_of_nil in Hin;
    destruct Hin as [Hin|[Hin|[Hin|[]]]]; discriminate Hin.
Qed.

(** A confirmation failure in the pass after the transport failure: A is
    delivered but not confirmed and stays queued, and the pass goes on to
    B. *)
Example delivered_unconfirmed_not_removed :
  let A := Stub.msg "A" 9 100 1 in
  let B := Stub.msg "B" 5 50 2 in
  PubSubTool.task_pass "k" [A; B] (Stub.world [false; true; true] [false]) =
    Some (DeliveryTask.ReturnedNone, [A; B], Stub.world [true; true] [false],
          [DeliverFailed A]) /\
  PubSubTool.task_pass "k" [A; B] (Stub.world [true; true] [false]) =
    Some (DeliveryTask.ReturnedTrue, [A], Stub.world [] [],
          [Delivered A; ConfirmFailed A; Delivered B; Confirmed B; Removed B]) /\
  A ∈ [A].
Proof.
  split; [vm_compute; reflexivity|].
  split; [vm_compute; reflexivity|].
  apply list_elem_of_singleton. reflexivity.
Qed.

(** What the iterator does after a removal: with A and B queued and every
    call succeeding, the pass removes A, never reaches B and still returns
    the success indicator; B is delivered by the pass after that. *)
Example removal_steps_over_successor :
  let A := Stub.msg "A" 9 100 1 in
  let B := Stub.msg "B" 5 50 2 in
  PubSubTool.task_pass "k" [A; B] (Stub.world [] []) =
    Some (DeliveryTask.ReturnedTrue, [B], Stub.world [] [],
          [Delivered A; Confirmed A; Removed A]) /\
  PubSubTool.task_pass "k" [B] (Stub.world [] []) =
    Some (DeliveryTask.ReturnedTrue, [], Stub.world [] [],
          [Delivered B; Confirmed B; Removed B]).
Proof. split; vm_compute; reflexivity. Qed.




(** What [remove] does among entries that compare equal: A and B carry the
    same ordering key, the confirmation of A fails and that of B succeeds;
    the call [remove(B)] deletes A, the first entry equal to B. *)
Example removal_among_equal_keys :
  let A := Stub.msg "A" 5 10 1 in
  let B := Stub.msg "B" 5 10 1 in
  PubSubTool.task_pass "k" [A; B] (Stub.world [] [false; true]) =
    Some (DeliveryTask.ReturnedTrue, [B], Stub.world [] [],
          [Delivered A; ConfirmFailed A; Delivered B; Confirmed B; Removed B]).
Proof. vm_compute; reflexivity. Qed.

(** ** The task loop *)

Section Loop.

Context {W : Type} `{Collaborators W}.
Variable deliver : Message -> W -> Result unit * W.
Variable confirm : string -> Val -> W -> Result unit * W.

Lemma randint_draw (a b : Z) (w w' : W) (d : Z) :
  random_next w = (d, w') -> randint a b w = (a + d mod (b - a + 1), w').
Proof. intros Hd. unfold randint. rewrite Hd. reflexivity. Qed.

Lemma randint_range (a b : Z) (w : W) :
  a <= b -> a <= (randint a b w).1 <= b.
Proof.
  intros Hab. unfold randint. destruct (random_next w) as [d w']. cbn.
  pose proof (Z.mod_pos_bound d (b - a + 1)). lia.
Qed.

(** A pass logs nothing but what it did to messages; it never sleeps. *)
Lemma pass_never_sleeps k l i w o l' w' tr t :
  pass_from deliver confirm k l i w o l' w' tr -> Slept t ∉ tr.
Proof.
  induction 1; cbn; rewrite ?elem_of_cons, ?elem_of_nil; intros Hin;
    repeat match goal with
    | H : _ \/ _ |- _ => destruct H as [H|H]
    | H : Slept _ = _ |- _ => discriminate H
    | H : False |- _ => destruct H
    end; auto.
Qed.

(** The three ways one iteration of a running task can go. *)
Lemma run_iteration_idle nst tid h w :
  DeliveryTask.keep_running (task_at h tid) = true ->
  list_at h (DeliveryTask.delivery_list (task_at h tid)) = [] ->
  TaskLoop.run_iteration deliver confirm nst tid h w =
    Some (true, h, w, [Slept nst]).
Proof.
  intros Hk Hq. unfold TaskLoop.run_iteration. rewrite Hk, Hq. reflexivity.
Qed.

Lemma run_iteration_pass nst tid h w o q' w' tr :
  DeliveryTask.keep_running (task_at h tid) = true ->
  list_at h (DeliveryTask.delivery_list (task_at h tid)) <> [] ->
  DeliveryTask._run_delivery deliver confirm
    (DeliveryTask.sub_key (task_at h tid))
    (list_at h (DeliveryTask.delivery_list (task_at h tid))) w =
    Some (o, q', w', tr) ->
  TaskLoop.run_iteration deliver confirm nst tid h w =
    match o with
    | DeliveryTask.ReturnedTrue =>
      Some (true, set_list (DeliveryTask.delivery_list (task_at h tid)) q' h,
            w', tr ++ [Slept nst])
    | DeliveryTask.ReturnedNone =>
      Some (true, set_list (DeliveryTask.delivery_list (task_at h tid)) q' h,
            (randint 10 20 w').2, tr ++ [Slept (randint 10 20 w').1])
    | DeliveryTask.Raised e =>
      Some (false, set_list (DeliveryTask.delivery_list (task_at h tid)) q' h,
            w', tr ++ [Warned e])
    end.
Proof.
  intros Hk Hq Hrun. unfold TaskLoop.run_iteration. rewrite Hk. cbn [negb].
  destruct (list_at h (DeliveryTask.delivery_list (task_at h tid)))
    as [|x q] eqn:Hl; [contradiction|].
  rewrite Hrun. destruct o; try reflexivity.
  destruct (randint 10 20 w') as [t w'']. reflexivity.
Qed.

End Loop.

(** C4.  One iteration of the loop of a running task, with the default
    idle interval of 1: if the queue is empty it sleeps exactly 1; if the
    pass returns the success indicator it sleeps exactly 1 after the pass;
    if the pass aborted on a transport failure it sleeps [randint(10, 20)],
    a value between 10 and 20 inclusive which is 10 plus the draw reduced
    modulo 11, so that each of the eleven values is produced by exactly one
    residue of the draw.  The pass itself never sleeps. *)
Theorem sleep_after_each_iteration {W : Type} `{Collaborators W}
    (deliver : Message -> W -> Result unit * W)
    (confirm : string -> Val -> W -> Result unit * W)
    (tid : nat) (h : Heap) (w : W) :
  DeliveryTask.keep_running (task_at h tid) = true ->
  let self := task_at h tid in
  let loc := DeliveryTask.delivery_list self in
  (list_at h loc = [] ->
   TaskLoop.run_iteration deliver confirm 1 tid h w =
     Some (true, h, w, [Slept 1])) /\
  (list_at h loc <> [] ->
   exists o q' w' tr,
     DeliveryTask._run_delivery deliver confirm (DeliveryTask.sub_key self)
       (list_at h loc) w = Some (o, q', w', tr) /\
     (forall t, Slept t ∉ tr) /\
     (o = DeliveryTask.ReturnedTrue ->
      TaskLoop.run_iteration deliver confirm 1 tid h w =
        Some (true, set_list loc q' h, w', tr ++ [Slept 1])) /\
     (o = DeliveryTask.ReturnedNone ->
      exists t w'',
        randint 10 20 w' = (t, w'') /\ 10 <= t <= 20 /\
        (forall d, (random_next w').1 = d -> t = 10 + d mod 11) /\
        TaskLoop.run_iteration deliver confirm 1 tid h w =
          Some (true, set_list loc q' h, w'', tr ++ [Slept t]))) /\
  (forall (v : Z) (w0 w1 : W),
     10 <= v <= 20 -> random_next w0 = (v - 10, w1) ->
     randint 10 20 w0 = (v, w1)).
Proof.
  intros Hk self loc. split; [|split].
  - intros Hq. apply run_iteration_idle; assumption.
  - intros Hq.
    destruct (run_delivery_total deliver confirm (DeliveryTask.sub_key self)
                (list_at h loc) w) as [[[[o q'] w'] tr] Hrun].
    exists o, q', w', tr. split; [exact Hrun|].
    pose proof (run_iteration_pass deliver confirm 1 tid h w o q' w' tr
                  Hk Hq Hrun) as Hit.
    split; [|split].
    + intros t. eapply pass_never_sleeps. eapply loop_derivation. exact Hrun.
    + intros ->. exact Hit.
    + intros ->. exists (randint 10 20 w').1, (randint 10 20 w').2.
      split; [destruct (randint 10 20 w'); reflexivity|].
      split; [apply randint_range; lia|].
      split; [|exact Hit].
      intros d Hd. unfold randint.
      destruct (random_next w') as [d' w'']. cbn in *. subst d'. reflexivity.
  - intros v w0 w1 Hv Hd. rewrite (randint_draw 10 20 w0 w1 (v - 10) Hd).
    f_equal. rewrite Z.mod_small by lia. lia.
Qed.

(** A task whose queue holds A; the transport fails and the generator
    draws 7: the task sleeps 17. *)
Lemma sleep_after_each_iteration_witness :
  let A := Stub.msg "A" 9 100 1 in
  let task := {| DeliveryTask.keep_running := true;
                 DeliveryTask.sub_key := "k";
                 DeliveryTask.delivery_lock := 0%nat;
                 DeliveryTask.delivery_list := 0%nat |} in
  let h := {| lists := [[A]]; tasks := [task]; locks := 1%nat |} in
  let w := {| Stub.deliver_plan := [false]; Stub.confirm_plan := [];
              Stub.rows := []; Stub.draw := 7 |} in
  exists w'',
    TaskLoop.run_iteration Stub.deliver Stub.confirm 1 0%nat h w =
      Some (true, h, w'', [DeliverFailed A; Slept 17]).
Proof.
  intros A task h w.
  destruct (sleep_after_each_iteration Stub.deliver Stub.confirm 0%nat h w
              eq_refl) as (_ & Hpass & _).
  destruct Hpass as (o & q' & w' & tr & Hrun & _ & _ & Hback);
    [discriminate|].
  pose proof Hrun as Heval. vm_compute in Heval.
  injection Heval as <- <- <- <-.
  destruct (Hback eq_refl) as (t & w'' & Hrand & _ & _ & Hit).
  vm_compute in Hrand. injection Hrand as <- <-.
  eexists. exact Hit.
Defined.

(** C10.  For a running task with a non-empty ascending queue: the pass
    returns the success indicator exactly when no transport call failed in
    it, whatever the confirmation calls did, and the task then sleeps 1; it
    returns without it exactly when a transport call failed, and only then
    does the task sleep the randomized backoff between 10 and 20. *)
Theorem only_transport_failure_backs_off {W : Type} `{Collaborators W}
    (deliver : Message -> W -> Result unit * W)
    (confirm : string -> Val -> W -> Result unit * W)
    (tid : nat) (h : Heap) (w : W) :
  DeliveryTask.keep_running (task_at h tid) = true ->
  list_at h (DeliveryTask.delivery_list (task_at h tid)) <> [] ->
  SortedList.sorted (list_at h (DeliveryTask.delivery_list (task_at h tid))) ->
  exists o q' w' tr h' w'' t,
    DeliveryTask._run_delivery deliver confirm
      (DeliveryTask.sub_key (task_at h tid))
      (list_at h (DeliveryTask.delivery_list (task_at h tid))) w =
      Some (o, q', w', tr) /\
    TaskLoop.run_iteration deliver confirm 1 tid h w =
      Some (true, h', w'', tr ++ [Slept t]) /\
    (o = DeliveryTask.ReturnedTrue <-> forall m, DeliverFailed m ∉ tr) /\
    (o = DeliveryTask.ReturnedNone <-> exists m, DeliverFailed m ∈ tr) /\
    (o = DeliveryTask.ReturnedTrue -> t = 1 /\ w'' = w') /\
    (o = DeliveryTask.ReturnedNone ->
     randint 10 20 w' = (t, w'') /\ 10 <= t <= 20).
Proof.
  intros Hk Hq Hs.
  destruct (run_delivery_total deliver confirm
              (DeliveryTask.sub_key (task_at h tid))
              (list_at h (DeliveryTask.delivery_list (task_at h tid))) w)
    as [[[[o q'] w'] tr] Hrun].
  pose proof (run_iteration_pass deliver confirm 1 tid h w o q' w' tr
                Hk Hq Hrun) as Hit.
  pose proof (pass_outcome _ _ _ _ _ _ _ _ _ _ (loop_derivation _ _ _ _ _ _ _ _ _ _ _ Hrun))
    as Hout.
  destruct o as [| |e].
  - exists DeliveryTask.ReturnedTrue, q', w', tr,
      (set_list (DeliveryTask.delivery_list (task_at h tid)) q' h), w', 1.
    split; [exact Hrun|]. split; [exact Hit|].
    split; [tauto|]. split; [|split; [auto|discriminate]].
    split; [discriminate|]. intros [m Hm]. exfalso. eapply Hout; eauto.
  - exists DeliveryTask.ReturnedNone, q', w', tr,
      (set_list (DeliveryTask.delivery_list (task_at h tid)) q' h),
      (randint 10 20 w').2, (randint 10 20 w').1.
    split; [exact Hrun|]. split; [exact Hit|].
    destruct Hout as (tr0 & m & ->).
    assert (DeliverFailed m ∈ tr0 ++ [DeliverFailed m]) as Hm.
    { apply elem_of_app. right. apply list_elem_of_singleton. reflexivity. }
    split; [|split; [|split; [discriminate|]]].
    + split; [discriminate|]. intros Hno. exfalso. eapply Hno; eauto.
    + split; eauto.
    + intros _. split; [destruct (randint 10 20 w'); reflexivity|].
      apply randint_range. lia.
  - contradiction.
Qed.

(** Two messages are delivered, both confirmations fail: the pass still
    returns the success indicator and the task sleeps 1. *)
Lemma only_transport_failure_backs_off_witness :
  let A := Stub.msg "A" 9 100 1 in
  let B := Stub.msg "B" 5 50 2 in
  let task := {| DeliveryTask.keep_running := true;
                 DeliveryTask.sub_key := "k";
                 DeliveryTask.delivery_lock := 0%nat;
                 DeliveryTask.delivery_list := 0%nat |} in
  let h := {| lists := [[A; B]]; tasks := [task]; locks := 1%nat |} in
  exists h' w'',
    TaskLoop.run_iteration Stub.deliver Stub.confirm 1 0%nat h
      (Stub.world [] [false; false]) =
      Some (true, h', w'',
            [Delivered A; ConfirmFailed A; Delivered B; ConfirmFailed B] ++
            [Slept 1]).
Proof.
  intros A B task h.
  assert (SortedList.sorted [A; B]) as Hs.
  { repeat constructor. vm_compute. discriminate. }
  destruct (only_transport_failure_backs_off Stub.deliver Stub.confirm
              0%nat h (Stub.world [] [false; false]) eq_refl)
    as (o & q' & w' & tr & h' & w'' & t & Hrun & Hit & _ & _ & Hidle & _);
    [discriminate|exact Hs|].
  pose proof Hrun as Heval. vm_compute in Heval.
  injection Heval as <- <- <- <-.
  destruct (Hidle eq_refl) as [-> ->].
  exists h', (Stub.world [] []). exact Hit.
Defined.

(** ** The registry *)

Section Registry.

Context {W : Type} `{Collaborators W}.

Import PubSubTool.

Lemma add_sub_key_seen (k : string) (s : Sys W) :
  k ∈ sub_keys (self s) -> add_sub_key_no_lock k s = (Ok tt, s).
Proof.
  intros Hk. unfold add_sub_key_no_lock.
  destruct (decide (k ∈ sub_keys (self s))); [reflexivity|contradiction].
Qed.

(** The state a first registration leaves behind, field by field. *)
Lemma add_sub_key_fresh (k : string) (s : Sys W) :
  k ∉ sub_keys (self s) ->
  add_sub_key_no_lock k s =
  (Ok tt,
   {| self :=
        {| sub_key_locks := <[k := locks (heap s)]> (sub_key_locks (self s));
           batch_size := <[k := 1]> (batch_size (self s));
           sub_keys := sub_keys (self s) ++ [k];
           delivery_lists :=
             <[k := length (lists (heap s))]> (delivery_lists (self s));
           delivery_tasks :=
             <[k := length (tasks (heap s))]> (delivery_tasks (self s));
           last_sql_run := <[k := None]> (last_sql_run (self s)) |};
      heap :=
        {| lists := lists (heap s) ++ [[]];
           tasks := tasks (heap s) ++
             [{| DeliveryTask.keep_running := true;
                 DeliveryTask.sub_key := k;
                 DeliveryTask.delivery_lock := locks (heap s);
                 DeliveryTask.delivery_list := length (lists (heap s)) |}];
           locks := S (locks (heap s)) |};
      world := world s;
      trace := trace s ++ [Spawned (length (tasks (heap s)))] |}).
Proof.
  intros Hk. unfold add_sub_key_no_lock.
  destruct (decide (k ∈ sub_keys (self s))); [contradiction|reflexivity].
Qed.

Lemma filter_eq_absent (k : string) (l : list string) :
  k ∉ l -> filter (fun x => x = k) l = [].
Proof.
  induction l as [|x l IH]; intros Hk; [reflexivity|].
  rewrite filter_cons. destruct (decide (x = k)) as [->|Hx].
  - exfalso. apply Hk. left.
  - apply IH. intros Hin. apply Hk. right. exact Hin.
Qed.

End Registry.

(** C6.  Registering a key that is not yet known creates its entry: the key
    occurs once in [sub_keys], its batch size is 1, its last-run marker is
    Python's [None], it has a lock, an empty list and a running task bound
    to that lock and that list, and exactly one task object was created and
    spawned.  Registering any key a second time changes nothing at all. *)
Theorem add_sub_key_idempotent {W : Type} `{Collaborators W}
    (k : string) (s : PubSubTool.Sys W) :
  k ∉ PubSubTool.sub_keys (PubSubTool.self s) ->
  exists s1 lock loc tid,
    PubSubTool.add_sub_key k s = (Ok tt, s1) /\
    PubSubTool.add_sub_key k s1 = (Ok tt, s1) /\
    length (filter (fun x => x = k) (PubSubTool.sub_keys (PubSubTool.self s1)))
      = 1%nat /\
    PubSubTool.batch_size (PubSubTool.self s1) !! k = Some 1 /\
    PubSubTool.last_sql_run (PubSubTool.self s1) !! k = Some None /\
    PubSubTool.sub_key_locks (PubSubTool.self s1) !! k = Some lock /\
    PubSubTool.delivery_lists (PubSubTool.self s1) !! k = Some loc /\
    PubSubTool.delivery_tasks (PubSubTool.self s1) !! k = Some tid /\
    lists (PubSubTool.heap s1) !! loc = Some [] /\
    tasks (PubSubTool.heap s1) !! tid =
      Some {| DeliveryTask.keep_running := true; DeliveryTask.sub_key := k;
              DeliveryTask.delivery_lock := lock;
              DeliveryTask.delivery_list := loc |} /\
    length (tasks (PubSubTool.heap s1)) =
      S (length (tasks (PubSubTool.heap s))) /\
    PubSubTool.trace s1 = PubSubTool.trace s ++ [Spawned tid] /\
    (forall (k0 : string) (s0 : PubSubTool.Sys W),
       PubSubTool.add_sub_key k0 (PubSubTool.add_sub_key k0 s0).2 =
       (Ok tt, (PubSubTool.add_sub_key k0 s0).2)).
Proof.
  intros Hk. unfold PubSubTool.add_sub_key.
  rewrite (add_sub_key_fresh k s Hk).
  eexists _, (locks (PubSubTool.heap s)),
    (length (lists (PubSubTool.heap s))), (length (tasks (PubSubTool.heap s))).
  split; [reflexivity|]. cbn.
  split; [apply add_sub_key_seen; cbn; set_solver|].
  split.
  { rewrite filter_app, (filter_eq_absent k _ Hk), app_nil_l.
    rewrite filter_cons_True by reflexivity. reflexivity. }
  rewrite !lookup_insert_eq.
  repeat (split; [reflexivity|]).
  split; [apply list_lookup_middle; reflexivity|].
  split; [apply list_lookup_middle; reflexivity|].
  split; [rewrite length_app; cbn; lia|].
  split; [reflexivity|].
  intros k0 s0.
  destruct (decide (k0 ∈ PubSubTool.sub_keys (PubSubTool.self s0))) as [Hin|Hout].
  - rewrite (add_sub_key_seen k0 s0 Hin). cbn. apply add_sub_key_seen, Hin.
  - rewrite (add_sub_key_fresh k0 s0 Hout). cbn.
    apply add_sub_key_seen. cbn. set_solver.
Qed.

(** Two registrations of ["k"] on a fresh tool. *)
Lemma add_sub_key_idempotent_witness :
  exists s1,
    PubSubTool.add_sub_key "k" (PubSubTool.initial (Stub.world [] [])) =
      (Ok tt, s1) /\
    PubSubTool.add_sub_key "k" s1 = (Ok tt, s1) /\
    PubSubTool.sub_keys (PubSubTool.self s1) = ["k"%string] /\
    length (tasks (PubSubTool.heap s1)) = 1%nat.
Proof.
  destruct (add_sub_key_idempotent "k" (PubSubTool.initial (Stub.world [] [])))
    as (s1 & lock & loc & tid & Hadd & Hagain & _ & _ & _ & _ & _ & _ & _ & _ &
        Hlen & _).
  { cbn. apply not_elem_of_nil. }
  exists s1. split; [exact Hadd|]. split; [exact Hagain|].
  split; [|exact Hlen].
  unfold PubSubTool.add_sub_key in Hadd.
  rewrite add_sub_key_fresh in Hadd by (cbn; apply not_elem_of_nil).
  injection Hadd as <-. reflexivity.
Defined.

Section RegistryInvariant.

Context {W : Type} `{Collaborators W}.

Import PubSubTool.

Lemma initial_consistent (w : W) : consistent (initial w).
Proof.
  split; cbn; intros;
    rewrite ?lookup_empty, ?elem_of_nil in *;
    try (split; [intros []|intros [? [=]]]); try discriminate.
  constructor.
Qed.

Lemma insert_dom_iff {V} (d : gmap string V) (l : list string) (k k' : string)
    (v : V) :
  (k' ∈ l <-> is_Some (d !! k')) ->
  (k' ∈ l ++ [k] <-> is_Some (<[k := v]> d !! k')).
Proof.
  intros Hd. rewrite elem_of_app, list_elem_of_singleton, Hd.
  rewrite lookup_insert_is_Some. destruct (decide (k = k')) as [->|Hne].
  - tauto.
  - assert (k' <> k) by congruence. tauto.
Qed.

(** Registration keeps the registry consistent. *)
Lemma add_sub_key_consistent (k : string) (s : Sys W) :
  consistent s -> consistent (add_sub_key_no_lock k s).2.
Proof.
  intros Hs. destruct (decide (k ∈ sub_keys (self s))) as [Hin|Hout].
  { rewrite add_sub_key_seen by assumption. exact Hs. }
  rewrite add_sub_key_fresh by assumption. destruct Hs. split; cbn.
  - apply NoDup_app. split; [assumption|]. split; [|apply NoDup_singleton].
    intros x Hx Hx'. apply list_elem_of_singleton in Hx'. subst. contradiction.
  - intros k'. apply insert_dom_iff. auto.
  - intros k'. apply insert_dom_iff. auto.
  - intros k'. apply insert_dom_iff. auto.
  - intros k'. apply insert_dom_iff. auto.
  - intros k'. apply insert_dom_iff. auto.
  - intros k' v Hv. apply lookup_insert_Some in Hv as [[_ <-]|[_ Hv]]; eauto.
  - intros k' loc Hloc. rewrite length_app. cbn.
    apply lookup_insert_Some in Hloc as [[_ <-]|[_ Hloc]]; [lia|].
    specialize (cons_lists_alloc0 _ _ Hloc). lia.
  - intros k1 k2 loc H1 H2.
    apply lookup_insert_Some in H1 as [[? <-]|[? H1]];
      apply lookup_insert_Some in H2 as [[? H2]|[? H2]]; try congruence.
    + specialize (cons_lists_alloc0 _ _ H2). lia.
    + specialize (cons_lists_alloc0 _ _ H1). lia.
    + eauto.
  - intros k' tid Htid. rewrite length_app. cbn.
    apply lookup_insert_Some in Htid as [[_ <-]|[_ Htid]]; [lia|].
    specialize (cons_tasks_alloc0 _ _ Htid). lia.
Qed.

Lemma list_remove_Some (k : string) (l : list string) :
  k ∈ l -> exists l', list_remove k l = Some l'.
Proof.
  induction l as [|x l IH]; intros Hk; [inversion Hk|].
  cbn. destruct (decide (k = x)); [eauto|].
  apply elem_of_cons in Hk as [?|Hk]; [contradiction|].
  destruct (IH Hk) as [l' ->]. eauto.
Qed.

Lemma list_remove_None (k : string) (l : list string) :
  k ∉ l -> list_remove k l = None.
Proof.
  induction l as [|x l IH]; intros Hk; [reflexivity|].
  cbn. destruct (decide (k = x)) as [->|Hx].
  - exfalso. apply Hk. left.
  - rewrite IH; [reflexivity|]. intros Hin. apply Hk. right. exact Hin.
Qed.

Lemma list_remove_NoDup (k : string) (l l' : list string) :
  NoDup l -> list_remove k l = Some l' ->
  NoDup l' /\ forall x, x ∈ l' <-> x ∈ l /\ x <> k.
Proof.
  intros Hl. revert l'. induction Hl as [|x l Hx Hl IH]; intros l' Hr;
    [discriminate|].
  cbn in Hr. destruct (decide (k = x)) as [->|Hkx].
  - injection Hr as <-. split; [exact Hl|].
    intros y. rewrite elem_of_cons. split.
    + intros Hy. split; [auto|]. intros ->. contradiction.
    + intros [[?|?] ?]; [contradiction|assumption].
  - destruct (list_remove k l) as [r|] eqn:Er; [|discriminate].
    injection Hr as <-. destruct (IH r eq_refl) as [Hr Hiff].
    split.
    + constructor; [|exact Hr]. rewrite Hiff. tauto.
    + intros y. rewrite !elem_of_cons, Hiff. split.
      * intros [->|[? ?]]; split; auto.
      * intros [[?|?] ?]; auto.
Qed.

(** Removal never lets an exception out. *)
Lemma remove_sub_key_returns (k : string) (s : Sys W) :
  (remove_sub_key k s).1 = Ok tt.
Proof.
  unfold remove_sub_key, try_except.
  match goal with |- context [match ?b with _ => _ end] => destruct b as [[[]|e] s'] end;
    reflexivity.
Qed.

(** Removal of a registered key from a consistent registry, field by field. *)
Lemma remove_sub_key_registered (k : string) (s : Sys W) :
  consistent s -> k ∈ sub_keys (self s) ->
  exists tid l',
    delivery_tasks (self s) !! k = Some tid /\
    list_remove k (sub_keys (self s)) = Some l' /\
    remove_sub_key k s =
    (Ok tt,
     {| self :=
          {| sub_key_locks := delete k (sub_key_locks (self s));
             batch_size := delete k (batch_size (self s));
             sub_keys := l';
             delivery_lists := delete k (delivery_lists (self s));
             delivery_tasks := delete k (delivery_tasks (self s));
             last_sql_run := delete k (last_sql_run (self s)) |};
        heap := stop_task tid (heap s);
        world := world s;
        trace := trace s ++
                 [Info (DeliveryTask.sub_key (task_at (heap s) tid))] |}).
Proof.
  intros Hs Hk.
  destruct (proj1 (cons_batch_size s Hs k) Hk) as [b Hb].
  destruct (proj1 (cons_last_sql_run s Hs k) Hk) as [m Hm].
  destruct (proj1 (cons_sub_key_locks s Hs k) Hk) as [lk Hlk].
  destruct (proj1 (cons_delivery_lists s Hs k) Hk) as [loc Hloc].
  destruct (proj1 (cons_delivery_tasks s Hs k) Hk) as [tid Htid].
  destruct (list_remove_Some k _ Hk) as [l' Hl'].
  exists tid, l'. split; [exact Htid|]. split; [exact Hl'|].
  unfold remove_sub_key, try_except, bind, sub_keys_remove, delitem, bind,
    getitem, with_self, stop.
  rewrite Hl'. cbn. rewrite Hb. cbn. rewrite Hm. cbn. rewrite Hlk. cbn.
  rewrite Hloc. cbn. rewrite Htid. cbn. rewrite Htid. reflexivity.
Qed.

Lemma delete_dom_iff {V} (d : gmap string V) (l l' : list string)
    (k k' : string) :
  (forall x, x ∈ l' <-> x ∈ l /\ x <> k) ->
  (k' ∈ l <-> is_Some (d !! k')) ->
  (k' ∈ l' <-> is_Some (delete k d !! k')).
Proof.
  intros Hl' Hd. rewrite Hl', Hd. split.
  - intros [[v Hv] Hne]. exists v. apply lookup_delete_Some. auto.
  - intros [v Hv]. apply lookup_delete_Some in Hv as [Hne Hv]. eauto.
Qed.

Lemma length_stop_task tid h : length (tasks (stop_task tid h)) = length (tasks h).
Proof. cbn. apply length_alter. Qed.

Lemma remove_sub_key_consistent (k : string) (s : Sys W) :
  consistent s -> k ∈ sub_keys (self s) -> consistent (remove_sub_key k s).2.
Proof.
  intros Hs Hk.
  destruct (remove_sub_key_registered k s Hs Hk) as (tid & l' & Htid & Hl' & ->).
  destruct (list_remove_NoDup k _ _ (cons_nodup s Hs) Hl') as [Hnd Hiff].
  destruct Hs. split; cbn.
  - exact Hnd.
  - intros k'. eapply delete_dom_iff; eauto.
  - intros k'. eapply delete_dom_iff; eauto.
  - intros k'. eapply delete_dom_iff; eauto.
  - intros k'. eapply delete_dom_iff; eauto.
  - intros k'. eapply delete_dom_iff; eauto.
  - intros k' v Hv. apply lookup_delete_Some in Hv as [_ Hv]. eauto.
  - intros k' loc Hloc. apply lookup_delete_Some in Hloc as [_ Hloc]. eauto.
  - intros k1 k2 loc H1 H2.
    apply lookup_delete_Some in H1 as [_ H1].
    apply lookup_delete_Some in H2 as [_ H2]. eauto.
  - intros k' tid' Ht. apply lookup_delete_Some in Ht as [_ Ht].
    rewrite length_alter. eauto.
Qed.

End RegistryInvariant.

Section Teardown.

Context {W : Type} `{Collaborators W}.

Import PubSubTool.

Lemma stop_task_stops (tid : nat) (h : Heap) :
  DeliveryTask.keep_running (task_at (stop_task tid h) tid) = false.
Proof.
  unfold task_at, stop_task. cbn. rewrite list_lookup_alter_eq.
  destruct (tasks h !! tid); cbn; reflexivity.
Qed.

Lemma stop_task_keeps_stopped (tid tid' : nat) (h : Heap) :
  DeliveryTask.keep_running (task_at h tid') = false ->
  DeliveryTask.keep_running (task_at (stop_task tid h) tid') = false.
Proof.
  intros Hs. destruct (decide (tid = tid')) as [->|Hne].
  - apply stop_task_stops.
  - unfold task_at, stop_task in *. cbn.
    rewrite list_lookup_alter_ne by assumption. exact Hs.
Qed.

(** Removal of an unknown key: the failure is logged, nothing else changes. *)
Lemma remove_sub_key_unknown (k : string) (s : Sys W) :
  k ∉ sub_keys (self s) ->
  remove_sub_key k s =
  (Ok tt, {| self := self s; heap := heap s; world := world s;
             trace := trace s ++ [Warned ValueError] |}).
Proof.
  intros Hk. unfold remove_sub_key, try_except, bind, sub_keys_remove.
  rewrite (list_remove_None k _ Hk). reflexivity.
Qed.

(** Removing, one after the other, keys that are all registered. *)
Lemma remove_each (ks : list string) (s : Sys W) :
  consistent s -> NoDup ks ->
  (forall x, x ∈ ks -> x ∈ sub_keys (self s)) ->
  exists s',
    for_each ks remove_sub_key s = (Ok tt, s') /\
    consistent s' /\
    (forall x, x ∈ sub_keys (self s') <-> x ∈ sub_keys (self s) /\ x ∉ ks) /\
    (forall x tid, x ∈ ks -> delivery_tasks (self s) !! x = Some tid ->
       DeliveryTask.keep_running (task_at (heap s') tid) = false) /\
    (forall tid, DeliveryTask.keep_running (task_at (heap s) tid) = false ->
       DeliveryTask.keep_running (task_at (heap s') tid) = false).
Proof.
  revert s. induction ks as [|k ks IH]; intros s Hs Hnd Hreg.
  - exists s. split; [reflexivity|]. split; [exact Hs|].
    split; [intros x; rewrite elem_of_nil; tauto|].
    split; [intros x tid Hx; inversion Hx|auto].
  - apply NoDup_cons in Hnd as [Hk Hnd].
    assert (k ∈ sub_keys (self s)) as Hkin by (apply Hreg; left).
    pose proof (remove_sub_key_consistent k s Hs Hkin) as Hs1.
    destruct (remove_sub_key_registered k s Hs Hkin)
      as (tid & l' & Htid & Hl' & Hrm).
    destruct (list_remove_NoDup k _ _ (cons_nodup s Hs) Hl') as [_ Hiff].
    rewrite Hrm in Hs1. cbn [snd] in Hs1.
    match type of Hrm with _ = (_, ?st) => set (s1 := st) in * end.
    destruct (IH s1 Hs1 Hnd) as (s' & Hrun & Hs' & Hkeys & Hstop & Hmono).
    { intros x Hx. cbn. apply Hiff. split; [apply Hreg; right; exact Hx|].
      intros ->. contradiction. }
    exists s'. split.
    { cbn [for_each]. unfold bind at 1. rewrite Hrm. exact Hrun. }
    split; [exact Hs'|]. split; [|split].
    + intros x. rewrite Hkeys. cbn. rewrite Hiff, elem_of_cons. tauto.
    + intros x tid' Hx Hx'. apply elem_of_cons in Hx as [->|Hx].
      * apply Hmono. cbn. rewrite Htid in Hx'. injection Hx' as <-.
        apply stop_task_stops.
      * apply (Hstop x); [exact Hx|]. cbn.
        rewrite lookup_delete_ne; [exact Hx'|]. intros ->. contradiction.
    + intros tid' Ht. apply Hmono. cbn. apply stop_task_keeps_stopped, Ht.
Qed.

Lemma no_key_no_entry {V} (d : gmap string V) (l : list string) :
  l = [] -> (forall k, k ∈ l <-> is_Some (d !! k)) -> d = ∅.
Proof.
  intros -> Hd. apply map_empty. intros k.
  destruct (d !! k) eqn:E; [|reflexivity].
  exfalso. eapply not_elem_of_nil. apply Hd. eauto.
Qed.

End Teardown.

(** C7.  In a consistent registry, removing a registered key returns
    normally, stops the task of that key and leaves the key in none of
    [sub_keys], [batch_size], [last_sql_run], [sub_key_locks],
    [delivery_lists], [delivery_tasks]; the registry stays consistent.
    Removal returns normally in every state whatsoever; for an unknown key
    the failure is logged and nothing else changes.  Removing all keys
    leaves every container empty and every task that was registered
    stopped. *)
Theorem remove_sub_key_leaves_no_trace {W : Type} `{Collaborators W}
    (k : string) (s : PubSubTool.Sys W) :
  consistent s -> k ∈ PubSubTool.sub_keys (PubSubTool.self s) ->
  (exists s1 tid,
     PubSubTool.delivery_tasks (PubSubTool.self s) !! k = Some tid /\
     PubSubTool.remove_sub_key k s = (Ok tt, s1) /\
     (k ∉ PubSubTool.sub_keys (PubSubTool.self s1)) /\
     PubSubTool.batch_size (PubSubTool.self s1) !! k = None /\
     PubSubTool.last_sql_run (PubSubTool.self s1) !! k = None /\
     PubSubTool.sub_key_locks (PubSubTool.self s1) !! k = None /\
     PubSubTool.delivery_lists (PubSubTool.self s1) !! k = None /\
     PubSubTool.delivery_tasks (PubSubTool.self s1) !! k = None /\
     DeliveryTask.keep_running (task_at (PubSubTool.heap s1) tid) = false /\
     consistent s1) /\
  (forall (k0 : string) (s0 : PubSubTool.Sys W),
     (PubSubTool.remove_sub_key k0 s0).1 = Ok tt /\
     (k0 ∉ PubSubTool.sub_keys (PubSubTool.self s0) ->
      PubSubTool.self (PubSubTool.remove_sub_key k0 s0).2 = PubSubTool.self s0 /\
      PubSubTool.heap (PubSubTool.remove_sub_key k0 s0).2 = PubSubTool.heap s0 /\
      PubSubTool.trace (PubSubTool.remove_sub_key k0 s0).2 =
        PubSubTool.trace s0 ++ [Warned ValueError])) /\
  (exists s2,
     PubSubTool.remove_all_sub_keys s = (Ok tt, s2) /\
     PubSubTool.self s2 = PubSubTool.__init__ /\
     (forall k' tid', PubSubTool.delivery_tasks (PubSubTool.self s) !! k' = Some tid' ->
        DeliveryTask.keep_running (task_at (PubSubTool.heap s2) tid') = false)).
Proof.
  intros Hs Hk. split; [|split].
  - pose proof (remove_sub_key_consistent k s Hs Hk) as Hs1.
    destruct (remove_sub_key_registered k s Hs Hk)
      as (tid & l' & Htid & Hl' & Hrm).
    destruct (list_remove_NoDup k _ _ (cons_nodup s Hs) Hl') as [_ Hiff].
    rewrite Hrm in Hs1. cbn [snd] in Hs1.
    eexists _, tid. split; [exact Htid|]. split; [exact Hrm|]. cbn.
    rewrite !lookup_delete_eq, Hiff.
    split; [tauto|]. repeat (split; [reflexivity|]).
    split; [apply stop_task_stops|exact Hs1].
  - intros k0 s0. split; [apply remove_sub_key_returns|].
    intros Hk0. rewrite (remove_sub_key_unknown k0 s0 Hk0). cbn. auto.
  - destruct (remove_each (PubSubTool.sub_keys (PubSubTool.self s)) s Hs
                (cons_nodup s Hs)) as (s2 & Hrun & Hs2 & Hkeys & Hstop & _);
      [auto|].
    exists s2. split; [exact Hrun|]. split.
    + assert (PubSubTool.sub_keys (PubSubTool.self s2) = []) as Hnil.
      { destruct (PubSubTool.sub_keys (PubSubTool.self s2)) as [|x l] eqn:E;
          [reflexivity|].
        exfalso. assert (x ∈ x :: l) as Hx by left.
        apply Hkeys in Hx. tauto. }
      destruct Hs2.
      pose proof (no_key_no_entry _ _ Hnil cons_batch_size0).
      pose proof (no_key_no_entry _ _ Hnil cons_last_sql_run0).
      pose proof (no_key_no_entry _ _ Hnil cons_sub_key_locks0).
      pose proof (no_key_no_entry _ _ Hnil cons_delivery_lists0).
      pose proof (no_key_no_entry _ _ Hnil cons_delivery_tasks0).
      destruct (PubSubTool.self s2). cbn in *. subst.
      reflexivity.
    + intros k' tid' Ht. apply (Hstop k'); [|exact Ht].
      apply (cons_delivery_tasks s Hs). eauto.
Qed.

(** Two keys are registered on a fresh tool; ["a"] is removed, and then
    everything is. *)
Lemma remove_sub_key_leaves_no_trace_witness :
  let s0 := PubSubTool.initial (Stub.world [] []) in
  let s := (PubSubTool.add_sub_key "b" (PubSubTool.add_sub_key "a" s0).2).2 in
  (exists s1,
     PubSubTool.remove_sub_key "a" s = (Ok tt, s1) /\
     PubSubTool.sub_keys (PubSubTool.self s1) = ["b"%string] /\
     DeliveryTask.keep_running (task_at (PubSubTool.heap s1) 0) = false) /\
  (exists s2,
     PubSubTool.remove_all_sub_keys s = (Ok tt, s2) /\
     PubSubTool.self s2 = PubSubTool.__init__ /\
     DeliveryTask.keep_running (task_at (PubSubTool.heap s2) 0) = false /\
     DeliveryTask.keep_running (task_at (PubSubTool.heap s2) 1) = false).
Proof.
  intros s0 s.
  assert (consistent s) as Hs.
  { apply add_sub_key_consistent, add_sub_key_consistent, initial_consistent. }
  assert ("a"%string ∈ PubSubTool.sub_keys (PubSubTool.self s)) as Ha.
  { vm_compute. left. }
  destruct (remove_sub_key_leaves_no_trace "a" s Hs Ha)
    as ((s1 & tid & Htid & Hrm & _ & _ & _ & _ & _ & _ & Hstop & _) & _ &
        (s2 & Hall & Hempty & Hstopped)).
  split.
  - exists s1. split; [exact Hrm|].
    assert (tid = 0%nat) as -> by (vm_compute in Htid; congruence).
    split; [|exact Hstop].
    unfold PubSubTool.remove_sub_key in Hrm. vm_compute in Hrm.
    injection Hrm as <-. reflexivity.
  - exists s2. split; [exact Hall|]. split; [exact Hempty|]. split.
    + apply (Hstopped "a"%string). vm_compute. reflexivity.
    + apply (Hstopped "b"%string). vm_compute. reflexivity.
Defined.

(** ** Enqueueing *)

Section Enqueue.

Context {W : Type} `{Collaborators W}.

Import PubSubTool.

Lemma list_at_set_list (loc : nat) (q : list Message) (h : Heap) :
  (loc < length (lists h))%nat -> list_at (set_list loc q h) loc = q.
Proof.
  intros Hloc. unfold list_at, set_list. cbn.
  rewrite list_lookup_insert_eq by assumption. reflexivity.
Qed.

Lemma update_elem_of (ms q : list Message) (m : Message) :
  m ∈ SortedList.update q ms <-> m ∈ q \/ m ∈ ms.
Proof.
  revert q. induction ms as [|x ms IH]; intros q; cbn.
  - rewrite elem_of_nil. tauto.
  - unfold SortedList.update in IH. rewrite IH, add_elem_of, elem_of_cons. tauto.
Qed.

Lemma update_app (q ms1 ms2 : list Message) :
  SortedList.update q (ms1 ++ ms2) =
  SortedList.update (SortedList.update q ms1) ms2.
Proof. unfold SortedList.update. apply foldl_app. Qed.

(** The loop of [_fetch_gd_messages_by_sub_key] over the rows. *)
Lemma gd_loop (rows : list Row) (k : string) (loc : nat) (s : Sys W) :
  delivery_lists (self s) !! k = Some loc ->
  (loc < length (lists (heap s)))%nat ->
  exists s1,
    for_each rows (fun msg =>
      bind (getitem delivery_lists k)
           (fun loc => list_add loc (GDMessage msg))) s = (Ok tt, s1) /\
    only_queue_changed loc
      (SortedList.update (list_at (heap s) loc) (GDMessage <$> rows)) s s1.
Proof.
  revert s. induction rows as [|r rows IH]; intros s Hk Hloc.
  - exists s. split; [reflexivity|]. unfold only_queue_changed.
    repeat (split; [reflexivity|]). cbn. symmetry. apply list_insert_id.
    unfold list_at. destruct (lookup_lt_is_Some_2 _ _ Hloc) as [q ->].
    reflexivity.
  - cbn [for_each].
    set (s' := {| self := self s;
                  heap := set_list loc
                    (SortedList.add (list_at (heap s) loc) (GDMessage r)) (heap s);
                  world := world s; trace := trace s |}).
    destruct (IH s') as (s1 & Hrun & Hs1 & Hw & Ht & Hts & Hlk & Hls).
    { exact Hk. }
    { cbn. rewrite length_insert. exact Hloc. }
    exists s1. split.
    + unfold bind at 1. unfold bind at 1. unfold getitem at 1. rewrite Hk.
      unfold list_add, with_heap. fold s'. exact Hrun.
    + unfold only_queue_changed. cbn in *.
      repeat (split; [assumption|]).
      rewrite Hls, list_at_set_list by assumption.
      rewrite list_insert_insert_eq. reflexivity.
Qed.

(** The loop of [_add_non_gd_messages_by_sub_key] over the dicts.  Entries
    wrapped before a malformed dict stay enqueued. *)
Lemma non_gd_loop (msgs : list Dict) (k : string) (loc : nat) (s : Sys W) :
  delivery_lists (self s) !! k = Some loc ->
  (loc < length (lists (heap s)))%nat ->
  exists s1,
    _add_non_gd_messages_by_sub_key k msgs s =
      (match wrap_all msgs with Ok _ => Ok tt | Raise e => Raise e end, s1) /\
    self s1 = self s /\ world s1 = world s /\ trace s1 = trace s /\
    tasks (heap s1) = tasks (heap s) /\ locks (heap s1) = locks (heap s) /\
    length (lists (heap s1)) = length (lists (heap s)) /\
    (forall loc', loc' <> loc -> lists (heap s1) !! loc' = lists (heap s) !! loc') /\
    (forall ms, wrap_all msgs = Ok ms ->
       lists (heap s1) =
       <[loc := SortedList.update (list_at (heap s) loc) ms]> (lists (heap s))).
Proof.
  unfold _add_non_gd_messages_by_sub_key.
  revert s. induction msgs as [|d msgs IH]; intros s Hk Hloc.
  - exists s. do 7 (split; [reflexivity|]).
    split; [intros; reflexivity|].
    intros ms Hms. cbn in Hms. injection Hms as <-.
    cbn. symmetry. apply list_insert_id.
    unfold list_at. destruct (lookup_lt_is_Some_2 _ _ Hloc) as [q ->].
    reflexivity.
  - cbn [for_each wrap_all]. destruct (NonGDMessage d) as [m|e] eqn:Hd.
    + set (s' := {| self := self s;
                    heap := set_list loc
                      (SortedList.add (list_at (heap s) loc) m) (heap s);
                    world := world s; trace := trace s |}).
      destruct (IH s') as (s1 & Hrun & Hs1 & Hw & Ht & Hts & Hlk & Hlen & Hoth & Hls).
      { exact Hk. }
      { cbn. rewrite length_insert. exact Hloc. }
      exists s1. split.
      { unfold bind at 1. unfold bind at 1. unfold getitem at 1. rewrite Hk.
        unfold bind at 1. unfold lift at 1.
        etransitivity; [exact Hrun|].
        destruct (wrap_all msgs); reflexivity. }
      cbn in *. do 5 (split; [assumption|]).
      split; [rewrite Hlen, length_insert; reflexivity|].
      split.
      { intros loc' Hne. rewrite Hoth by assumption.
        apply list_lookup_insert_ne. congruence. }
      intros ms Hms. destruct (wrap_all msgs) as [ms'|] eqn:Hms'; [|discriminate].
      injection Hms as <-.
      rewrite (Hls ms' eq_refl), list_at_set_list by assumption.
      rewrite list_insert_insert_eq. reflexivity.
    + exists s. split.
      { unfold bind at 1. unfold bind at 1. unfold getitem at 1. rewrite Hk.
        unfold bind at 1. unfold lift at 1. reflexivity. }
      do 6 (split; [reflexivity|]).
      split; [intros; reflexivity|]. intros ms Hms. discriminate Hms.
Qed.

Lemma wrap_all_Forall2 (msgs : list Dict) (ms : list Message) :
  wrap_all msgs = Ok ms <-> Forall2 (fun d m => NonGDMessage d = Ok m) msgs ms.
Proof.
  revert ms. induction msgs as [|d msgs IH]; intros ms; cbn.
  - split; [intros [= <-]; constructor|intros Hf; inversion Hf; reflexivity].
  - split.
    + destruct (NonGDMessage d) as [m|e] eqn:Hd; [|discriminate].
      destruct (wrap_all msgs) as [ms'|e] eqn:Hms; [|discriminate].
      intros [= <-]. constructor; [assumption|]. apply IH. reflexivity.
    + intros Hf. inversion Hf as [|? m ? ms' Hd Hrest]; subst.
      rewrite Hd. apply IH in Hrest. rewrite Hrest. reflexivity.
Qed.

End Enqueue.

Section Fetch.

Context {W : Type} `{Collaborators W}.

Import PubSubTool.

(** Whatever leaves [self] and the sizes of the store alone leaves the
    registry consistent. *)
Lemma consistent_frame (s s1 : Sys W) :
  self s1 = self s ->
  length (lists (heap s1)) = length (lists (heap s)) ->
  length (tasks (heap s1)) = length (tasks (heap s)) ->
  consistent s -> consistent s1.
Proof.
  intros Hself Hl Ht Hs. destruct Hs. split; rewrite ?Hself, ?Hl, ?Ht; assumption.
Qed.

Lemma queue_of_other (s s1 : Sys W) (k k' : string) (loc : nat) :
  consistent s -> self s1 = self s ->
  delivery_lists (self s) !! k = Some loc ->
  (forall loc', loc' <> loc ->
     lists (heap s1) !! loc' = lists (heap s) !! loc') ->
  k' <> k -> queue_of s1 k' = queue_of s k'.
Proof.
  intros Hs Hself Hk Hoth Hne. unfold queue_of. rewrite Hself.
  destruct (delivery_lists (self s) !! k') as [loc'|] eqn:Hk'; [|reflexivity].
  unfold list_at. rewrite Hoth; [reflexivity|].
  intros ->. apply Hne. eapply (cons_lists_apart s Hs); eauto.
Qed.

Lemma queue_of_here (s s1 : Sys W) (k : string) (loc : nat) (q : list Message) :
  self s1 = self s ->
  delivery_lists (self s) !! k = Some loc ->
  (loc < length (lists (heap s)))%nat ->
  lists (heap s1) = <[loc := q]> (lists (heap s)) ->
  queue_of s1 k = Some q.
Proof.
  intros Hself Hk Hloc Hls. unfold queue_of. rewrite Hself, Hk.
  unfold list_at. rewrite Hls, list_lookup_insert_eq by assumption. reflexivity.
Qed.

(** The durable fetch for a registered key, step by step. *)
Lemma fetch_spec (k : string) (session : Val) (s : Sys W) :
  consistent s -> k ∈ sub_keys (self s) ->
  exists loc s1,
    delivery_lists (self s) !! k = Some loc /\
    (loc < length (lists (heap s)))%nat /\
    last_sql_run (self s) !! k = Some None /\
    _fetch_gd_messages_by_sub_key k session s =
      (match (pubsub_get_sql_messages_by_sub_key k None session (world s)).1
       with Ok _ => Ok tt | Raise e => Raise e end, s1) /\
    self s1 = self s /\
    world s1 = (pubsub_get_sql_messages_by_sub_key k None session (world s)).2 /\
    trace s1 = trace s ++ [Fetched k None session] /\
    tasks (heap s1) = tasks (heap s) /\
    locks (heap s1) = locks (heap s) /\
    length (lists (heap s1)) = length (lists (heap s)) /\
    (forall loc', loc' <> loc ->
       lists (heap s1) !! loc' = lists (heap s) !! loc') /\
    (forall rows,
       (pubsub_get_sql_messages_by_sub_key k None session (world s)).1 = Ok rows ->
       lists (heap s1) =
       <[loc := SortedList.update (list_at (heap s) loc) (GDMessage <$> rows)]>
         (lists (heap s))).
Proof.
  intros Hs Hk.
  destruct (proj1 (cons_last_sql_run s Hs k) Hk) as [m Hm].
  pose proof (cons_marker_unset s Hs k m Hm) as ->.
  destruct (proj1 (cons_delivery_lists s Hs k) Hk) as [loc Hloc].
  pose proof (cons_lists_alloc s Hs k loc Hloc) as Hlt.
  exists loc.
  unfold _fetch_gd_messages_by_sub_key.
  unfold bind at 1. unfold getitem at 1. rewrite Hm.
  unfold bind at 1. unfold get_sql_messages_by_sub_key.
  destruct (pubsub_get_sql_messages_by_sub_key k None session (world s))
    as [[rows|e] w'] eqn:Ho; cbn [fst snd].
  - set (s' := {| self := self s; heap := heap s; world := w';
                  trace := trace s ++ [Fetched k None session] |}).
    destruct (gd_loop rows k loc s' Hloc Hlt)
      as (s1 & Hrun & Hself & Hw & Ht & Hts & Hlk & Hls).
    exists s1.
    split; [exact Hloc|]. split; [exact Hlt|]. split; [reflexivity|].
    split; [exact Hrun|].
    split; [exact Hself|]. split; [exact Hw|]. split; [exact Ht|].
    split; [exact Hts|]. split; [exact Hlk|].
    split; [rewrite Hls; apply length_insert|].
    split.
    + intros loc' Hne. rewrite Hls. apply list_lookup_insert_ne. congruence.
    + intros rows' Hrows. injection Hrows as <-. exact Hls.
  - eexists. split; [exact Hloc|]. split; [exact Hlt|].
    split; [reflexivity|]. split; [reflexivity|]. cbn.
    do 6 (split; [reflexivity|]).
    split; [intros; reflexivity|]. intros rows Hrows. discriminate Hrows.
Qed.

End Fetch.

(** C9.  For a registered key of a consistent registry the durable fetch,
    in its low-level and in its locking form, asks the persistence layer
    with the last-run marker of the key, which is Python's [None], and
    leaves [self], and with it [last_sql_run], exactly as it was.  It
    creates no object, changes no task and no other key's list; when the
    query returns rows, the key's list gets one durable message per row.  A
    second fetch asks with the same marker [None] again.  *)
Theorem fetch_leaves_marker_unset {W : Type} `{Collaborators W}
    (k : string) (session session2 : Val) (s : PubSubTool.Sys W) :
  consistent s -> k ∈ PubSubTool.sub_keys (PubSubTool.self s) ->
  exists r s1 r2 s2 q,
    PubSubTool._fetch_gd_messages_by_sub_key k session s = (r, s1) /\
    PubSubTool.fetch_gd_messages_by_sub_key k session s = (r, s1) /\
    PubSubTool.last_sql_run (PubSubTool.self s) !! k = Some None /\
    PubSubTool.self s1 = PubSubTool.self s /\
    PubSubTool.last_sql_run (PubSubTool.self s1) !! k = Some None /\
    PubSubTool.trace s1 = PubSubTool.trace s ++ [Fetched k None session] /\
    tasks (PubSubTool.heap s1) = tasks (PubSubTool.heap s) /\
    locks (PubSubTool.heap s1) = locks (PubSubTool.heap s) /\
    length (lists (PubSubTool.heap s1)) = length (lists (PubSubTool.heap s)) /\
    (forall k', k' <> k -> queue_of s1 k' = queue_of s k') /\
    queue_of s k = Some q /\
    (forall rows w',
       pubsub_get_sql_messages_by_sub_key k None session (PubSubTool.world s) =
         (Ok rows, w') ->
       r = Ok tt /\ PubSubTool.world s1 = w' /\
       queue_of s1 k = Some (SortedList.update q (GDMessage <$> rows))) /\
    consistent s1 /\
    PubSubTool._fetch_gd_messages_by_sub_key k session2 s1 = (r2, s2) /\
    PubSubTool.trace s2 =
      PubSubTool.trace s ++ [Fetched k None session; Fetched k None session2] /\
    PubSubTool.last_sql_run (PubSubTool.self s2) !! k = Some None.
Proof.
  intros Hs Hk.
  destruct (fetch_spec k session s Hs Hk)
    as (loc & s1 & Hloc & Hlt & Hm & Hrun & Hself & Hw & Ht & Hts & Hlk & Hlen &
        Hoth & Hls).
  assert (consistent s1) as Hs1.
  { eapply consistent_frame; [exact Hself|exact Hlen|rewrite Hts; reflexivity|exact Hs]. }
  assert (k ∈ PubSubTool.sub_keys (PubSubTool.self s1)) as Hk1
    by (rewrite Hself; exact Hk).
  destruct (fetch_spec k session2 s1 Hs1 Hk1)
    as (loc2 & s2 & _ & _ & _ & Hrun2 & Hself2 & _ & Ht2 & _).
  destruct (proj1 (cons_sub_key_locks s Hs k) Hk) as [lk Hlock].
  eexists _, s1, _, s2, (list_at (PubSubTool.heap s) loc).
  split; [exact Hrun|]. split.
  { unfold PubSubTool.fetch_gd_messages_by_sub_key, PubSubTool.bind,
      PubSubTool.getitem. rewrite Hlock. exact Hrun. }
  split; [exact Hm|]. split; [exact Hself|].
  split; [rewrite Hself; exact Hm|]. split; [exact Ht|].
  split; [exact Hts|]. split; [exact Hlk|]. split; [exact Hlen|].
  split; [intros k' Hne; eapply queue_of_other; eauto|].
  split; [unfold queue_of; rewrite Hloc; reflexivity|].
  split.
  { intros rows w' Ho. rewrite Ho in Hw, Hls. cbn in Hw, Hls.
    split; [rewrite Ho; reflexivity|]. split; [exact Hw|].
    eapply queue_of_here; eauto. }
  split; [exact Hs1|]. split; [exact Hrun2|].
  split; [rewrite Ht2, Ht, <- app_assoc; reflexivity|].
  rewrite Hself2, Hself. exact Hm.
Qed.

(** A key is registered, the SQL layer holds one row; two fetches in a row
    both ask with marker [None] and both enqueue the row. *)
Lemma fetch_leaves_marker_unset_witness :
  let w := {| Stub.deliver_plan := []; Stub.confirm_plan := [];
              Stub.rows := [Stub.row "g" 5 10 1]; Stub.draw := 0 |} in
  let s := (PubSubTool.add_sub_key "k" (PubSubTool.initial w)).2 in
  exists s1 r2 s2,
    PubSubTool._fetch_gd_messages_by_sub_key "k" VNone s = (Ok tt, s1) /\
    PubSubTool.last_sql_run (PubSubTool.self s1) !! "k"%string = Some None /\
    queue_of s1 "k" = Some [GDMessage (Stub.row "g" 5 10 1)] /\
    PubSubTool._fetch_gd_messages_by_sub_key "k" VNone s1 = (r2, s2) /\
    PubSubTool.trace s2 =
      PubSubTool.trace s ++ [Fetched "k" None VNone; Fetched "k" None VNone].
Proof.
  intros w s.
  assert (consistent s) as Hs
    by (apply add_sub_key_consistent, initial_consistent).
  assert ("k"%string ∈ PubSubTool.sub_keys (PubSubTool.self s)) as Hk
    by (vm_compute; left).
  destruct (fetch_leaves_marker_unset "k" VNone VNone s Hs Hk)
    as (r & s1 & r2 & s2 & q & Hrun & _ & _ & _ & Hm1 & _ & _ & _ & _ & _ & Hq &
        Hrows & Hs1 & Hrun2 & Ht2 & _).
  assert (q = []) as -> by (vm_compute in Hq; congruence).
  destruct (Hrows [Stub.row "g" 5 10 1] w eq_refl) as (-> & Hw1 & Hq1).
  exists s1, r2, s2. split; [exact Hrun|]. split; [exact Hm1|].
  split; [exact Hq1|]. split; [exact Hrun2|exact Ht2].
Defined.

(** ** Notification of new messages *)

Section Notify.

Context {W : Type} `{Collaborators W}.

Import PubSubTool.

Lemma handle_sub_key_unknown (has_gd : bool) (msgs : list Dict) (k : string)
    (s : Sys W) :
  sub_key_locks (self s) !! k = None ->
  handle_sub_key has_gd msgs k s = (Raise (KeyError k), s).
Proof.
  intros Hk. unfold handle_sub_key, bind, getitem. rewrite Hk. reflexivity.
Qed.

Lemma update_nil (q : list Message) : SortedList.update q [] = q.
Proof. reflexivity. Qed.

(** One key of the notification, for a registered key of a consistent
    registry. *)
Lemma handle_sub_key_spec (has_gd : bool) (msgs : list Dict) (k : string)
    (s : Sys W) :
  consistent s -> k ∈ sub_keys (self s) ->
  exists loc r s3,
    delivery_lists (self s) !! k = Some loc /\
    (loc < length (lists (heap s)))%nat /\
    handle_sub_key has_gd msgs k s = (r, s3) /\
    self s3 = self s /\
    tasks (heap s3) = tasks (heap s) /\
    locks (heap s3) = locks (heap s) /\
    length (lists (heap s3)) = length (lists (heap s)) /\
    trace s3 = trace s ++ (if has_gd then [Fetched k None VNone] else []) /\
    (has_gd = false -> world s3 = world s) /\
    (forall loc', loc' <> loc ->
       lists (heap s3) !! loc' = lists (heap s) !! loc') /\
    (has_gd = false -> msgs = [] -> r = Ok tt /\ s3 = s) /\
    (has_gd = false ->
     r = match wrap_all msgs with Ok _ => Ok tt | Raise e => Raise e end) /\
    (r = Ok tt ->
     exists rows ms,
       wrap_all msgs = Ok ms /\ (has_gd = false -> rows = []) /\
       lists (heap s3) =
       <[loc := SortedList.update
                  (SortedList.update (list_at (heap s) loc) (GDMessage <$> rows))
                  ms]> (lists (heap s))).
Proof.
  intros Hs Hk.
  destruct (proj1 (cons_sub_key_locks s Hs k) Hk) as [lk Hlock].
  assert ((match msgs with
           | [] => ret tt
           | _ :: _ => _add_non_gd_messages_by_sub_key k msgs
           end) = _add_non_gd_messages_by_sub_key (W:=W) k msgs) as Hadd
    by (destruct msgs; reflexivity).
  unfold handle_sub_key. rewrite Hadd.
  unfold bind at 1. unfold getitem at 1. rewrite Hlock.
  destruct has_gd.
  - destruct (fetch_spec k VNone s Hs Hk)
      as (loc & s1 & Hloc & Hlt & _ & Hrun & Hself & Hw & Ht & Hts & Hlk & Hlen &
          Hoth & Hls).
    exists loc. unfold bind at 1. rewrite Hrun.
    destruct (pubsub_get_sql_messages_by_sub_key k None VNone (world s))
      as [[rows|e] w'] eqn:Ho; cbn [fst snd] in *.
    + destruct (non_gd_loop msgs k loc s1) as
        (s3 & Hrun3 & Hself3 & Hw3 & Ht3 & Hts3 & Hlk3 & Hlen3 & Hoth3 & Hls3).
      { rewrite Hself. exact Hloc. }
      { rewrite Hlen. exact Hlt. }
      exists (match wrap_all msgs with Ok _ => Ok tt | Raise e => Raise e end), s3.
      split; [exact Hloc|]. split; [exact Hlt|]. split; [exact Hrun3|].
      split; [congruence|]. split; [congruence|]. split; [congruence|].
      split; [congruence|]. split; [congruence|].
      split; [discriminate|].
      split; [intros loc' Hne; rewrite Hoth3, Hoth by assumption; reflexivity|].
      split; [discriminate|]. split; [discriminate|].
      intros Hr. destruct (wrap_all msgs) as [ms|e] eqn:Hms; [|discriminate].
      exists rows, ms. split; [reflexivity|]. split; [discriminate|].
      rewrite (Hls3 ms eq_refl), (Hls rows eq_refl).
      unfold list_at at 1. rewrite (Hls rows eq_refl).
      rewrite list_lookup_insert_eq by assumption. cbn [default].
      apply list_insert_insert_eq.
    + exists (Raise e), s1.
      split; [exact Hloc|]. split; [exact Hlt|]. split; [reflexivity|].
      do 5 (split; [assumption|]).
      split; [discriminate|]. split; [exact Hoth|].
      split; [discriminate|]. split; [discriminate|]. discriminate.
  - destruct (proj1 (cons_delivery_lists s Hs k) Hk) as [loc Hloc].
    pose proof (cons_lists_alloc s Hs k loc Hloc) as Hlt.
    exists loc. unfold bind at 1. unfold ret at 1.
    destruct (non_gd_loop msgs k loc s Hloc Hlt) as
      (s3 & Hrun3 & Hself3 & Hw3 & Ht3 & Hts3 & Hlk3 & Hlen3 & Hoth3 & Hls3).
    exists (match wrap_all msgs with Ok _ => Ok tt | Raise e => Raise e end), s3.
    split; [exact Hloc|]. split; [exact Hlt|]. split; [exact Hrun3|].
    do 4 (split; [assumption|]).
    split; [rewrite Ht3, app_nil_r; reflexivity|].
    split; [intros _; exact Hw3|]. split; [exact Hoth3|].
    split.
    { intros _ ->. split; [reflexivity|].
      unfold _add_non_gd_messages_by_sub_key in Hrun3. cbn in Hrun3.
      injection Hrun3 as <-. reflexivity. }
    split; [reflexivity|].
    intros Hr. destruct (wrap_all msgs) as [ms|e] eqn:Hms; [|discriminate].
    exists [], ms. split; [reflexivity|]. split; [reflexivity|].
    rewrite (Hls3 ms eq_refl). reflexivity.
Qed.

End Notify.

Section NotifyAll.

Context {W : Type} `{Collaborators W}.

Import PubSubTool.

(** What a notification that returned normally has done. *)
Lemma handle_new_messages_returned (cid : Val) (has_gd : bool)
    (msgs : list Dict) (keys : list string) (s s1 : Sys W) :
  consistent s ->
  handle_new_messages cid has_gd keys msgs s = (Ok tt, s1) ->
  self s1 = self s /\ consistent s1 /\
  tasks (heap s1) = tasks (heap s) /\ locks (heap s1) = locks (heap s) /\
  (forall x, x ∈ keys -> x ∈ sub_keys (self s)) /\
  trace s1 = trace s ++
    (if has_gd then (fun x => Fetched x None VNone) <$> keys else []) /\
  (has_gd = false -> world s1 = world s) /\
  (forall x, x ∉ keys -> queue_of s1 x = queue_of s x) /\
  (forall x q m, queue_of s x = Some q -> m ∈ q ->
     exists q1, queue_of s1 x = Some q1 /\ m ∈ q1) /\
  (keys <> [] -> exists ms, wrap_all msgs = Ok ms) /\
  (forall ms x m, wrap_all msgs = Ok ms -> x ∈ keys -> m ∈ ms ->
     exists q1, queue_of s1 x = Some q1 /\ m ∈ q1) /\
  (forall ms x q, wrap_all msgs = Ok ms -> NoDup keys -> x ∈ keys ->
     queue_of s x = Some q ->
     exists rows, (has_gd = false -> rows = []) /\
       queue_of s1 x =
       Some (SortedList.update (SortedList.update q (GDMessage <$> rows)) ms)).
Proof.
  unfold handle_new_messages. revert s.
  induction keys as [|k ks IH]; intros s Hs Hrun.
  - cbn in Hrun. injection Hrun as <-.
    split; [reflexivity|]. split; [exact Hs|]. split; [reflexivity|].
    split; [reflexivity|]. split; [intros x Hx; inversion Hx|].
    split; [destruct has_gd; cbn; rewrite app_nil_r; reflexivity|].
    split; [reflexivity|]. split; [reflexivity|].
    split; [intros x q m Hq Hm; eauto|].
    split; [congruence|].
    split; [intros ms x m _ Hx; inversion Hx|].
    intros ms x q _ _ Hx; inversion Hx.
  - cbn [for_each] in Hrun. unfold bind at 1 in Hrun.
    assert (k ∈ sub_keys (self s)) as Hk.
    { apply (cons_sub_key_locks s Hs).
      destruct (sub_key_locks (self s) !! k) eqn:Hlock; [eauto|].
      rewrite (handle_sub_key_unknown has_gd msgs k s Hlock) in Hrun.
      discriminate. }
    destruct (handle_sub_key_spec has_gd msgs k s Hs Hk)
      as (loc & r & s3 & Hloc & Hlt & Hstep & Hself & Hts & Hlk & Hlen & Ht &
          Hw & Hoth & _ & _ & Hok).
    rewrite Hstep in Hrun. destruct r as [[]|e]; [|discriminate].
    destruct (Hok eq_refl) as (rows & ms & Hms & Hrows & Hls).
    assert (consistent s3) as Hs3.
    { eapply consistent_frame; [exact Hself|exact Hlen| |exact Hs].
      rewrite Hts. reflexivity. }
    assert (queue_of s3 k =
            Some (SortedList.update
                    (SortedList.update (list_at (heap s) loc) (GDMessage <$> rows))
                    ms)) as Hqk
      by (eapply queue_of_here; eauto).
    assert (queue_of s k = Some (list_at (heap s) loc)) as Hqk0
      by (unfold queue_of; rewrite Hloc; reflexivity).
    assert (forall x, x <> k -> queue_of s3 x = queue_of s x) as Hqo
      by (intros x Hx; eapply queue_of_other; eauto).
    destruct (IH s3 Hs3 Hrun)
      as (Hself1 & Hs1 & Hts1 & Hlk1 & Hreg1 & Ht1 & Hw1 & Hout1 & Hmono1 &
          _ & Hin1 & Hex1).
    split; [congruence|]. split; [exact Hs1|]. split; [congruence|].
    split; [congruence|]. split.
    { intros x Hx. apply elem_of_cons in Hx as [->|Hx]; [exact Hk|].
      rewrite <- Hself. auto. }
    split.
    { rewrite Ht1, Ht. destruct has_gd; cbn; rewrite <- app_assoc; reflexivity. }
    split; [intros Hg; rewrite Hw1, Hw by assumption; reflexivity|].
    split.
    { intros x Hx. rewrite not_elem_of_cons in Hx. destruct Hx as [Hxk Hx].
      rewrite Hout1 by assumption. auto. }
    assert (forall x q m, queue_of s x = Some q -> m ∈ q ->
              exists q3, queue_of s3 x = Some q3 /\ m ∈ q3) as Hmono3.
    { intros x q m Hq Hm. destruct (decide (x = k)) as [->|Hne].
      - eexists. split; [exact Hqk|].
        rewrite Hqk0 in Hq. injection Hq as ->.
        apply update_elem_of. left. apply update_elem_of. left. exact Hm.
      - exists q. rewrite Hqo by assumption. auto. }
    split.
    { intros x q m Hq Hm. destruct (Hmono3 x q m Hq Hm) as (q3 & Hq3 & Hm3).
      eauto. }
    split; [intros _; eauto|].
    split.
    { intros ms' x m Hms' Hx Hm. rewrite Hms in Hms'. injection Hms' as <-.
      apply elem_of_cons in Hx as [->|Hx].
      - apply (Hmono1 k _ m Hqk). apply update_elem_of. right. exact Hm.
      - eapply Hin1; eauto. }
    intros ms' x q Hms' Hnd Hx Hq. rewrite Hms in Hms'. injection Hms' as <-.
    apply NoDup_cons in Hnd as [Hkks Hnd].
    apply elem_of_cons in Hx as [->|Hx].
    + exists rows. split; [exact Hrows|].
      rewrite Hout1 by assumption. rewrite Hqk0 in Hq. injection Hq as <-.
      exact Hqk.
    + assert (x <> k) as Hne by (intros ->; contradiction).
      apply (Hex1 ms x q Hms Hnd Hx). rewrite Hqo by assumption. exact Hq.
Qed.

(** When a notification does return normally. *)
Lemma handle_new_messages_returns (cid : Val) (has_gd : bool)
    (msgs : list Dict) (keys : list string) (s : Sys W) :
  consistent s ->
  (forall x, x ∈ keys -> x ∈ sub_keys (self s)) ->
  (exists ms, wrap_all msgs = Ok ms) ->
  (has_gd = true ->
   forall x w, exists rows w',
     pubsub_get_sql_messages_by_sub_key x None VNone w = (Ok rows, w')) ->
  exists s1, handle_new_messages cid has_gd keys msgs s = (Ok tt, s1).
Proof.
  unfold handle_new_messages. revert s.
  induction keys as [|k ks IH]; intros s Hs Hreg Hms Hfetch.
  - exists s. reflexivity.
  - assert (k ∈ sub_keys (self s)) as Hk by (apply Hreg; left).
    destruct (handle_sub_key_spec has_gd msgs k s Hs Hk)
      as (loc & r & s3 & Hloc & Hlt & Hstep & Hself & Hts & Hlk & Hlen & Ht &
          Hw & Hoth & _ & Hpure & _).
    assert (r = Ok tt) as ->.
    { destruct Hms as [ms Hms]. destruct has_gd.
      - destruct (Hfetch eq_refl k (world s)) as (rows & w' & Ho).
        destruct (fetch_spec k VNone s Hs Hk)
          as (loc' & s1 & Hloc' & Hlt' & _ & Hrun & Hself' & _ & _ & _ & _ &
              Hlen' & _).
        rewrite Ho in Hrun. cbn [fst] in Hrun.
        destruct (non_gd_loop msgs k loc' s1) as (s4 & Hrun4 & _).
        { rewrite Hself'. exact Hloc'. }
        { rewrite Hlen'. exact Hlt'. }
        rewrite Hms in Hrun4.
        destruct (proj1 (cons_sub_key_locks s Hs k) Hk) as [lk Hlock].
        unfold handle_sub_key in Hstep.
        unfold bind at 1 in Hstep. unfold getitem at 1 in Hstep.
        rewrite Hlock in Hstep. unfold bind at 1 in Hstep.
        rewrite Hrun in Hstep.
        assert ((match msgs with
                 | [] => ret tt
                 | _ :: _ => _add_non_gd_messages_by_sub_key k msgs
                 end) s1 = (Ok tt, s4)) as Hadd
          by (destruct msgs; [exact Hrun4|exact Hrun4]).
        rewrite Hadd in Hstep. congruence.
      - rewrite (Hpure eq_refl), Hms. reflexivity. }
    assert (consistent s3) as Hs3.
    { eapply consistent_frame; [exact Hself|exact Hlen| |exact Hs].
      rewrite Hts. reflexivity. }
    destruct (IH s3 Hs3) as [s1 Hrun]; [|exact Hms|exact Hfetch|].
    { intros x Hx. rewrite Hself. apply Hreg. right. exact Hx. }
    exists s1. cbn [for_each]. unfold bind at 1. rewrite Hstep. exact Hrun.
Qed.

End NotifyAll.

Section NotifyIdle.

Context {W : Type} `{Collaborators W}.

Import PubSubTool.

(** Without durable messages and without ephemeral ones the notification
    touches nothing, whether it returns or raises. *)
Lemma handle_nothing_to_do (cid : Val) (keys : list string) (s : Sys W) :
  (handle_new_messages cid false keys [] s).2 = s.
Proof.
  unfold handle_new_messages. revert s.
  induction keys as [|k ks IH]; intros s; [reflexivity|].
  cbn [for_each]. unfold bind at 1, handle_sub_key, bind, getitem, ret.
  destruct (sub_key_locks (self s) !! k); [apply IH|reflexivity].
Qed.

End NotifyIdle.

(** C5.  A notification that returns normally on a consistent registry has,
    for the keys of [sub_key_list] in order, queried the persistence layer
    once per key (scoped to the key, with its marker) exactly when [has_gd]
    is true, and not at all otherwise.  Every key of the list is registered.
    Every dict of [non_gd_msg_list] was wrapped as an ephemeral message and
    each of these is in the queue of every listed key afterwards; when the
    keys are pairwise distinct the queue of a listed key is its old content
    with the fetched rows and then the wrapped messages inserted, and there
    are no fetched rows when [has_gd] is false.  Queues of other keys are
    untouched, and with [has_gd] false and no ephemeral message nothing
    changes at all. *)
Theorem notification_fans_out {W : Type} `{Collaborators W}
    (cid : Val) (has_gd : bool) (sub_key_list : list string)
    (non_gd_msg_list : list Dict) (s s1 : PubSubTool.Sys W) :
  consistent s ->
  PubSubTool.handle_new_messages cid has_gd sub_key_list non_gd_msg_list s =
    (Ok tt, s1) ->
  PubSubTool.trace s1 = PubSubTool.trace s ++
    (if has_gd then (fun k => Fetched k None VNone) <$> sub_key_list else []) /\
  PubSubTool.self s1 = PubSubTool.self s /\
  (forall k, k ∈ sub_key_list -> k ∈ PubSubTool.sub_keys (PubSubTool.self s)) /\
  (sub_key_list <> [] ->
   exists ms, Forall2 (fun d m => NonGDMessage d = Ok m) non_gd_msg_list ms) /\
  (forall ms k m,
     Forall2 (fun d m => NonGDMessage d = Ok m) non_gd_msg_list ms ->
     k ∈ sub_key_list -> m ∈ ms ->
     exists q1, queue_of s1 k = Some q1 /\ m ∈ q1) /\
  (forall ms k q,
     Forall2 (fun d m => NonGDMessage d = Ok m) non_gd_msg_list ms ->
     NoDup sub_key_list -> k ∈ sub_key_list -> queue_of s k = Some q ->
     exists rows, (has_gd = false -> rows = []) /\
       queue_of s1 k =
       Some (SortedList.update (SortedList.update q (GDMessage <$> rows)) ms)) /\
  (forall k, k ∉ sub_key_list -> queue_of s1 k = queue_of s k) /\
  (has_gd = false -> PubSubTool.world s1 = PubSubTool.world s) /\
  (has_gd = false -> non_gd_msg_list = [] -> s1 = s).
Proof.
  intros Hs Hrun.
  destruct (handle_new_messages_returned cid has_gd non_gd_msg_list
              sub_key_list s s1 Hs Hrun)
    as (Hself & _ & _ & _ & Hreg & Ht & Hw & Hout & _ & Hms & Hin & Hex).
  split; [exact Ht|]. split; [exact Hself|]. split; [exact Hreg|].
  split.
  { intros Hne. destruct (Hms Hne) as [ms Hwrap]. exists ms.
    apply wrap_all_Forall2. exact Hwrap. }
  split.
  { intros ms k m Hwrap. apply wrap_all_Forall2 in Hwrap. eauto. }
  split.
  { intros ms k q Hwrap. apply wrap_all_Forall2 in Hwrap. eauto. }
  split; [exact Hout|]. split; [exact Hw|].
  intros -> ->.
  pose proof (handle_nothing_to_do cid sub_key_list s) as Hidle.
  rewrite Hrun in Hidle. exact Hidle.
Qed.

(** Key ["k"] is registered and the SQL layer holds one row.  A
    notification with [has_gd] true and one ephemeral message queries once
    for ["k"] and leaves both messages queued, the ephemeral one (priority
    9) ahead of the durable one (priority 5). *)
Lemma notification_fans_out_witness :
  let w := {| Stub.deliver_plan := []; Stub.confirm_plan := [];
              Stub.rows := [Stub.row "g" 5 10 1]; Stub.draw := 0 |} in
  let s := (PubSubTool.add_sub_key "k" (PubSubTool.initial w)).2 in
  exists s1,
    PubSubTool.handle_new_messages (VStr "cid") true ["k"%string]
      [Stub.dict "e" 9 1 1] s = (Ok tt, s1) /\
    PubSubTool.trace s1 = PubSubTool.trace s ++ [Fetched "k" None VNone] /\
    exists q1, queue_of s1 "k" = Some q1 /\ Stub.msg "e" 9 1 1 ∈ q1.
Proof.
  intros w s.
  assert (consistent s) as Hs
    by (apply add_sub_key_consistent, initial_consistent).
  destruct (handle_new_messages_returns (VStr "cid") true
              [Stub.dict "e" 9 1 1] ["k"%string] s Hs) as [s1 Hrun].
  { intros x Hx. apply list_elem_of_singleton in Hx as ->. vm_compute. left. }
  { eexists. vm_compute. reflexivity. }
  { intros _ x w0. exists (Stub.rows w0), w0. reflexivity. }
  destruct (notification_fans_out (VStr "cid") true ["k"%string]
              [Stub.dict "e" 9 1 1] s s1 Hs Hrun)
    as (Ht & _ & _ & _ & Hin & _).
  exists s1. split; [exact Hrun|]. split; [exact Ht|].
  apply (Hin [Stub.msg "e" 9 1 1] "k"%string).
  - repeat constructor.
  - left.
  - left.
Defined.

(** C8 (as amended).  [handle_new_messages] has no handler of its own.  On
    a consistent registry it returns normally when every listed key is
    registered, every dict has all fourteen fields and, if [has_gd] is set,
    the persistence query returns.  If some listed key is not registered,
    or if keys are listed and some dict lacks a field, the call ends in an
    exception that reaches the caller: [KeyError] for the key when the
    unknown key comes first, [KeyError] for the missing field when a
    registered key comes first, no fetch is due and the first dict is the
    malformed one. *)
Theorem notification_failures_reach_caller {W : Type} `{Collaborators W}
    (cid : Val) (has_gd : bool) (sub_key_list : list string)
    (non_gd_msg_list : list Dict) (s : PubSubTool.Sys W) :
  consistent s ->
  ((forall k, k ∈ sub_key_list -> k ∈ PubSubTool.sub_keys (PubSubTool.self s)) ->
   (exists ms, Forall2 (fun d m => NonGDMessage d = Ok m) non_gd_msg_list ms) ->
   (has_gd = true ->
    forall k w, exists rows w',
      pubsub_get_sql_messages_by_sub_key k None VNone w = (Ok rows, w')) ->
   exists s1,
     PubSubTool.handle_new_messages cid has_gd sub_key_list non_gd_msg_list s =
       (Ok tt, s1)) /\
  (forall k, k ∈ sub_key_list ->
     k ∉ PubSubTool.sub_keys (PubSubTool.self s) ->
     exists e s1,
       PubSubTool.handle_new_messages cid has_gd sub_key_list non_gd_msg_list s =
         (Raise e, s1)) /\
  (forall e, sub_key_list <> [] -> wrap_all non_gd_msg_list = Raise e ->
     exists e' s1,
       PubSubTool.handle_new_messages cid has_gd sub_key_list non_gd_msg_list s =
         (Raise e', s1)) /\
  (forall k rest, k ∉ PubSubTool.sub_keys (PubSubTool.self s) ->
     PubSubTool.handle_new_messages cid has_gd (k :: rest) non_gd_msg_list s =
       (Raise (KeyError k), s)) /\
  (forall k rest d ds field,
     k ∈ PubSubTool.sub_keys (PubSubTool.self s) ->
     NonGDMessage d = Raise (KeyError field) ->
     exists s1,
       PubSubTool.handle_new_messages cid false (k :: rest) (d :: ds) s =
         (Raise (KeyError field), s1)).
Proof.
  intros Hs. split; [|split; [|split; [|split]]].
  - intros Hreg [ms Hms] Hfetch.
    apply handle_new_messages_returns; try assumption.
    exists ms. apply wrap_all_Forall2. exact Hms.
  - intros k Hk Hout.
    destruct (PubSubTool.handle_new_messages cid has_gd sub_key_list
                non_gd_msg_list s) as [[[]|e] s1] eqn:Hrun; [|eauto].
    exfalso. apply Hout.
    destruct (handle_new_messages_returned _ _ _ _ _ _ Hs Hrun)
      as (_ & _ & _ & _ & Hreg & _). auto.
  - intros e Hne Hwrap.
    destruct (PubSubTool.handle_new_messages cid has_gd sub_key_list
                non_gd_msg_list s) as [[[]|e'] s1] eqn:Hrun; [|eauto].
    exfalso.
    destruct (handle_new_messages_returned _ _ _ _ _ _ Hs Hrun)
      as (_ & _ & _ & _ & _ & _ & _ & _ & _ & Hms & _).
    destruct (Hms Hne) as [ms Hok]. congruence.
  - intros k rest Hout.
    unfold PubSubTool.handle_new_messages. cbn [PubSubTool.for_each].
    unfold PubSubTool.bind at 1.
    rewrite handle_sub_key_unknown; [reflexivity|].
    destruct (PubSubTool.sub_key_locks (PubSubTool.self s) !! k) eqn:Hlock;
      [|reflexivity].
    exfalso. apply Hout. apply (cons_sub_key_locks s Hs). eauto.
  - intros k rest d ds field Hk Hd.
    destruct (handle_sub_key_spec false (d :: ds) k s Hs Hk)
      as (loc & r & s3 & _ & _ & Hstep & _ & _ & _ & _ & _ & _ & _ & _ & Hr & _).
    rewrite (Hr eq_refl) in Hstep. cbn [wrap_all] in Hstep.
    rewrite Hd in Hstep.
    exists s3. unfold PubSubTool.handle_new_messages.
    cbn [PubSubTool.for_each]. unfold PubSubTool.bind at 1.
    rewrite Hstep. reflexivity.
Qed.

(** On a fresh tool with ["k"] registered a well-formed notification
    returns, and one that also names an unknown key raises. *)
Lemma notification_failures_reach_caller_witness :
  let s := (PubSubTool.add_sub_key "k"
              (PubSubTool.initial (Stub.world [] []))).2 in
  (exists s1,
     PubSubTool.handle_new_messages (VStr "cid") true ["k"%string]
       [Stub.dict "e" 9 1 1] s = (Ok tt, s1)) /\
  (exists e s1,
     PubSubTool.handle_new_messages (VStr "cid") true ["k"; "x"]%string
       [Stub.dict "e" 9 1 1] s = (Raise e, s1)).
Proof.
  intros s.
  assert (consistent s) as Hs
    by (apply add_sub_key_consistent, initial_consistent).
  split.
  - destruct (notification_failures_reach_caller (VStr "cid") true
                ["k"%string] [Stub.dict "e" 9 1 1] s Hs) as (Hret & _).
    apply Hret.
    + intros x Hx. apply list_elem_of_singleton in Hx as ->. vm_compute. left.
    + exists [Stub.msg "e" 9 1 1]. repeat constructor.
    + intros _ x w0. exists (Stub.rows w0), w0. reflexivity.
  - destruct (notification_failures_reach_caller (VStr "cid") true
                ["k"; "x"]%string [Stub.dict "e" 9 1 1] s Hs)
      as (_ & Hraise & _).
    apply (Hraise "x"%string).
    + right. left.
    + vm_compute. intros Hx. apply list_elem_of_singleton in Hx. discriminate Hx.
Defined.

(** C8 as stated does not hold: a notification for a key that was never
    registered raises [KeyError] to its caller, and so does one whose
    ephemeral dict lacks the ["priority"] field. *)
Lemma unknown_key_raises_to_publisher :
  let s0 := PubSubTool.initial (Stub.world [] []) in
  let s := (PubSubTool.add_sub_key "k" s0).2 in
  PubSubTool.handle_new_messages (VStr "cid") true ["unknown"%string] [] s0 =
    (Raise (KeyError "unknown"), s0) /\
  PubSubTool.handle_new_messages (VStr "cid") false ["k"%string]
    [Stub.dict_no_priority "e"] s = (Raise (KeyError "priority"), s).
Proof. split; vm_compute; reflexivity. Qed.

(** ** Reachable states *)

Section Reachable.

Context {W : Type} `{Collaborators W}.

Import PubSubTool.

Lemma frame_refl (s : Sys W) : frame s s.
Proof. unfold frame. auto. Qed.

Lemma frame_trans (s s1 s2 : Sys W) : frame s s1 -> frame s1 s2 -> frame s s2.
Proof.
  unfold frame. intros (? & ? & ? & ?) (? & ? & ? & ?).
  repeat split; try congruence. auto.
Qed.

Lemma sorted_list_at (h : Heap) (loc : nat) :
  queues_sorted h -> SortedList.sorted (list_at h loc).
Proof.
  intros Hh. unfold list_at. destruct (lists h !! loc) as [q|] eqn:Hq; cbn.
  - eapply Forall_lookup_1; eauto.
  - constructor.
Qed.

Lemma queues_sorted_set_list (h : Heap) (loc : nat) (q : list Message) :
  queues_sorted h -> SortedList.sorted q -> queues_sorted (set_list loc q h).
Proof.
  intros Hh Hq. unfold queues_sorted, set_list. cbn.
  destruct (decide (loc < length (lists h))%nat).
  - apply Forall_insert; assumption.
  - rewrite list_insert_ge by lia. exact Hh.
Qed.

Lemma frame_list_add (loc : nat) (m : Message) (s : Sys W) :
  frame s (list_add loc m s).2.
Proof.
  unfold frame, list_add, with_heap. cbn.
  split; [reflexivity|]. split; [apply length_insert|]. split; [reflexivity|].
  intros Hs. apply queues_sorted_set_list; [exact Hs|].
  apply add_sorted, sorted_list_at, Hs.
Qed.

Lemma frame_world_trace (s : Sys W) (w : W) (tr : list Event) :
  frame s {| self := self s; heap := heap s; world := w; trace := tr |}.
Proof. unfold frame. cbn. auto. Qed.

Lemma frame_for_each {A} (body : A -> M unit) (l : list A) (s : Sys W) :
  (forall x s0, frame s0 (body x s0).2) -> frame s (for_each l body s).2.
Proof.
  intros Hbody. revert s. induction l as [|x l IH]; intros s.
  - apply frame_refl.
  - cbn [for_each]. unfold bind.
    pose proof (Hbody x s) as Hx.
    destruct (body x s) as [[u|e] s1]; cbn [snd] in *.
    + eapply frame_trans; [exact Hx|apply IH].
    + exact Hx.
Qed.

Lemma frame_add_non_gd (k : string) (msgs : list Dict) (s : Sys W) :
  frame s (_add_non_gd_messages_by_sub_key k msgs s).2.
Proof.
  apply frame_for_each. intros d s0. unfold bind, getitem, lift.
  destruct (delivery_lists (self s0) !! k) as [loc|]; [|apply frame_refl].
  destruct (NonGDMessage d) as [m|e]; [|apply frame_refl].
  apply frame_list_add.
Qed.

Lemma frame_fetch (k : string) (session : Val) (s : Sys W) :
  frame s (_fetch_gd_messages_by_sub_key k session s).2.
Proof.
  unfold _fetch_gd_messages_by_sub_key, bind at 1, getitem at 1.
  destruct (last_sql_run (self s) !! k) as [m|]; [|apply frame_refl].
  unfold bind at 1, get_sql_messages_by_sub_key.
  destruct (pubsub_get_sql_messages_by_sub_key k m session (world s))
    as [[rows|e] w']; [|apply frame_world_trace].
  eapply frame_trans; [apply (frame_world_trace s w')|].
  apply frame_for_each. intros r s0. unfold bind, getitem.
  destruct (delivery_lists (self s0) !! k) as [loc|]; [|apply frame_refl].
  apply frame_list_add.
Qed.

Lemma frame_handle_sub_key (has_gd : bool) (msgs : list Dict) (k : string)
    (s : Sys W) :
  frame s (handle_sub_key has_gd msgs k s).2.
Proof.
  unfold handle_sub_key, bind at 1, getitem at 1.
  destruct (sub_key_locks (self s) !! k); [|apply frame_refl].
  unfold bind at 1.
  assert (frame s ((if has_gd then _fetch_gd_messages_by_sub_key k VNone
                    else ret tt) s).2) as Hf.
  { destruct has_gd; [apply frame_fetch|apply frame_refl]. }
  destruct ((if has_gd then _fetch_gd_messages_by_sub_key k VNone else ret tt) s)
    as [[u|e] s1]; cbn [snd] in *; [|exact Hf].
  eapply frame_trans; [exact Hf|].
  destruct msgs; [apply frame_refl|apply frame_add_non_gd].
Qed.

Lemma frame_invariant (s s1 : Sys W) :
  frame s s1 -> consistent s /\ queues_sorted (heap s) ->
  consistent s1 /\ queues_sorted (heap s1).
Proof.
  intros (Hself & Hlen & Hts & Hsorted) [Hs Hq]. split; [|auto].
  eapply consistent_frame; eauto. rewrite Hts. reflexivity.
Qed.

Lemma keeps_lists_bind {A B} (m : M (W:=W) A) (f : A -> M (W:=W) B) :
  keeps_lists m -> (forall a, keeps_lists (f a)) -> keeps_lists (bind m f).
Proof.
  intros Hm Hf s. unfold bind. specialize (Hm s).
  destruct (m s) as [[a|e] s1]; cbn [snd] in *; [|exact Hm].
  rewrite Hf. exact Hm.
Qed.

Lemma keeps_lists_try (body : M (W:=W) unit) (handler : Exn -> M (W:=W) unit) :
  keeps_lists body -> (forall e, keeps_lists (handler e)) ->
  keeps_lists (try_except body handler).
Proof.
  intros Hb Hh s. unfold try_except. specialize (Hb s).
  destruct (body s) as [[a|e] s1]; cbn [snd] in *; [exact Hb|].
  rewrite Hh. exact Hb.
Qed.

Lemma keeps_lists_getitem {V} (d : t -> gmap string V) (k : string) :
  keeps_lists (getitem (W:=W) d k).
Proof. intros s. unfold getitem. destruct (d (self s) !! k); reflexivity. Qed.

Lemma keeps_lists_with_self (f : t -> t) : keeps_lists (with_self (W:=W) f).
Proof. intros s. reflexivity. Qed.

Lemma keeps_lists_delitem {V} (d : t -> gmap string V)
    (set : gmap string V -> t -> t) (k : string) :
  keeps_lists (delitem (W:=W) d set k).
Proof.
  apply keeps_lists_bind; [apply keeps_lists_getitem|].
  intros _. apply keeps_lists_with_self.
Qed.

Lemma remove_sub_key_lists (k : string) (s : Sys W) :
  lists (heap (remove_sub_key k s).2) = lists (heap s).
Proof.
  revert s. change (keeps_lists (remove_sub_key (W:=W) k)).
  unfold remove_sub_key. apply keeps_lists_try.
  - apply keeps_lists_bind.
    { intros s. unfold sub_keys_remove.
      destruct (list_remove k (sub_keys (self s))); reflexivity. }
    intros _. repeat (apply keeps_lists_bind; [apply keeps_lists_delitem|intros _]).
    apply keeps_lists_bind; [apply keeps_lists_getitem|intros tid].
    apply keeps_lists_bind; [intros s; reflexivity|intros _].
    apply keeps_lists_delitem.
  - intros e s. reflexivity.
Qed.

Lemma remove_each_lists (ks : list string) (s : Sys W) :
  lists (heap (for_each ks remove_sub_key s).2) = lists (heap s).
Proof.
  revert s. induction ks as [|k ks IH]; intros s; [reflexivity|].
  cbn [for_each]. unfold bind at 1.
  pose proof (remove_sub_key_lists k s) as Hl.
  destruct (remove_sub_key k s) as [[u|e] s1]; cbn [snd] in *.
  - rewrite IH. exact Hl.
  - exact Hl.
Qed.

Lemma run_iteration_frame deliver confirm (tid : nat) (h h' : Heap) (w w' : W)
    (b : bool) (tr : list Event) :
  TaskLoop.run_iteration deliver confirm 1 tid h w = Some (b, h', w', tr) ->
  length (lists h') = length (lists h) /\ tasks h' = tasks h /\
  (queues_sorted h -> queues_sorted h').
Proof.
  unfold TaskLoop.run_iteration.
  destruct (DeliveryTask.keep_running (task_at h tid)); cbn [negb];
    [|intros [= <- <- <- <-]; auto].
  destruct (list_at h (DeliveryTask.delivery_list (task_at h tid)))
    as [|x q] eqn:Hq; [intros [= <- <- <- <-]; auto|].
  destruct (DeliveryTask._run_delivery deliver confirm
              (DeliveryTask.sub_key (task_at h tid)) (x :: q) w)
    as [[[[o q'] w1] tr1]|] eqn:Hrun; [|discriminate].
  assert (length (lists (set_list (DeliveryTask.delivery_list (task_at h tid)) q' h))
            = length (lists h) /\
          tasks (set_list (DeliveryTask.delivery_list (task_at h tid)) q' h)
            = tasks h /\
          (queues_sorted h ->
           queues_sorted (set_list (DeliveryTask.delivery_list (task_at h tid)) q' h)))
    as Hset.
  { split; [apply length_insert|]. split; [reflexivity|].
    intros Hh. apply queues_sorted_set_list; [exact Hh|].
    eapply sorted_sublist.
    - eapply pass_sublist, loop_derivation, Hrun.
    - rewrite <- Hq. apply sorted_list_at, Hh. }
  destruct o; [| destruct (randint 10 20 w1) |];
    intros [= <- <- <- <-]; exact Hset.
Qed.

(** Every reachable state is consistent and all its queues are ascending:
    the hypotheses of the per-method results hold wherever the methods can
    be called. *)
Lemma reachable_invariant (s : Sys W) :
  reachable s -> consistent s /\ queues_sorted (heap s).
Proof.
  induction 1 as [ w | k s Hr IH | k s Hr IH | s Hr IH | k msgs s Hr IH
                 | k session s Hr IH | cid has_gd keys msgs s Hr IH
                 | tid s b h' w' tr Hr IH Hit ].
  - split; [apply initial_consistent|constructor].
  - destruct IH as [Hs Hq]. split; [apply add_sub_key_consistent, Hs|].
    unfold add_sub_key.
    destruct (decide (k ∈ sub_keys (self s))) as [Hin|Hout].
    + rewrite add_sub_key_seen by assumption. exact Hq.
    + rewrite add_sub_key_fresh by assumption. unfold queues_sorted. cbn.
      apply Forall_app. split; [exact Hq|]. repeat constructor.
  - destruct IH as [Hs Hq]. split.
    + destruct (decide (k ∈ sub_keys (self s))) as [Hin|Hout].
      * apply remove_sub_key_consistent; assumption.
      * rewrite (remove_sub_key_unknown k s Hout). cbn.
        eapply consistent_frame; [| | |exact Hs]; reflexivity.
    + unfold queues_sorted. rewrite remove_sub_key_lists. exact Hq.
  - destruct IH as [Hs Hq]. unfold remove_all_sub_keys. split.
    + destruct (remove_each (sub_keys (self s)) s Hs (cons_nodup s Hs))
        as (s2 & Hrun & Hs2 & _); [auto|].
      rewrite Hrun. exact Hs2.
    + unfold queues_sorted. rewrite remove_each_lists. exact Hq.
  - apply (frame_invariant s); [|exact IH].
    unfold add_non_gd_messages_by_sub_key, bind, getitem.
    destruct (sub_key_locks (self s) !! k); [|apply frame_refl].
    apply frame_add_non_gd.
  - apply (frame_invariant s); [|exact IH].
    unfold fetch_gd_messages_by_sub_key, bind, getitem.
    destruct (sub_key_locks (self s) !! k); [|apply frame_refl].
    apply frame_fetch.
  - apply (frame_invariant s); [|exact IH].
    unfold handle_new_messages. apply frame_for_each.
    intros k s0. apply frame_handle_sub_key.
  - destruct IH as [Hs Hq].
    destruct (run_iteration_frame _ _ _ _ _ _ _ _ _ Hit) as (Hlen & Hts & Hsorted).
    split; [|cbn; auto].
    eapply consistent_frame; [| | |exact Hs]; cbn;
      [reflexivity|exact Hlen|rewrite Hts; reflexivity].
Qed.

End Reachable.

(** * Further properties *)

(** ** Ordering and insertion *)

(** X1.  [__cmp__] is a total preorder on messages: it only takes the values
    -1, 0 and 1, a message compares equal to itself, "not after" is
    transitive, two messages are always comparable, and the result depends
    on nothing but the three ordering fields, so two messages that differ
    only in other fields, such as their identifier, compare equal. *)
Theorem cmp_total_preorder (a b c a' b' : Message) :
  (__cmp__ a b = -1 \/ __cmp__ a b = 0 \/ __cmp__ a b = 1) /\
  __cmp__ a a = 0 /\
  (__cmp__ a b <= 0 -> __cmp__ b c <= 0 -> __cmp__ a c <= 0) /\
  (__cmp__ a b <= 0 \/ __cmp__ b a <= 0) /\
  (priority a = priority a' -> ext_pub_time a = ext_pub_time a' ->
   pub_time a = pub_time a' ->
   priority b = priority b' -> ext_pub_time b = ext_pub_time b' ->
   pub_time b = pub_time b' ->
   __cmp__ a b = __cmp__ a' b').
Proof.
  split; [apply cmp_values|]. split; [apply cmp_refl|]. split; [|split].
  - intros Hab Hbc.
    assert (SortedList.le a b) as H1
      by (unfold SortedList.le; rewrite cmp_antisym; lia).
    assert (SortedList.le b c) as H2
      by (unfold SortedList.le; rewrite cmp_antisym; lia).
    pose proof (le_trans a b c H1 H2) as H3.
    unfold SortedList.le in H3. rewrite cmp_antisym in H3. lia.
  - rewrite (cmp_antisym a b).
    destruct (cmp_values a b) as [Hc|[Hc|Hc]]; rewrite Hc; lia.
  - intros Hp He Ht Hp' He' Ht'. unfold __cmp__.
    rewrite Hp, He, Ht, Hp', He', Ht'. reflexivity.
Qed.

Lemma cmp_total_preorder_witness :
  __cmp__ (Stub.msg "a" 9 1 1) (Stub.msg "c" 5 1 1) <= 0 /\
  __cmp__ (Stub.msg "b" 7 1 1) (Stub.msg "other" 7 1 1) = 0.
Proof.
  destruct (cmp_total_preorder (Stub.msg "a" 9 1 1) (Stub.msg "b" 7 1 1)
              (Stub.msg "c" 5 1 1) (Stub.msg "a" 9 1 1) (Stub.msg "b" 7 1 1))
    as (_ & _ & Htrans & _ & _).
  split.
  - apply Htrans; vm_compute; discriminate.
  - destruct (cmp_total_preorder (Stub.msg "b" 7 1 1) (Stub.msg "b" 7 1 1)
                (Stub.msg "c" 5 1 1) (Stub.msg "b" 7 1 1)
                (Stub.msg "other" 7 1 1)) as (_ & Hrefl & _ & _ & Hkey).
    rewrite <- (Hkey eq_refl eq_refl eq_refl eq_refl eq_refl eq_refl).
    exact Hrefl.
Defined.

(** X2.  Where [add] puts a message in an ascending queue: behind every
    queued entry that does not sort strictly after it and in front of all
    those that do.  Messages already queued keep their relative order, and
    a message whose key equals that of queued ones goes behind them, so
    equal keys are iterated in arrival order. *)
Theorem add_position (l : list Message) (x : Message) :
  SortedList.sorted l ->
  exists pre post,
    l = pre ++ post /\ SortedList.add l x = pre ++ x :: post /\
    (forall y, y ∈ pre -> Msg.lt x y = false) /\
    (forall y, y ∈ post -> Msg.lt x y = true).
Proof.
  induction 1 as [|y l Hl IH Hy].
  - exists [], []. split; [reflexivity|]. split; [reflexivity|].
    split; intros y Hy; inversion Hy.
  - rewrite add_cons. destruct (Msg.lt x y) eqn:E.
    + exists [], (y :: l). split; [reflexivity|]. split; [reflexivity|].
      split; [intros z Hz; inversion Hz|].
      intros z Hz. apply elem_of_cons in Hz as [->|Hz]; [exact E|].
      rewrite Forall_forall in Hy. specialize (Hy z Hz).
      apply le_fields in Hy. apply lt_true in E. apply lt_true. lia.
    + destruct IH as (pre & post & -> & Hadd & Hpre & Hpost).
      exists (y :: pre), post. split; [reflexivity|].
      split; [rewrite Hadd; reflexivity|]. split; [|exact Hpost].
      intros z Hz. apply elem_of_cons in Hz as [->|Hz]; auto.
Qed.

Lemma add_position_witness :
  exists pre post,
    [Stub.msg "a" 9 1 1; Stub.msg "b" 5 1 1; Stub.msg "d" 1 1 1] =
      pre ++ post /\
    SortedList.add [Stub.msg "a" 9 1 1; Stub.msg "b" 5 1 1; Stub.msg "d" 1 1 1]
      (Stub.msg "c" 5 1 1) = pre ++ Stub.msg "c" 5 1 1 :: post /\
    (forall y, y ∈ pre -> Msg.lt (Stub.msg "c" 5 1 1) y = false) /\
    (forall y, y ∈ post -> Msg.lt (Stub.msg "c" 5 1 1) y = true).
Proof.
  apply (add_position
           [Stub.msg "a" 9 1 1; Stub.msg "b" 5 1 1; Stub.msg "d" 1 1 1]
           (Stub.msg "c" 5 1 1)).
  repeat constructor; vm_compute; discriminate.
Defined.

(** Inserting a batch never drops, merges or duplicates anything: the
    result holds exactly the old entries and the new ones. *)
Lemma add_Permutation (l : list Message) (x : Message) :
  SortedList.add l x ≡ₚ x :: l.
Proof.
  induction l as [|y l IH]; [reflexivity|].
  rewrite add_cons. destruct (Msg.lt x y); [reflexivity|].
  rewrite IH. apply Permutation_swap.
Qed.

Lemma update_Permutation (ms q : list Message) :
  SortedList.update q ms ≡ₚ q ++ ms.
Proof.
  revert q. induction ms as [|m ms IH]; intros q; cbn.
  - rewrite app_nil_r. reflexivity.
  - unfold SortedList.update in IH. rewrite IH, add_Permutation.
    cbn. apply Permutation_middle.
Qed.

Lemma update_length (ms q : list Message) :
  length (SortedList.update q ms) = (length q + length ms)%nat.
Proof. rewrite update_Permutation. apply length_app. Qed.

(** ** More about one pass *)

Section PassAccounting.

Context {W : Type}.
Variable deliver : Message -> W -> Result unit * W.
Variable confirm : string -> Val -> W -> Result unit * W.
Variable k : string.

Local Abbreviation derivation := (pass_from deliver confirm k).

Lemma removed_of_spec (tr : list Event) (m : Message) :
  m ∈ removed_of tr <-> Removed m ∈ tr.
Proof.
  unfold removed_of. rewrite list_elem_of_omap. split.
  - intros (e & He & Hm). destruct e; try discriminate.
    injection Hm as ->. exact He.
  - intros He. exists (Removed m). auto.
Qed.

Lemma delivered_of_spec (tr : list Event) (m : Message) :
  m ∈ delivered_of tr <-> Delivered m ∈ tr.
Proof.
  unfold delivered_of. rewrite list_elem_of_omap. split.
  - intros (e & He & Hm). destruct e; try discriminate.
    injection Hm as ->. exact He.
  - intros He. exists (Delivered m). auto.
Qed.

(** Entries leave the queue one per [Removed] event, and the transport is
    called at most once per entry that lay ahead of the iterator. *)
Lemma pass_accounting l i w o l' w' tr :
  derivation l i w o l' w' tr ->
  length l = (length l' + length (removed_of tr))%nat /\
  (length (delivered_of tr) <= length l - i)%nat.
Proof.
  induction 1 as [ l i w Hi | l i w msg e w1 Hi Hd
                 | l i w msg u e w1 w2 o l' w' tr Hi Hd Hc Hrec IH
                 | l i w msg u u' e w1 w2 Hi Hd Hc Hr
                 | l i w msg u u' w1 w2 l1 o l' w' tr Hi Hd Hc Hr Hrec IH ];
    unfold removed_of, delivered_of in *; cbn.
  - lia.
  - lia.
  - destruct IH as [IH1 IH2]. apply lookup_lt_Some in Hi. split; lia.
  - apply lookup_lt_Some in Hi. split; lia.
  - destruct IH as [IH1 IH2].
    destruct (remove_shape _ _ _ _ Hi Hr) as (j & Hj & Hjl & ->).
    rewrite length_delete in IH1, IH2 by (eapply lookup_lt_is_Some_2; lia).
    apply lookup_lt_Some in Hi. split; lia.
Qed.

Lemma every_other_cons {A} (x : A) (l : list A) :
  every_other (x :: l) = x :: every_other (drop 1 l).
Proof. destruct l; reflexivity. Qed.

Lemma every_other_split {A} (l : list A) :
  every_other l = take 1 l ++ every_other (drop 2 l).
Proof. destruct l as [|a [|b l]]; reflexivity. Qed.

(** With pairwise distinct keys and callbacks that always succeed, the
    iterator delivers and removes the entry it stands on and then stands
    two entries further on. *)
Lemma pass_every_other l i w o l' w' tr :
  (forall m w0, exists w1, deliver m w0 = (Ok tt, w1)) ->
  (forall key id w0, exists w1, confirm key id w0 = (Ok tt, w1)) ->
  derivation l i w o l' w' tr -> SortedList.strictly_sorted l ->
  o = DeliveryTask.ReturnedTrue /\
  l' = take i l ++ every_other (drop (S i) l) /\
  delivered_of tr = every_other (drop i l) /\
  removed_of tr = every_other (drop i l).
Proof.
  intros Hdel Hconf.
  induction 1 as [ l i w Hi | l i w msg e w1 Hi Hd
                 | l i w msg u e w1 w2 o l' w' tr Hi Hd Hc Hrec IH
                 | l i w msg u u' e w1 w2 Hi Hd Hc Hr
                 | l i w msg u u' w1 w2 l1 o l' w' tr Hi Hd Hc Hr Hrec IH ];
    intros Hl.
  - apply lookup_ge_None in Hi.
    rewrite !drop_ge, take_ge, app_nil_r by lia. auto.
  - destruct (Hdel msg w) as [w0 Hw0]. congruence.
  - destruct (Hconf k (pub_msg_id msg) w1) as [w0 Hw0]. congruence.
  - rewrite (remove_strict l i msg Hl Hi) in Hr. discriminate.
  - rewrite (remove_strict l i msg Hl Hi) in Hr. injection Hr as <-.
    destruct IH as (-> & -> & Hdl & Hrm);
      [apply StronglySorted_delete, Hl|].
    pose proof (lookup_lt_Some _ _ _ Hi) as Hlt.
    rewrite (drop_delete_le l (S i) i) in Hdl, Hrm by lia.
    rewrite (drop_delete_le l (S (S i)) i) by lia.
    split; [reflexivity|]. split; [|split].
    + rewrite delete_take_drop.
      rewrite take_app, length_take_le by lia.
      rewrite take_take, Nat.min_r by lia.
      replace (S i - i)%nat with 1%nat by lia.
      rewrite (every_other_split (drop (S i) l)), drop_drop.
      replace (S i + 2)%nat with (S (S (S i))) by lia.
      rewrite <- app_assoc. reflexivity.
    + unfold delivered_of in *. cbn.
      rewrite Hdl, (drop_S _ _ _ Hi), every_other_cons, drop_drop.
      replace (S i + 1)%nat with (S (S i)) by lia. reflexivity.
    + unfold removed_of in *. cbn.
      rewrite Hrm, (drop_S _ _ _ Hi), every_other_cons, drop_drop.
      replace (S i + 1)%nat with (S (S i)) by lia. reflexivity.
Qed.

End PassAccounting.

(** X3.  A pass, over any queue and with any callbacks, ends.  The queue
    after it is the queue before it with some entries taken out, never
    reordered or added to.  As many entries leave as calls of [remove]
    return, and each of those calls is made for a message that was
    delivered and confirmed in that pass.  An entry that has left has the
    ordering key of such a message, and is such a message itself when no
    other queued entry has its ordering key.  The transport is called,
    successfully or not, at most as many times as there were entries.  A
    pass over an empty queue returns the success indicator and does
    nothing. *)
Theorem pass_takes_out_only_confirmed {W : Type}
    (deliver : Message -> W -> Result unit * W)
    (confirm : string -> Val -> W -> Result unit * W)
    (k : string) (q : list Message) (w : W) :
  exists o q' w' tr,
    DeliveryTask._run_delivery deliver confirm k q w = Some (o, q', w', tr) /\
    q' `sublist_of` q /\
    length q = (length q' + length (removed_of tr))%nat /\
    (length (attempted_of tr) <= length q)%nat /\
    (forall m, m ∈ removed_of tr -> Confirmed m ∈ tr /\ Delivered m ∈ tr) /\
    (forall m, m ∈ q -> m ∉ q' ->
       exists m', __cmp__ m m' = 0 /\ m' ∈ removed_of tr) /\
    (forall m, m ∈ q -> m ∉ q' ->
       (forall x, x ∈ q -> __cmp__ m x = 0 -> x = m) ->
       Confirmed m ∈ tr /\ Delivered m ∈ tr) /\
    (q = [] -> o = DeliveryTask.ReturnedTrue /\ q' = [] /\ tr = [] /\ w' = w).
Proof.
  destruct (run_delivery_total deliver confirm k q w)
    as [[[[o q'] w'] tr] Hrun].
  exists o, q', w', tr. split; [exact Hrun|].
  pose proof (loop_derivation _ _ _ _ _ _ _ _ _ _ _ Hrun) as Hder.
  split; [eapply pass_sublist; eauto|].
  destruct (pass_accounting _ _ _ _ _ _ _ _ _ _ Hder) as [Hlen _].
  split; [exact Hlen|].
  split; [pose proof (pass_attempts _ _ _ _ _ _ _ _ _ _ Hder); lia|].
  assert (forall m, Removed m ∈ tr -> Confirmed m ∈ tr /\ Delivered m ∈ tr)
    as Hcalls.
  { intros m Hm.
    destruct (pass_event_order _ _ _ _ _ _ _ _ _ _ m Hder) as (Hcd & _ & Hrc).
    auto. }
  split; [intros m Hm; apply Hcalls, removed_of_spec, Hm|].
  split; [|split].
  - intros m Hin Hout.
    destruct (pass_gone_equal_key _ _ _ _ _ _ _ _ _ _ _ Hder Hin Hout)
      as (m' & Hrem & Heq).
    exists m'. split; [exact Heq|]. apply removed_of_spec, Hrem.
  - intros m Hin Hout Huniq.
    destruct (pass_gone_equal_key _ _ _ _ _ _ _ _ _ _ _ Hder Hin Hout)
      as (m' & Hrem & Heq).
    assert (m' = m) as ->; [|apply Hcalls, Hrem].
    apply Huniq; [|exact Heq].
    eapply pass_events_queued; [exact Hder|exact Hrem|reflexivity].
  - intros ->. cbn in Hrun. injection Hrun as <- <- <- <-. auto.
Qed.

(** Three messages with one ordering key, every call succeeding: A and C
    are delivered and confirmed, A and B leave the queue. *)
Lemma pass_takes_out_only_confirmed_witness :
  let A := Stub.msg "A" 5 10 1 in
  let B := Stub.msg "B" 5 10 1 in
  let C := Stub.msg "C" 5 10 1 in
  exists o w' tr,
    PubSubTool.task_pass "k" [A; B; C] (Stub.world [] []) =
      Some (o, [C], w', tr) /\
    (length (attempted_of tr) <= 3)%nat /\
    exists m', __cmp__ B m' = 0 /\ m' ∈ removed_of tr.
Proof.
  intros A B C.
  destruct (pass_takes_out_only_confirmed Stub.deliver Stub.confirm "k"
              [A; B; C] (Stub.world [] []))
    as (o & q' & w' & tr & Hrun & _ & _ & Hcalls & _ & Hgone & _).
  pose proof Hrun as Heval. vm_compute in Heval.
  injection Heval as <- <- <- <-.
  eexists _, _, _. split; [exact Hrun|]. split; [exact Hcalls|].
  apply Hgone.
  - rewrite !elem_of_cons. auto.
  - intros Hin. apply list_elem_of_singleton in Hin. discriminate Hin.
Defined.

(** X4.  On an ascending queue a pass never ends with an exception, because
    [remove] always finds the message it is given, and the queue is still
    ascending afterwards. *)
Theorem pass_keeps_queue_ascending {W : Type}
    (deliver : Message -> W -> Result unit * W)
    (confirm : string -> Val -> W -> Result unit * W)
    (k : string) (q : list Message) (w : W) :
  SortedList.sorted q ->
  exists o q' w' tr,
    DeliveryTask._run_delivery deliver confirm k q w = Some (o, q', w', tr) /\
    (o = DeliveryTask.ReturnedTrue \/ o = DeliveryTask.ReturnedNone) /\
    SortedList.sorted q'.
Proof.
  intros Hq.
  destruct (run_delivery_total deliver confirm k q w)
    as [[[[o q'] w'] tr] Hrun].
  exists o, q', w', tr. split; [exact Hrun|].
  pose proof (loop_derivation _ _ _ _ _ _ _ _ _ _ _ Hrun) as Hder.
  split.
  - pose proof (pass_outcome _ _ _ _ _ _ _ _ _ _ Hder) as Hout.
    destruct o; auto. contradiction.
  - eapply sorted_sublist; [eapply pass_sublist; eauto|exact Hq].
Qed.

Lemma pass_keeps_queue_ascending_witness :
  exists o q' w' tr,
    PubSubTool.task_pass "k"
      [Stub.msg "A" 9 100 1; Stub.msg "B" 5 50 2; Stub.msg "C" 5 50 2]
      (Stub.world [true; false] [false]) = Some (o, q', w', tr) /\
    SortedList.sorted q'.
Proof.
  destruct (pass_keeps_queue_ascending Stub.deliver Stub.confirm "k"
              [Stub.msg "A" 9 100 1; Stub.msg "B" 5 50 2; Stub.msg "C" 5 50 2]
              (Stub.world [true; false] [false]))
    as (o & q' & w' & tr & Hrun & _ & Hs).
  { repeat constructor; vm_compute; discriminate. }
  exists o, q', w', tr. split; [exact Hrun|exact Hs].
Defined.

(** X5.  When every transport and confirmation call succeeds and the
    queued messages have pairwise distinct ordering keys, one pass delivers
    and removes the entries at positions 0, 2, 4, ... and leaves those at
    positions 1, 3, 5, ... queued without attempting them; it still returns
    the success indicator.  A queue of n messages is thus left with n / 2
    (rounded down) messages after a fully successful pass. *)
Theorem successful_pass_takes_every_other {W : Type}
    (deliver : Message -> W -> Result unit * W)
    (confirm : string -> Val -> W -> Result unit * W)
    (k : string) (q : list Message) (w : W) :
  (forall m w0, exists w1, deliver m w0 = (Ok tt, w1)) ->
  (forall key id w0, exists w1, confirm key id w0 = (Ok tt, w1)) ->
  SortedList.strictly_sorted q ->
  exists w' tr,
    DeliveryTask._run_delivery deliver confirm k q w =
      Some (DeliveryTask.ReturnedTrue, every_other (drop 1 q), w', tr) /\
    delivered_of tr = every_other q /\
    removed_of tr = every_other q /\
    (forall m, m ∈ every_other (drop 1 q) ->
       (Delivered m ∉ tr) /\ (DeliverFailed m ∉ tr)).
Proof.
  intros Hdel Hconf Hq.
  destruct (run_delivery_total deliver confirm k q w)
    as [[[[o q'] w'] tr] Hrun].
  pose proof (loop_derivation _ _ _ _ _ _ _ _ _ _ _ Hrun) as Hder.
  destruct (pass_every_other deliver confirm k _ _ _ _ _ _ _ Hdel Hconf Hder Hq)
    as (-> & -> & Hdl & Hrm).
  rewrite drop_0 in Hdl, Hrm. cbn [take app] in *.
  exists w', tr. split; [exact Hrun|]. split; [exact Hdl|].
  split; [exact Hrm|].
  intros m Hm.
  assert (m ∉ every_other q) as Hnot.
  { intros Hin. rewrite <- Hrm in Hin. apply removed_of_spec in Hin.
    destruct (pass_event_order _ _ _ _ _ _ _ _ _ _ m Hder) as (_ & _ & Hrc).
    destruct (pass_confirmed_leaves _ _ _ _ _ _ _ _ _ _ m Hder Hq (Hrc Hin))
      as [_ Hgone]. contradiction. }
  split.
  - intros Hd. apply Hnot. rewrite <- Hdl. apply delivered_of_spec. exact Hd.
  - intros Hf.
    pose proof (pass_outcome _ _ _ _ _ _ _ _ _ _ Hder) as Hout. cbn in Hout.
    eapply Hout; eauto.
Qed.

Lemma successful_pass_takes_every_other_witness :
  let A := Stub.msg "A" 9 1 1 in
  let B := Stub.msg "B" 8 1 1 in
  let C := Stub.msg "C" 7 1 1 in
  let D := Stub.msg "D" 6 1 1 in
  let E := Stub.msg "E" 5 1 1 in
  exists w' tr,
    DeliveryTask._run_delivery
      (fun (_ : Message) (w : unit) => (Ok tt, w))
      (fun (_ : string) (_ : Val) (w : unit) => (Ok tt, w))
      "k" [A; B; C; D; E] tt =
      Some (DeliveryTask.ReturnedTrue, [B; D], w', tr) /\
    delivered_of tr = [A; C; E].
Proof.
  intros A B C D E.
  destruct (successful_pass_takes_every_other
              (fun (_ : Message) (w : unit) => (Ok tt, w))
              (fun (_ : string) (_ : Val) (w : unit) => (Ok tt, w))
              "k" [A; B; C; D; E] tt)
    as (w' & tr & Hrun & Hdl & _).
  { intros m w0. eauto. }
  { intros key id w0. eauto. }
  { repeat constructor; vm_compute; reflexivity. }
  exists w', tr. split; [exact Hrun|exact Hdl].
Defined.

(** X6.  If the transport and then the confirmation succeed for the first
    queued message, the pass takes exactly that message off the front of
    the queue, whatever happens to the messages behind it: the queue
    shrinks, so a subscriber whose endpoint accepts the head message always
    makes progress. *)
Theorem head_success_makes_progress {W : Type}
    (deliver : Message -> W -> Result unit * W)
    (confirm : string -> Val -> W -> Result unit * W)
    (k : string) (h : Message) (t : list Message) (w w1 w2 : W) (u u' : unit) :
  deliver h w = (Ok u, w1) ->
  confirm k (pub_msg_id h) w1 = (Ok u', w2) ->
  exists o q' w' tr,
    DeliveryTask._run_delivery deliver confirm k (h :: t) w =
      Some (o, q', w', [Delivered h; Confirmed h; Removed h] ++ tr) /\
    q' `sublist_of` t /\ (length q' < length (h :: t))%nat.
Proof.
  intros Hd Hc.
  destruct (loop_total deliver confirm k (length (h :: t)) t 1 w2)
    as [[[[o q'] w'] tr] Hrec]; [cbn; lia|].
  exists o, q', w', tr.
  assert (SortedList.remove (h :: t) h = Ok t) as Hrm.
  { unfold SortedList.remove. cbn. rewrite lt_irrefl. cbn.
    rewrite eq_refl_msg. reflexivity. }
  split.
  - unfold DeliveryTask._run_delivery.
    cbn [DeliveryTask.delivery_loop lookup list_lookup].
    cbn [lookup]. change ((h :: t) !! 0%nat) with (Some h).
    cbn iota. rewrite Hd, Hc, Hrm, Hrec. reflexivity.
  - pose proof (pass_sublist _ _ _ _ _ _ _ _ _ _
                  (loop_derivation _ _ _ _ _ _ _ _ _ _ _ Hrec)) as Hsub.
    split; [exact Hsub|]. apply sublist_length in Hsub. cbn. lia.
Qed.

Lemma head_success_makes_progress_witness :
  exists o q' w' tr,
    PubSubTool.task_pass "k" [Stub.msg "A" 9 1 1; Stub.msg "B" 5 1 1]
      (Stub.world [true; false] []) =
      Some (o, q', w',
            [Delivered (Stub.msg "A" 9 1 1); Confirmed (Stub.msg "A" 9 1 1);
             Removed (Stub.msg "A" 9 1 1)] ++ tr) /\
    (length q' < 2)%nat.
Proof.
  destruct (head_success_makes_progress Stub.deliver Stub.confirm "k"
              (Stub.msg "A" 9 1 1) [Stub.msg "B" 5 1 1]
              (Stub.world [true; false] []) (Stub.world [false] [])
              (Stub.world [false] []) tt tt eq_refl eq_refl)
    as (o & q' & w' & tr & Hrun & _ & Hlen).
  exists o, q', w', tr. split; [exact Hrun|exact Hlen].
Defined.

(** ** More about the task loop *)

Section LoopRuns.

Context {W : Type} `{Collaborators W}.
Variable deliver : Message -> W -> Result unit * W.
Variable confirm : string -> Val -> W -> Result unit * W.

Lemma sleeps_of_app (tr1 tr2 : list Event) :
  sleeps_of (tr1 ++ tr2) = sleeps_of tr1 ++ sleeps_of tr2.
Proof. apply omap_app. Qed.

Lemma sleeps_of_pass k l i w o l' w' tr :
  pass_from deliver confirm k l i w o l' w' tr -> sleeps_of tr = [].
Proof.
  intros Hder. destruct (sleeps_of tr) as [|t ts] eqn:E; [reflexivity|].
  exfalso. eapply (pass_never_sleeps deliver confirm _ _ _ _ _ _ _ _ t Hder).
  assert (t ∈ sleeps_of tr) as Ht by (rewrite E; left).
  unfold sleeps_of in Ht. apply list_elem_of_omap in Ht as (e & He & Hs).
  destruct e; try discriminate. injection Hs as ->. exact He.
Qed.

(** One iteration always completes, sleeps at most once, and then for 1
    or for a value between 10 and 20. *)
Lemma run_iteration_sleeps tid h w :
  exists b h' w' tr,
    TaskLoop.run_iteration deliver confirm 1 tid h w = Some (b, h', w', tr) /\
    (sleeps_of tr = [] \/ sleeps_of tr = [1] \/
     exists t, sleeps_of tr = [t] /\ 10 <= t <= 20) /\
    (b = true -> sleeps_of tr <> []) /\
    (DeliveryTask.keep_running (task_at h tid) = false ->
     b = false /\ h' = h /\ w' = w /\ tr = []).
Proof.
  destruct (DeliveryTask.keep_running (task_at h tid)) eqn:Hk.
  - destruct (list_at h (DeliveryTask.delivery_list (task_at h tid)))
      as [|x q] eqn:Hq.
    + rewrite run_iteration_idle by assumption.
      do 4 eexists. split; [reflexivity|]. cbn.
      split; [right; left; reflexivity|]. split; [discriminate|discriminate].
    + destruct (run_delivery_total deliver confirm
                  (DeliveryTask.sub_key (task_at h tid)) (x :: q) w)
        as [[[[o q'] w1] tr] Hrun].
      rewrite <- Hq in Hrun.
      rewrite (run_iteration_pass deliver confirm 1 tid h w o q' w1 tr Hk)
        by (rewrite ?Hq; congruence).
      pose proof (sleeps_of_pass _ _ _ _ _ _ _ _
                    (loop_derivation _ _ _ _ _ _ _ _ _ _ _ Hrun)) as Hs.
      destruct o; do 4 eexists; (split; [reflexivity|]);
        rewrite sleeps_of_app, Hs; cbn.
      * split; [right; left; reflexivity|].
        split; [discriminate|discriminate].
      * split; [|split; [discriminate|discriminate]].
        right. right. eexists. split; [reflexivity|].
        apply randint_range. lia.
      * split; [left; reflexivity|]. split; [discriminate|discriminate].
  - unfold TaskLoop.run_iteration. rewrite Hk. cbn.
    exists false, h, w, []. split; [reflexivity|].
    split; [left; reflexivity|]. split; [discriminate|auto].
Qed.

End LoopRuns.

(** X7.  The loop of a task, followed for any number [n] of iterations,
    always gets that far; it sleeps at most [n] times, each time either
    exactly 1 or between 10 and 20, and never otherwise; a task whose flag
    is already cleared leaves the loop at once without delivering, sleeping
    or changing anything. *)
Theorem run_sleeps_between_iterations {W : Type} `{Collaborators W}
    (deliver : Message -> W -> Result unit * W)
    (confirm : string -> Val -> W -> Result unit * W)
    (n : nat) (tid : nat) (h : Heap) (w : W) :
  exists h' w' tr,
    TaskLoop.run deliver confirm n 1 tid h w = Some (h', w', tr) /\
    (length (sleeps_of tr) <= n)%nat /\
    (forall t, t ∈ sleeps_of tr -> t = 1 \/ 10 <= t <= 20) /\
    (DeliveryTask.keep_running (task_at h tid) = false ->
     h' = h /\ w' = w /\ tr = []).
Proof.
  revert h w. induction n as [|n IH]; intros h w.
  - exists h, w, []. split; [reflexivity|]. cbn.
    split; [lia|]. split; [intros t Ht; inversion Ht|auto].
  - cbn [TaskLoop.run].
    destruct (run_iteration_sleeps deliver confirm tid h w)
      as (b & h1 & w1 & tr1 & Hit & Hs1 & _ & Hstop).
    rewrite Hit.
    assert (forall t, t ∈ sleeps_of tr1 -> t = 1 \/ 10 <= t <= 20) as Hin1.
    { intros t Ht. destruct Hs1 as [Hs|[Hs|(t' & Hs & Hr)]];
        rewrite Hs in Ht.
      - inversion Ht.
      - apply list_elem_of_singleton in Ht. auto.
      - apply list_elem_of_singleton in Ht. subst. auto. }
    assert (length (sleeps_of tr1) <= 1)%nat as Hlen1.
    { destruct Hs1 as [Hs|[Hs|(t' & Hs & Hr)]]; rewrite Hs; cbn; lia. }
    destruct b.
    + destruct (IH h1 w1) as (h' & w' & tr & Hrun & Hlen & Hin & _).
      rewrite Hrun. exists h', w', (tr1 ++ tr). split; [reflexivity|].
      rewrite sleeps_of_app, length_app. split; [lia|]. split.
      * intros t Ht. apply elem_of_app in Ht as [Ht|Ht]; auto.
      * intros Hk. destruct (Hstop Hk) as [Hb _]. discriminate.
    + exists h1, w1, tr1. split; [reflexivity|]. split; [lia|].
      split; [exact Hin1|]. intros Hk. destruct (Hstop Hk) as (_ & ? & ? & ?).
      auto.
Qed.

Lemma run_sleeps_between_iterations_witness :
  let task := {| DeliveryTask.keep_running := false;
                 DeliveryTask.sub_key := "k";
                 DeliveryTask.delivery_lock := 0%nat;
                 DeliveryTask.delivery_list := 0%nat |} in
  let h := {| lists := [[Stub.msg "A" 9 1 1]]; tasks := [task];
              locks := 1%nat |} in
  TaskLoop.run Stub.deliver Stub.confirm 5 1 0%nat h (Stub.world [] []) =
    Some (h, Stub.world [] [], []).
Proof.
  intros task h.
  destruct (run_sleeps_between_iterations Stub.deliver Stub.confirm 5 0%nat h
              (Stub.world [] [])) as (h' & w' & tr & Hrun & _ & _ & Hstop).
  destruct (Hstop eq_refl) as (-> & -> & ->). exact Hrun.
Defined.

(** ** Construction of ephemeral messages *)

Ltac absent_case :=
  cbn; split; [discriminate|];
  split; [intros key rest Hm; injection Hm as <- _; reflexivity|];
  split; [discriminate|assumption].

(** X8.  [NonGDMessage] succeeds exactly on dicts that have all fourteen
    keys, and then the message carries the dict's values unchanged (building
    a dict from a message and wrapping it gives the message back);
    otherwise it raises [KeyError] for the first key, in the order the
    constructor reads them, that the dict lacks, however many others are
    missing too. *)
Theorem NonGDMessage_needs_every_key (d : Dict) :
  (missing_keys d = [] ->
   exists m, NonGDMessage d = Ok m /\ dict_of_message m = d) /\
  (forall key rest, missing_keys d = key :: rest ->
     NonGDMessage d = Raise (KeyError key)) /\
  (forall m, NonGDMessage d = Ok m -> d = dict_of_message m) /\
  (forall m, NonGDMessage (dict_of_message m) = Ok m).
Proof.
  assert (forall m, NonGDMessage (dict_of_message m) = Ok m) as Hround
    by (intros []; reflexivity).
  destruct d as [f1 f2 f3 f4 f5 f6 f7 f8 f9 f10 f11 f12 f13 f14].
  unfold missing_keys, NonGDMessage. cbn.
  destruct f1; [|absent_case]. destruct f2; [|absent_case].
  destruct f3; [|absent_case]. destruct f4; [|absent_case].
  destruct f5; [|absent_case]. destruct f6; [|absent_case].
  destruct f7; [|absent_case]. destruct f8; [|absent_case].
  destruct f9; [|absent_case]. destruct f10; [|absent_case].
  destruct f11; [|absent_case]. destruct f12; [|absent_case].
  destruct f13; [|absent_case]. destruct f14; [|absent_case].
  cbn. split; [intros _; eexists; split; reflexivity|].
  split; [discriminate|]. split; [|exact Hround].
  intros m Hm. injection Hm as <-. reflexivity.
Qed.

Lemma NonGDMessage_needs_every_key_witness :
  NonGDMessage (Stub.dict_no_priority "e") = Raise (KeyError "priority") /\
  NonGDMessage (Stub.dict "e" 9 1 1) = Ok (Stub.msg "e" 9 1 1).
Proof.
  split.
  - destruct (NonGDMessage_needs_every_key (Stub.dict_no_priority "e"))
      as (_ & Hmiss & _).
    apply (Hmiss "priority"%string []). reflexivity.
  - destruct (NonGDMessage_needs_every_key (Stub.dict "e" 9 1 1))
      as (Hall & _).
    destruct (Hall eq_refl) as (m & Hm & Hd). rewrite Hm. f_equal.
    destruct m. cbn in Hd. injection Hd as -> -> -> -> -> -> -> -> -> -> -> -> -> ->.
    reflexivity.
Defined.

(** ** More about enqueueing *)

Section EnqueueMore.

Context {W : Type} `{Collaborators W}.

Import PubSubTool.

Lemma for_each_app {A} (l1 l2 : list A) (body : A -> M (W:=W) unit) (s : Sys W) :
  for_each (l1 ++ l2) body s =
  match for_each l1 body s with
  | (Ok _, s') => for_each l2 body s'
  | (Raise e, s') => (Raise e, s')
  end.
Proof.
  revert s. induction l1 as [|x l1 IH]; intros s; [reflexivity|].
  cbn [for_each app]. unfold bind.
  destruct (body x s) as [[u|e] s1]; [apply IH|reflexivity].
Qed.

(** A well-formed prefix of a batch is enqueued before a malformed dict
    stops the loop. *)
Lemma non_gd_prefix (good : list Dict) (bad : Dict) (rest : list Dict)
    (ms : list Message) (e : Exn) (k : string) (loc : nat) (s : Sys W) :
  delivery_lists (self s) !! k = Some loc ->
  (loc < length (lists (heap s)))%nat ->
  wrap_all good = Ok ms -> NonGDMessage bad = Raise e ->
  exists s1,
    _add_non_gd_messages_by_sub_key k (good ++ bad :: rest) s = (Raise e, s1) /\
    only_queue_changed loc (SortedList.update (list_at (heap s) loc) ms) s s1.
Proof.
  intros Hk Hloc Hgood Hbad.
  destruct (non_gd_loop good k loc s Hk Hloc)
    as (s1 & Hrun & Hself & Hw & Ht & Hts & Hlk & Hlen & Hoth & Hls).
  rewrite Hgood in Hrun. exists s1. split.
  - unfold _add_non_gd_messages_by_sub_key in *. rewrite for_each_app, Hrun.
    cbn [for_each]. unfold bind at 1. unfold bind at 1. unfold getitem at 1.
    rewrite Hself, Hk. unfold bind at 1. unfold lift at 1. rewrite Hbad.
    reflexivity.
  - unfold only_queue_changed. do 5 (split; [assumption|]).
    apply Hls. exact Hgood.
Qed.

End EnqueueMore.

(** X9.  [add_non_gd_messages_by_sub_key] on a registered key of a
    consistent registry, given dicts that all have the fourteen keys,
    returns normally; the queue of the key then holds exactly its old
    entries and one ephemeral message per dict, in ascending order if it was
    before; nothing else changes: not the registry, not the world, not the
    log, not the queue of any other key. *)
Theorem add_non_gd_enqueues_each_dict {W : Type} `{Collaborators W}
    (k : string) (msgs : list Dict) (ms : list Message) (s : PubSubTool.Sys W) :
  consistent s -> k ∈ PubSubTool.sub_keys (PubSubTool.self s) ->
  wrap_all msgs = Ok ms ->
  exists q s1,
    queue_of s k = Some q /\
    PubSubTool.add_non_gd_messages_by_sub_key k msgs s = (Ok tt, s1) /\
    queue_of s1 k = Some (SortedList.update q ms) /\
    SortedList.update q ms ≡ₚ q ++ ms /\
    (SortedList.sorted q -> SortedList.sorted (SortedList.update q ms)) /\
    PubSubTool.self s1 = PubSubTool.self s /\
    PubSubTool.world s1 = PubSubTool.world s /\
    PubSubTool.trace s1 = PubSubTool.trace s /\
    tasks (PubSubTool.heap s1) = tasks (PubSubTool.heap s) /\
    (forall k', k' <> k -> queue_of s1 k' = queue_of s k').
Proof.
  intros Hs Hk Hms.
  destruct (proj1 (cons_sub_key_locks s Hs k) Hk) as [lk Hlock].
  destruct (proj1 (cons_delivery_lists s Hs k) Hk) as [loc Hloc].
  pose proof (cons_lists_alloc s Hs k loc Hloc) as Hlt.
  destruct (non_gd_loop msgs k loc s Hloc Hlt)
    as (s1 & Hrun & Hself & Hw & Ht & Hts & Hlk & Hlen & Hoth & Hls).
  rewrite Hms in Hrun.
  exists (list_at (PubSubTool.heap s) loc), s1.
  split; [unfold queue_of; rewrite Hloc; reflexivity|].
  split.
  { unfold PubSubTool.add_non_gd_messages_by_sub_key, PubSubTool.bind,
      PubSubTool.getitem. rewrite Hlock. exact Hrun. }
  split; [eapply queue_of_here; eauto|].
  split; [apply update_Permutation|].
  split; [apply update_sorted|].
  do 4 (split; [assumption|]).
  intros k' Hne. eapply queue_of_other; eauto.
Qed.

Lemma add_non_gd_enqueues_each_dict_witness :
  let s := (PubSubTool.add_sub_key "k"
              (PubSubTool.initial (Stub.world [] []))).2 in
  exists s1,
    PubSubTool.add_non_gd_messages_by_sub_key "k"
      [Stub.dict "lo" 1 1 1; Stub.dict "hi" 9 1 1] s = (Ok tt, s1) /\
    queue_of s1 "k" = Some [Stub.msg "hi" 9 1 1; Stub.msg "lo" 1 1 1].
Proof.
  intros s.
  assert (consistent s) as Hs
    by (apply add_sub_key_consistent, initial_consistent).
  destruct (add_non_gd_enqueues_each_dict "k"
              [Stub.dict "lo" 1 1 1; Stub.dict "hi" 9 1 1]
              [Stub.msg "lo" 1 1 1; Stub.msg "hi" 9 1 1] s Hs)
    as (q & s1 & Hq & Hrun & Hq1 & _); [vm_compute; left|reflexivity|].
  assert (q = []) as -> by (vm_compute in Hq; congruence).
  exists s1. split; [exact Hrun|exact Hq1].
Defined.

(** X10.  When a dict of the batch lacks a key, the ephemeral messages built
    from the dicts in front of it are already in the queue when [KeyError]
    is raised, and stay there; the dicts behind it are never looked at.
    There is no rollback. *)
Theorem malformed_dict_keeps_earlier_ones {W : Type} `{Collaborators W}
    (k : string) (good : list Dict) (bad : Dict) (rest : list Dict)
    (ms : list Message) (e : Exn) (s : PubSubTool.Sys W) :
  consistent s -> k ∈ PubSubTool.sub_keys (PubSubTool.self s) ->
  wrap_all good = Ok ms -> NonGDMessage bad = Raise e ->
  exists q s1,
    queue_of s k = Some q /\
    PubSubTool.add_non_gd_messages_by_sub_key k (good ++ bad :: rest) s =
      (Raise e, s1) /\
    queue_of s1 k = Some (SortedList.update q ms) /\
    PubSubTool.self s1 = PubSubTool.self s.
Proof.
  intros Hs Hk Hgood Hbad.
  destruct (proj1 (cons_sub_key_locks s Hs k) Hk) as [lk Hlock].
  destruct (proj1 (cons_delivery_lists s Hs k) Hk) as [loc Hloc].
  pose proof (cons_lists_alloc s Hs k loc Hloc) as Hlt.
  destruct (non_gd_prefix good bad rest ms e k loc s Hloc Hlt Hgood Hbad)
    as (s1 & Hrun & Hself & _ & _ & _ & _ & Hls).
  exists (list_at (PubSubTool.heap s) loc), s1.
  split; [unfold queue_of; rewrite Hloc; reflexivity|].
  split.
  { unfold PubSubTool.add_non_gd_messages_by_sub_key, PubSubTool.bind,
      PubSubTool.getitem. rewrite Hlock. exact Hrun. }
  split; [eapply queue_of_here; eauto|exact Hself].
Qed.

Lemma malformed_dict_keeps_earlier_ones_witness :
  let s := (PubSubTool.add_sub_key "k"
              (PubSubTool.initial (Stub.world [] []))).2 in
  exists s1,
    PubSubTool.add_non_gd_messages_by_sub_key "k"
      [Stub.dict "a" 5 1 1; Stub.dict_no_priority "b"; Stub.dict "c" 5 1 1] s =
      (Raise (KeyError "priority"), s1) /\
    queue_of s1 "k" = Some [Stub.msg "a" 5 1 1].
Proof.
  intros s.
  assert (consistent s) as Hs
    by (apply add_sub_key_consistent, initial_consistent).
  destruct (malformed_dict_keeps_earlier_ones "k" [Stub.dict "a" 5 1 1]
              (Stub.dict_no_priority "b") [Stub.dict "c" 5 1 1]
              [Stub.msg "a" 5 1 1] (KeyError "priority") s Hs)
    as (q & s1 & Hq & Hrun & Hq1 & _);
    [vm_compute; left|reflexivity|reflexivity|].
  assert (q = []) as -> by (vm_compute in Hq; congruence).
  exists s1. split; [exact Hrun|exact Hq1].
Defined.

(** X11.  For a key that is not registered, enqueueing and fetching, in their
    locking and in their low-level forms, raise [KeyError] for the key and
    leave the whole state as it was; in particular the persistence layer is
    not queried.  The low-level enqueue with an empty batch is the one call
    that returns normally, having done nothing. *)
Theorem unknown_key_touches_nothing {W : Type} `{Collaborators W}
    (k : string) (d : Dict) (ds : list Dict) (session : Val)
    (s : PubSubTool.Sys W) :
  consistent s -> k ∉ PubSubTool.sub_keys (PubSubTool.self s) ->
  PubSubTool.add_non_gd_messages_by_sub_key k (d :: ds) s =
    (Raise (KeyError k), s) /\
  PubSubTool.add_non_gd_messages_by_sub_key k [] s = (Raise (KeyError k), s) /\
  PubSubTool._add_non_gd_messages_by_sub_key k (d :: ds) s =
    (Raise (KeyError k), s) /\
  PubSubTool._add_non_gd_messages_by_sub_key k [] s = (Ok tt, s) /\
  PubSubTool.fetch_gd_messages_by_sub_key k session s =
    (Raise (KeyError k), s) /\
  PubSubTool._fetch_gd_messages_by_sub_key k session s =
    (Raise (KeyError k), s).
Proof.
  intros Hs Hk.
  assert (forall {V} (dct : PubSubTool.t -> gmap string V),
            (k ∈ PubSubTool.sub_keys (PubSubTool.self s) <->
             is_Some (dct (PubSubTool.self s) !! k)) ->
            dct (PubSubTool.self s) !! k = None) as Hnone.
  { intros V dct Hiff. destruct (dct (PubSubTool.self s) !! k) eqn:E;
      [|reflexivity]. exfalso. apply Hk, Hiff. eauto. }
  pose proof (Hnone _ _ (cons_sub_key_locks s Hs k)) as Hlock.
  pose proof (Hnone _ _ (cons_delivery_lists s Hs k)) as Hlist.
  pose proof (Hnone _ _ (cons_last_sql_run s Hs k)) as Hlast.
  unfold PubSubTool.add_non_gd_messages_by_sub_key,
    PubSubTool.fetch_gd_messages_by_sub_key,
    PubSubTool._fetch_gd_messages_by_sub_key,
    PubSubTool._add_non_gd_messages_by_sub_key.
  cbn [PubSubTool.for_each].
  unfold PubSubTool.bind, PubSubTool.getitem.
  rewrite Hlock, Hlist, Hlast. repeat split; reflexivity.
Qed.

Lemma unknown_key_touches_nothing_witness :
  let s := PubSubTool.initial (Stub.world [] []) in
  PubSubTool.fetch_gd_messages_by_sub_key "ghost" VNone s =
    (Raise (KeyError "ghost"), s).
Proof.
  intros s.
  destruct (unknown_key_touches_nothing "ghost" (Stub.dict "a" 5 1 1) []
              VNone s (initial_consistent _))
    as (_ & _ & _ & _ & Hfetch & _); [apply not_elem_of_nil|].
  exact Hfetch.
Defined.

(** ** More about fetching and notification *)

(** X12.  When the persistence query raises, the exception leaves
    [fetch_gd_messages_by_sub_key] and [handle_new_messages] unhandled; the
    query is on record, every queue is as before, and in
    [handle_new_messages] the ephemeral messages of the same notification
    are not enqueued for that key nor is any later key processed. *)
Theorem failed_query_ends_notification {W : Type} `{Collaborators W}
    (cid : Val) (k : string) (rest : list string) (msgs : list Dict)
    (e : Exn) (w' : W) (s : PubSubTool.Sys W) :
  consistent s -> k ∈ PubSubTool.sub_keys (PubSubTool.self s) ->
  pubsub_get_sql_messages_by_sub_key k None VNone (PubSubTool.world s) =
    (Raise e, w') ->
  let s1 := {| PubSubTool.self := PubSubTool.self s;
               PubSubTool.heap := PubSubTool.heap s;
               PubSubTool.world := w';
               PubSubTool.trace :=
                 PubSubTool.trace s ++ [Fetched k None VNone] |} in
  PubSubTool.fetch_gd_messages_by_sub_key k VNone s = (Raise e, s1) /\
  PubSubTool.handle_new_messages cid true (k :: rest) msgs s = (Raise e, s1).
Proof.
  intros Hs Hk Ho s1.
  destruct (proj1 (cons_sub_key_locks s Hs k) Hk) as [lk Hlock].
  destruct (proj1 (cons_last_sql_run s Hs k) Hk) as [m Hm].
  pose proof (cons_marker_unset s Hs k m Hm) as ->.
  assert (PubSubTool._fetch_gd_messages_by_sub_key k VNone s = (Raise e, s1))
    as Hfetch.
  { unfold PubSubTool._fetch_gd_messages_by_sub_key.
    unfold PubSubTool.bind at 1. unfold PubSubTool.getitem at 1. rewrite Hm.
    unfold PubSubTool.bind at 1, PubSubTool.get_sql_messages_by_sub_key.
    rewrite Ho. reflexivity. }
  split.
  - unfold PubSubTool.fetch_gd_messages_by_sub_key, PubSubTool.bind,
      PubSubTool.getitem. rewrite Hlock. exact Hfetch.
  - unfold PubSubTool.handle_new_messages. cbn [PubSubTool.for_each].
    unfold PubSubTool.bind at 1, PubSubTool.handle_sub_key.
    unfold PubSubTool.bind at 1. unfold PubSubTool.getitem at 1.
    rewrite Hlock. unfold PubSubTool.bind at 1. rewrite Hfetch. reflexivity.
Qed.

Lemma failed_query_ends_notification_witness :
  let s := (@PubSubTool.add_sub_key unit "k" (PubSubTool.initial tt)).2 in
  exists s1,
    @PubSubTool.handle_new_messages unit Outage.collaborators (VStr "cid")
      true ["k"%string] [Stub.dict "e" 9 1 1] s = (Raise CallbackError, s1) /\
    queue_of s1 "k" = Some [].
Proof.
  intros s.
  assert (consistent s) as Hs
    by (apply add_sub_key_consistent, initial_consistent).
  destruct (@failed_query_ends_notification unit Outage.collaborators
              (VStr "cid") "k" [] [Stub.dict "e" 9 1 1] CallbackError tt s Hs)
    as [_ Hrun]; [vm_compute; left|reflexivity|].
  eexists. split; [exact Hrun|]. vm_compute. reflexivity.
Defined.

(** X13.  The fetch does not look at what is already queued.  If the
    persistence layer answers two fetches in a row with the same rows, every
    row is in the queue twice afterwards: the queue holds its old entries
    and two durable messages per row. *)
Theorem repeated_fetch_enqueues_again {W : Type} `{Collaborators W}
    (k : string) (session : Val) (rows : list Row) (s : PubSubTool.Sys W) :
  forall w1 w2,
  consistent s -> k ∈ PubSubTool.sub_keys (PubSubTool.self s) ->
  pubsub_get_sql_messages_by_sub_key k None session (PubSubTool.world s) =
    (Ok rows, w1) ->
  pubsub_get_sql_messages_by_sub_key k None session w1 = (Ok rows, w2) ->
  exists q s1 s2 q2,
    queue_of s k = Some q /\
    PubSubTool.fetch_gd_messages_by_sub_key k session s = (Ok tt, s1) /\
    PubSubTool.fetch_gd_messages_by_sub_key k session s1 = (Ok tt, s2) /\
    queue_of s2 k = Some q2 /\
    q2 ≡ₚ q ++ (GDMessage <$> rows) ++ (GDMessage <$> rows) /\
    length q2 = (length q + 2 * length rows)%nat.
Proof.
  intros w1 w2 Hs Hk Ho1 Ho2.
  destruct (proj1 (cons_sub_key_locks s Hs k) Hk) as [lk Hlock].
  destruct (fetch_spec k session s Hs Hk)
    as (loc & s1 & Hloc & Hlt & _ & Hrun & Hself & Hw & _ & Hts & _ & Hlen &
        _ & Hls).
  rewrite Ho1 in Hrun, Hls, Hw. cbn [fst snd] in Hrun, Hls, Hw.
  specialize (Hls rows eq_refl).
  assert (consistent s1) as Hs1.
  { eapply consistent_frame; [exact Hself|exact Hlen| |exact Hs].
    rewrite Hts. reflexivity. }
  assert (k ∈ PubSubTool.sub_keys (PubSubTool.self s1)) as Hk1
    by (rewrite Hself; exact Hk).
  destruct (fetch_spec k session s1 Hs1 Hk1)
    as (loc1 & s2 & Hloc1 & Hlt1 & _ & Hrun2 & Hself2 & _ & _ & _ & _ & _ &
        _ & Hls2).
  rewrite Hw, Ho2 in Hrun2, Hls2. cbn [fst] in Hrun2, Hls2.
  specialize (Hls2 rows eq_refl).
  rewrite Hself, Hloc in Hloc1. injection Hloc1 as <-.
  assert (list_at (PubSubTool.heap s1) loc =
          SortedList.update (list_at (PubSubTool.heap s) loc) (GDMessage <$> rows))
    as Hq1.
  { unfold list_at at 1. rewrite Hls, list_lookup_insert_eq by assumption.
    reflexivity. }
  rewrite Hq1 in Hls2.
  eexists (list_at (PubSubTool.heap s) loc), s1, s2, _.
  split; [unfold queue_of; rewrite Hloc; reflexivity|].
  split.
  { unfold PubSubTool.fetch_gd_messages_by_sub_key, PubSubTool.bind,
      PubSubTool.getitem. rewrite Hlock. exact Hrun. }
  split.
  { unfold PubSubTool.fetch_gd_messages_by_sub_key, PubSubTool.bind,
      PubSubTool.getitem. rewrite Hself, Hlock. exact Hrun2. }
  split.
  { eapply (queue_of_here s1 s2); [exact Hself2|rewrite Hself; exact Hloc|
      exact Hlt1|exact Hls2]. }
  split.
  - rewrite !update_Permutation, <- app_assoc. reflexivity.
  - rewrite !update_length, length_fmap. lia.
Qed.

Lemma repeated_fetch_enqueues_again_witness :
  let w := {| Stub.deliver_plan := []; Stub.confirm_plan := [];
              Stub.rows := [Stub.row "g" 5 10 1]; Stub.draw := 0 |} in
  let s := (PubSubTool.add_sub_key "k" (PubSubTool.initial w)).2 in
  exists s1 s2,
    PubSubTool.fetch_gd_messages_by_sub_key "k" VNone s = (Ok tt, s1) /\
    PubSubTool.fetch_gd_messages_by_sub_key "k" VNone s1 = (Ok tt, s2) /\
    exists q2, queue_of s2 "k" = Some q2 /\ length q2 = 2%nat.
Proof.
  intros w s.
  assert (consistent s) as Hs
    by (apply add_sub_key_consistent, initial_consistent).
  destruct (repeated_fetch_enqueues_again "k" VNone (Stub.rows w) s w w Hs)
    as (q & s1 & s2 & q2 & Hq & Hrun & Hrun2 & Hq2 & _ & Hlen);
    [vm_compute; left|reflexivity|reflexivity|].
  assert (q = []) as -> by (vm_compute in Hq; congruence).
  exists s1, s2. split; [exact Hrun|]. split; [exact Hrun2|].
  exists q2. split; [exact Hq2|exact Hlen].
Defined.

(** X14.  [handle_new_messages] is not all-or-nothing.  With registered keys
    [pre] in front of a key that is not registered, the call raises
    [KeyError] for that key, and by then every key of [pre] has received
    the whole batch; the keys listed behind the unknown one have received
    nothing. *)
Theorem fan_out_stops_at_unknown_key {W : Type} `{Collaborators W}
    (cid : Val) (pre post : list string) (k : string) (msgs : list Dict)
    (ms : list Message) (s : PubSubTool.Sys W) :
  consistent s -> wrap_all msgs = Ok ms -> NoDup pre ->
  (forall x, x ∈ pre -> x ∈ PubSubTool.sub_keys (PubSubTool.self s)) ->
  k ∉ PubSubTool.sub_keys (PubSubTool.self s) ->
  exists s1,
    PubSubTool.handle_new_messages cid false (pre ++ k :: post) msgs s =
      (Raise (KeyError k), s1) /\
    PubSubTool.self s1 = PubSubTool.self s /\
    (forall x q, x ∈ pre -> queue_of s x = Some q ->
       queue_of s1 x = Some (SortedList.update q ms)) /\
    (forall x, x ∉ pre -> queue_of s1 x = queue_of s x).
Proof.
  intros Hs Hms Hnd Hpre Hk.
  destruct (handle_new_messages_returns cid false msgs pre s Hs Hpre)
    as [s1 Hrun]; [eauto|discriminate|].
  destruct (handle_new_messages_returned cid false msgs pre s s1 Hs Hrun)
    as (Hself & _ & _ & _ & _ & _ & _ & Hout & _ & _ & _ & Hin).
  exists s1. split.
  - unfold PubSubTool.handle_new_messages in *.
    rewrite for_each_app, Hrun. cbn [PubSubTool.for_each].
    unfold PubSubTool.bind at 1.
    rewrite handle_sub_key_unknown; [reflexivity|].
    rewrite Hself.
    destruct (PubSubTool.sub_key_locks (PubSubTool.self s) !! k) eqn:E;
      [|reflexivity].
    exfalso. apply Hk, (cons_sub_key_locks s Hs k). eauto.
  - split; [exact Hself|]. split; [|exact Hout].
    intros x q Hx Hq.
    destruct (Hin ms x q Hms Hnd Hx Hq) as (rows & Hrows & Hq1).
    rewrite (Hrows eq_refl) in Hq1. exact Hq1.
Qed.

Lemma fan_out_stops_at_unknown_key_witness :
  let s := (PubSubTool.add_sub_key "b"
             (PubSubTool.add_sub_key "a"
               (PubSubTool.initial (Stub.world [] []))).2).2 in
  exists s1,
    PubSubTool.handle_new_messages (VStr "cid") false
      ["a"; "ghost"; "b"]%string [Stub.dict "e" 9 1 1] s =
      (Raise (KeyError "ghost"), s1) /\
    queue_of s1 "a" = Some [Stub.msg "e" 9 1 1] /\
    queue_of s1 "b" = Some [].
Proof.
  intros s.
  assert (consistent s) as Hs
    by (apply add_sub_key_consistent, add_sub_key_consistent,
          initial_consistent).
  destruct (fan_out_stops_at_unknown_key (VStr "cid") ["a"%string]
              ["b"%string] "ghost" [Stub.dict "e" 9 1 1]
              [Stub.msg "e" 9 1 1] s Hs)
    as (s1 & Hrun & _ & Hin & Hout).
  - reflexivity.
  - apply NoDup_singleton.
  - intros x Hx. apply list_elem_of_singleton in Hx. subst x.
    vm_compute. left.
  - vm_compute. intros Hx.
    repeat (apply elem_of_cons in Hx as [Hx|Hx]; [discriminate|]).
    inversion Hx.
  - exists s1. split; [exact Hrun|]. split.
    + apply (Hin "a"%string []); [left|reflexivity].
    + rewrite Hout; [reflexivity|].
      intros Hx. apply list_elem_of_singleton in Hx. discriminate.
Defined.

(** ** Life cycle of a subscription key *)

Section Lifecycle.

Context {W : Type} `{Collaborators W}.

Local Abbreviation Sys := (PubSubTool.Sys W).

Lemma unregistered_absent (k : string) (s : Sys) :
  consistent s -> k ∉ PubSubTool.sub_keys (PubSubTool.self s) ->
  PubSubTool.sub_key_locks (PubSubTool.self s) !! k = None /\
  PubSubTool.batch_size (PubSubTool.self s) !! k = None /\
  PubSubTool.delivery_lists (PubSubTool.self s) !! k = None /\
  PubSubTool.delivery_tasks (PubSubTool.self s) !! k = None /\
  PubSubTool.last_sql_run (PubSubTool.self s) !! k = None.
Proof.
  intros Hs Hk.
  assert (forall {V} (dct : PubSubTool.t -> gmap string V),
            (k ∈ PubSubTool.sub_keys (PubSubTool.self s) <->
             is_Some (dct (PubSubTool.self s) !! k)) ->
            dct (PubSubTool.self s) !! k = None) as Hnone.
  { intros V dct Hiff. destruct (dct (PubSubTool.self s) !! k) eqn:E;
      [|reflexivity]. exfalso. apply Hk, Hiff. eauto. }
  split; [apply (Hnone _ _ (cons_sub_key_locks s Hs k))|].
  split; [apply (Hnone _ _ (cons_batch_size s Hs k))|].
  split; [apply (Hnone _ _ (cons_delivery_lists s Hs k))|].
  split; [apply (Hnone _ _ (cons_delivery_tasks s Hs k))|].
  apply (Hnone _ _ (cons_last_sql_run s Hs k)).
Qed.

Lemma list_remove_last (k : string) (l : list string) :
  k ∉ l -> PubSubTool.list_remove k (l ++ [k]) = Some l.
Proof.
  induction l as [|x l IH]; intros Hk; cbn.
  - rewrite decide_True by reflexivity. reflexivity.
  - rewrite decide_False by (intros ->; apply Hk; left).
    rewrite IH; [reflexivity|]. intros Hin. apply Hk. right. exact Hin.
Qed.

Lemma self_eq (a b : PubSubTool.t) :
  PubSubTool.sub_key_locks a = PubSubTool.sub_key_locks b ->
  PubSubTool.batch_size a = PubSubTool.batch_size b ->
  PubSubTool.sub_keys a = PubSubTool.sub_keys b ->
  PubSubTool.delivery_lists a = PubSubTool.delivery_lists b ->
  PubSubTool.delivery_tasks a = PubSubTool.delivery_tasks b ->
  PubSubTool.last_sql_run a = PubSubTool.last_sql_run b ->
  a = b.
Proof. destruct a, b; cbn; intros; subst; reflexivity. Qed.

End Lifecycle.

(** X15.  Registering a new key and removing it again restores the registry:
    the key list and the five dicts are exactly as before.  The objects
    created for the key stay behind: an empty list and a task whose flag is
    cleared. *)
Theorem add_then_remove_restores_registry {W : Type} `{Collaborators W}
    (k : string) (s : PubSubTool.Sys W) :
  consistent s -> k ∉ PubSubTool.sub_keys (PubSubTool.self s) ->
  let s1 := (PubSubTool.add_sub_key k s).2 in
  exists s2,
    PubSubTool.remove_sub_key k s1 = (Ok tt, s2) /\
    PubSubTool.self s2 = PubSubTool.self s /\
    PubSubTool.world s2 = PubSubTool.world s /\
    lists (PubSubTool.heap s2) = lists (PubSubTool.heap s) ++ [[]] /\
    tasks (PubSubTool.heap s2) = tasks (PubSubTool.heap s) ++
      [{| DeliveryTask.keep_running := false; DeliveryTask.sub_key := k;
          DeliveryTask.delivery_lock := locks (PubSubTool.heap s);
          DeliveryTask.delivery_list := length (lists (PubSubTool.heap s)) |}].
Proof.
  intros Hs Hk s1.
  assert (consistent s1) as Hs1 by (apply add_sub_key_consistent, Hs).
  destruct (unregistered_absent k s Hs Hk) as (Hl & Hb & Hd & Ht & Hr).
  subst s1. unfold PubSubTool.add_sub_key in *.
  rewrite (add_sub_key_fresh k s Hk) in *. cbn [snd] in *.
  match goal with
  | |- context [PubSubTool.remove_sub_key k ?x] =>
    destruct (remove_sub_key_registered k x Hs1) as (tid & l' & Htid & Hrm & Hrun)
  end.
  { cbn. set_solver. }
  cbn in Htid, Hrm, Hrun.
  rewrite lookup_insert_eq in Htid. injection Htid as <-.
  rewrite (list_remove_last k _ Hk) in Hrm. injection Hrm as <-.
  eexists. split; [exact Hrun|]. cbn.
  split.
  { apply self_eq; cbn; try reflexivity; apply delete_insert_id; assumption. }
  split; [reflexivity|]. split; [reflexivity|].
  apply list_eq. intros i. rewrite list_lookup_alter.
  destruct (decide (length (tasks (PubSubTool.heap s)) = i)) as [<-|Hi].
  - rewrite !list_lookup_middle by reflexivity. reflexivity.
  - destruct (decide (i < length (tasks (PubSubTool.heap s)))%nat).
    + rewrite !lookup_app_l by assumption. reflexivity.
    + rewrite !lookup_app_r by lia.
      destruct (i - length (tasks (PubSubTool.heap s)))%nat eqn:E; [lia|].
      reflexivity.
Qed.

Lemma add_then_remove_restores_registry_witness :
  let s := PubSubTool.initial (Stub.world [] []) in
  exists s2,
    PubSubTool.remove_sub_key "k" (PubSubTool.add_sub_key "k" s).2 =
      (Ok tt, s2) /\
    PubSubTool.self s2 = PubSubTool.self s /\
    length (tasks (PubSubTool.heap s2)) = 1%nat.
Proof.
  intros s.
  destruct (add_then_remove_restores_registry "k" s)
    as (s2 & Hrun & Hself & _ & _ & Ht).
  - apply initial_consistent.
  - vm_compute. intros Hx. inversion Hx.
  - exists s2. split; [exact Hrun|]. split; [exact Hself|].
    rewrite Ht. reflexivity.
Defined.

(** ** Tasks and the registry *)

Section Wiring.

Context {W : Type} `{Collaborators W}.

Import PubSubTool.

Lemma wired_same (s s1 : Sys W) :
  self s1 = self s -> tasks (heap s1) = tasks (heap s) -> wired s -> wired s1.
Proof. unfold wired. intros -> ->. auto. Qed.

Lemma wired_frame (s s1 : Sys W) : frame s s1 -> wired s -> wired s1.
Proof. intros (Hself & _ & Hts & _). apply wired_same; assumption. Qed.

(** Two keys never share a task object. *)
Lemma wired_apart (s : Sys W) (k1 k2 : string) (tid : nat) :
  wired s ->
  delivery_tasks (self s) !! k1 = Some tid ->
  delivery_tasks (self s) !! k2 = Some tid -> k1 = k2.
Proof.
  intros Hw H1 H2.
  destruct (Hw _ _ H1) as (l1 & c1 & Ht1 & _).
  destruct (Hw _ _ H2) as (l2 & c2 & Ht2 & _).
  rewrite Ht1 in Ht2. congruence.
Qed.

Lemma wired_add (k : string) (s : Sys W) :
  wired s -> wired (add_sub_key_no_lock k s).2.
Proof.
  intros Hw. destruct (decide (k ∈ sub_keys (self s))) as [Hin|Hout].
  { rewrite add_sub_key_seen by assumption. exact Hw. }
  rewrite add_sub_key_fresh by assumption. intros x tid. cbn.
  destruct (decide (x = k)) as [->|Hx].
  - rewrite !lookup_insert_eq. intros [= <-]. eexists _, _.
    split; [apply list_lookup_middle; reflexivity|]. split; reflexivity.
  - rewrite !lookup_insert_ne by congruence. intros Htid.
    destruct (Hw x tid Htid) as (lock & loc & Ht & Hl & Hd). exists lock, loc.
    split; [|split; assumption].
    rewrite lookup_app_l; [exact Ht|]. eapply lookup_lt_Some; eauto.
Qed.

Lemma wired_remove (k : string) (s : Sys W) :
  consistent s -> wired s -> wired (remove_sub_key k s).2.
Proof.
  intros Hs Hw. destruct (decide (k ∈ sub_keys (self s))) as [Hin|Hout].
  - destruct (remove_sub_key_registered k s Hs Hin)
      as (tid & l' & Htid & _ & ->).
    intros x tx. cbn. intros Hx. apply lookup_delete_Some in Hx as [Hne Hx].
    destruct (Hw x tx Hx) as (lock & loc & Ht & Hl & Hd). exists lock, loc.
    rewrite !lookup_delete_ne by congruence. split; [|split; assumption].
    rewrite list_lookup_alter_ne; [exact Ht|].
    intros ->. apply Hne. eapply wired_apart; eauto.
  - rewrite (remove_sub_key_unknown k s Hout). cbn.
    eapply wired_same; [| |exact Hw]; reflexivity.
Qed.

Lemma remove_sub_key_keeps_consistent (k : string) (s : Sys W) :
  consistent s -> consistent (remove_sub_key k s).2.
Proof.
  intros Hs. destruct (decide (k ∈ sub_keys (self s))) as [Hin|Hout].
  - apply remove_sub_key_consistent; assumption.
  - rewrite (remove_sub_key_unknown k s Hout). cbn.
    eapply consistent_frame; [| | |exact Hs]; reflexivity.
Qed.

Lemma wired_remove_each (ks : list string) (s : Sys W) :
  consistent s -> wired s -> wired (for_each ks remove_sub_key s).2.
Proof.
  revert s. induction ks as [|k ks IH]; intros s Hs Hw; [exact Hw|].
  cbn [for_each]. unfold bind at 1.
  pose proof (remove_sub_key_returns k s) as Hr.
  pose proof (remove_sub_key_keeps_consistent k s Hs) as Hs1.
  pose proof (wired_remove k s Hs Hw) as Hw1.
  destruct (remove_sub_key k s) as [[u|e] s1]; cbn [fst snd] in *;
    [|discriminate].
  apply IH; assumption.
Qed.

(** In every reachable state each registered key is served by a running
    task that shares the key's list and lock with the registry. *)
Lemma reachable_wired (s : Sys W) : reachable s -> wired s.
Proof.
  induction 1 as [ w | k s Hr IH | k s Hr IH | s Hr IH | k msgs s Hr IH
                 | k session s Hr IH | cid has_gd keys msgs s Hr IH
                 | tid s b h' w' tr Hr IH Hit ].
  - intros k tid. cbn. rewrite lookup_empty. discriminate.
  - apply wired_add, IH.
  - apply wired_remove; [apply reachable_invariant, Hr|exact IH].
  - apply wired_remove_each; [apply reachable_invariant, Hr|exact IH].
  - apply (wired_frame s); [|exact IH].
    unfold add_non_gd_messages_by_sub_key, bind, getitem.
    destruct (sub_key_locks (self s) !! k); [|apply frame_refl].
    apply frame_add_non_gd.
  - apply (wired_frame s); [|exact IH].
    unfold fetch_gd_messages_by_sub_key, bind, getitem.
    destruct (sub_key_locks (self s) !! k); [|apply frame_refl].
    apply frame_fetch.
  - apply (wired_frame s); [|exact IH].
    unfold handle_new_messages. apply frame_for_each.
    intros k s0. apply frame_handle_sub_key.
  - destruct (run_iteration_frame _ _ _ _ _ _ _ _ _ Hit) as (_ & Hts & _).
    eapply wired_same; [| |exact IH]; [reflexivity|exact Hts].
Qed.

End Wiring.

Section Accounting.

Context {W : Type} `{Collaborators W}.

Import PubSubTool.

Lemma accounted_same (s s1 : Sys W) :
  self s1 = self s -> tasks (heap s1) = tasks (heap s) ->
  accounted s -> accounted s1.
Proof. unfold accounted. intros -> ->. auto. Qed.

Lemma accounted_frame (s s1 : Sys W) : frame s s1 -> accounted s -> accounted s1.
Proof. intros (Hself & _ & Hts & _). apply accounted_same; assumption. Qed.

Lemma accounted_add (k : string) (s : Sys W) :
  consistent s -> accounted s -> accounted (add_sub_key_no_lock k s).2.
Proof.
  intros Hs Ha. destruct (decide (k ∈ sub_keys (self s))) as [Hin|Hout].
  { rewrite add_sub_key_seen by assumption. exact Ha. }
  destruct (unregistered_absent k s Hs Hout) as (_ & _ & _ & Hnone & _).
  rewrite add_sub_key_fresh by assumption. intros tid t. cbn.
  intros Ht Hrun.
  apply lookup_app_Some in Ht as [Ht|[Hge Ht]].
  - pose proof (Ha tid t Ht Hrun) as Hreg.
    rewrite lookup_insert_ne; [exact Hreg|]. intros ->. congruence.
  - apply list_lookup_singleton_Some in Ht as [Hz <-]. cbn.
    rewrite lookup_insert_eq. f_equal. lia.
Qed.

Lemma accounted_remove (k : string) (s : Sys W) :
  consistent s -> accounted s -> accounted (remove_sub_key k s).2.
Proof.
  intros Hs Ha. destruct (decide (k ∈ sub_keys (self s))) as [Hin|Hout].
  - destruct (remove_sub_key_registered k s Hs Hin)
      as (tid & l' & Htid & _ & ->).
    intros tid' t. cbn. rewrite list_lookup_alter.
    destruct (decide (tid = tid')) as [<-|Hne].
    + destruct (tasks (heap s) !! tid) as [t0|]; cbn; [|discriminate].
      intros [= <-]. cbn. discriminate.
    + intros Ht Hrun. pose proof (Ha tid' t Ht Hrun) as Hreg.
      rewrite lookup_delete_ne; [exact Hreg|]. intros ->. congruence.
  - rewrite (remove_sub_key_unknown k s Hout). cbn.
    eapply accounted_same; [| |exact Ha]; reflexivity.
Qed.

Lemma accounted_remove_each (ks : list string) (s : Sys W) :
  consistent s -> accounted s -> accounted (for_each ks remove_sub_key s).2.
Proof.
  revert s. induction ks as [|k ks IH]; intros s Hs Ha; [exact Ha|].
  cbn [for_each]. unfold bind at 1.
  pose proof (remove_sub_key_returns k s) as Hr.
  pose proof (remove_sub_key_keeps_consistent k s Hs) as Hs1.
  pose proof (accounted_remove k s Hs Ha) as Ha1.
  destruct (remove_sub_key k s) as [[u|e] s1]; cbn [fst snd] in *;
    [|discriminate].
  apply IH; assumption.
Qed.

(** In every reachable state a task whose flag is set belongs to a
    registered key. *)
Lemma reachable_accounted (s : Sys W) : reachable s -> accounted s.
Proof.
  induction 1 as [ w | k s Hr IH | k s Hr IH | s Hr IH | k msgs s Hr IH
                 | k session s Hr IH | cid has_gd keys msgs s Hr IH
                 | tid s b h' w' tr Hr IH Hit ].
  - intros tid t. cbn. rewrite lookup_nil. discriminate.
  - apply accounted_add; [apply reachable_invariant, Hr|exact IH].
  - apply accounted_remove; [apply reachable_invariant, Hr|exact IH].
  - apply accounted_remove_each; [apply reachable_invariant, Hr|exact IH].
  - apply (accounted_frame s); [|exact IH].
    unfold add_non_gd_messages_by_sub_key, bind, getitem.
    destruct (sub_key_locks (self s) !! k); [|apply frame_refl].
    apply frame_add_non_gd.
  - apply (accounted_frame s); [|exact IH].
    unfold fetch_gd_messages_by_sub_key, bind, getitem.
    destruct (sub_key_locks (self s) !! k); [|apply frame_refl].
    apply frame_fetch.
  - apply (accounted_frame s); [|exact IH].
    unfold handle_new_messages. apply frame_for_each.
    intros k s0. apply frame_handle_sub_key.
  - destruct (run_iteration_frame _ _ _ _ _ _ _ _ _ Hit) as (_ & Hts & _).
    eapply accounted_same; [| |exact IH]; [reflexivity|exact Hts].
Qed.

End Accounting.

(** X16.  What holds in every state a tool can reach by calls of its public
    methods and iterations of its tasks, interleaved in any order, each call
    and each iteration taken as one step.  The key list has no repeats; every
    registered key has a batch size, an unset last-run marker, a lock, an
    ascending queue and a task whose flag is set, which carries the key and
    works on the very list and lock the registry holds; keys that are not
    registered have no queue and no task; two keys never share a list or a
    task; and every task whose flag is set belongs to a registered key. *)
Theorem reachable_state_well_formed {W : Type} `{Collaborators W}
    (s : PubSubTool.Sys W) :
  reachable s ->
  NoDup (PubSubTool.sub_keys (PubSubTool.self s)) /\
  (forall k, k ∈ PubSubTool.sub_keys (PubSubTool.self s) ->
     exists size lock loc tid q,
       PubSubTool.batch_size (PubSubTool.self s) !! k = Some size /\
       PubSubTool.last_sql_run (PubSubTool.self s) !! k = Some None /\
       PubSubTool.sub_key_locks (PubSubTool.self s) !! k = Some lock /\
       PubSubTool.delivery_lists (PubSubTool.self s) !! k = Some loc /\
       PubSubTool.delivery_tasks (PubSubTool.self s) !! k = Some tid /\
       lists (PubSubTool.heap s) !! loc = Some q /\
       SortedList.sorted q /\
       tasks (PubSubTool.heap s) !! tid =
         Some {| DeliveryTask.keep_running := true; DeliveryTask.sub_key := k;
                 DeliveryTask.delivery_lock := lock;
                 DeliveryTask.delivery_list := loc |}) /\
  (forall k, k ∉ PubSubTool.sub_keys (PubSubTool.self s) ->
     queue_of s k = None /\
     PubSubTool.delivery_tasks (PubSubTool.self s) !! k = None) /\
  (forall k1 k2 loc,
     PubSubTool.delivery_lists (PubSubTool.self s) !! k1 = Some loc ->
     PubSubTool.delivery_lists (PubSubTool.self s) !! k2 = Some loc ->
     k1 = k2) /\
  (forall k1 k2 tid,
     PubSubTool.delivery_tasks (PubSubTool.self s) !! k1 = Some tid ->
     PubSubTool.delivery_tasks (PubSubTool.self s) !! k2 = Some tid ->
     k1 = k2) /\
  (forall tid t,
     tasks (PubSubTool.heap s) !! tid = Some t ->
     DeliveryTask.keep_running t = true ->
     DeliveryTask.sub_key t ∈ PubSubTool.sub_keys (PubSubTool.self s)).
Proof.
  intros Hr.
  destruct (reachable_invariant s Hr) as [Hs Hq].
  pose proof (reachable_wired s Hr) as Hw.
  pose proof (reachable_accounted s Hr) as Ha.
  split; [apply (cons_nodup s Hs)|].
  split.
  { intros k Hk.
    destruct (proj1 (cons_batch_size s Hs k) Hk) as [size Hsize].
    destruct (proj1 (cons_last_sql_run s Hs k) Hk) as [m Hm].
    pose proof (cons_marker_unset s Hs k m Hm) as ->.
    destruct (proj1 (cons_delivery_tasks s Hs k) Hk) as [tid Htid].
    destruct (Hw k tid Htid) as (lock & loc & Ht & Hl & Hd).
    pose proof (cons_lists_alloc s Hs k loc Hd) as Hlt.
    destruct (lookup_lt_is_Some_2 _ _ Hlt) as [q Hloc].
    exists size, lock, loc, tid, q.
    do 6 (split; [assumption|]). split; [|exact Ht].
    eapply Forall_lookup_1; [exact Hq|exact Hloc]. }
  split.
  { intros k Hk.
    destruct (unregistered_absent k s Hs Hk) as (_ & _ & Hd & Ht & _).
    unfold queue_of. rewrite Hd. auto. }
  split; [apply (cons_lists_apart s Hs)|].
  split; [intros k1 k2 tid; apply wired_apart, Hw|].
  intros tid t Ht Hrun.
  apply (cons_delivery_tasks s Hs). rewrite (Ha tid t Ht Hrun). eauto.
Qed.

Lemma reachable_state_well_formed_witness :
  let s := (PubSubTool.handle_new_messages (VStr "cid") true ["k"%string]
              [Stub.dict "e" 9 1 1]
              (PubSubTool.add_sub_key "k"
                 (PubSubTool.initial
                    {| Stub.deliver_plan := []; Stub.confirm_plan := [];
                       Stub.rows := [Stub.row "g" 5 10 1];
                       Stub.draw := 0 |})).2).2 in
  NoDup (PubSubTool.sub_keys (PubSubTool.self s)) /\
  queue_of s "k" = Some [Stub.msg "e" 9 1 1; GDMessage (Stub.row "g" 5 10 1)].
Proof.
  intros s. split; [|vm_compute; reflexivity].
  apply (reachable_state_well_formed s).
  apply reach_handle_new_messages, reach_add_sub_key, reach_initial.
Defined.

(** X17.  Registering or removing one key leaves every other key alone: the
    other key stays registered or unregistered as it was, keeps its lock,
    list and task, its queue holds the same messages, and its task object is
    unchanged, in particular still running. *)
Theorem other_keys_are_left_alone {W : Type} `{Collaborators W}
    (k x : string) (s : PubSubTool.Sys W) :
  reachable s -> x <> k ->
  forall s1,
    s1 = (PubSubTool.add_sub_key k s).2 \/
    s1 = (PubSubTool.remove_sub_key k s).2 ->
    (x ∈ PubSubTool.sub_keys (PubSubTool.self s1) <->
     x ∈ PubSubTool.sub_keys (PubSubTool.self s)) /\
    PubSubTool.sub_key_locks (PubSubTool.self s1) !! x =
      PubSubTool.sub_key_locks (PubSubTool.self s) !! x /\
    PubSubTool.delivery_lists (PubSubTool.self s1) !! x =
      PubSubTool.delivery_lists (PubSubTool.self s) !! x /\
    PubSubTool.delivery_tasks (PubSubTool.self s1) !! x =
      PubSubTool.delivery_tasks (PubSubTool.self s) !! x /\
    queue_of s1 x = queue_of s x /\
    (forall tid,
       PubSubTool.delivery_tasks (PubSubTool.self s) !! x = Some tid ->
       tasks (PubSubTool.heap s1) !! tid = tasks (PubSubTool.heap s) !! tid).
Proof.
  intros Hr Hx s1 Hs1.
  destruct (reachable_invariant s Hr) as [Hs _].
  pose proof (reachable_wired s Hr) as Hw.
  destruct Hs1 as [-> | ->].
  - unfold PubSubTool.add_sub_key.
    destruct (decide (k ∈ PubSubTool.sub_keys (PubSubTool.self s)))
      as [Hin|Hout].
    { rewrite add_sub_key_seen by assumption. cbn. tauto. }
    rewrite add_sub_key_fresh by assumption. unfold queue_of. cbn.
    rewrite !lookup_insert_ne by congruence.
    split.
    { rewrite elem_of_app, list_elem_of_singleton. tauto. }
    do 3 (split; [reflexivity|]). split.
    + destruct (PubSubTool.delivery_lists (PubSubTool.self s) !! x)
        as [loc|] eqn:Hloc; [|reflexivity].
      unfold list_at. cbn.
      rewrite lookup_app_l by (apply (cons_lists_alloc s Hs x), Hloc).
      reflexivity.
    + intros tid Htid.
      apply lookup_app_l, (cons_tasks_alloc s Hs x), Htid.
  - destruct (decide (k ∈ PubSubTool.sub_keys (PubSubTool.self s)))
      as [Hin|Hout].
    + destruct (remove_sub_key_registered k s Hs Hin)
        as (tid & l' & Htid & Hl' & ->).
      destruct (list_remove_NoDup k _ _ (cons_nodup s Hs) Hl') as [_ Hiff].
      unfold queue_of. cbn. rewrite !lookup_delete_ne by congruence.
      split; [rewrite Hiff; tauto|].
      do 4 (split; [reflexivity|]).
      intros tx Htx. apply list_lookup_alter_ne.
      intros ->. apply Hx. symmetry. eapply wired_apart; eauto.
    + rewrite (remove_sub_key_unknown k s Hout). cbn. unfold queue_of. cbn.
      tauto.
Qed.

Lemma other_keys_are_left_alone_witness :
  let s := (PubSubTool.add_non_gd_messages_by_sub_key "x"
              [Stub.dict "e" 9 1 1]
              (PubSubTool.add_sub_key "k"
                 (PubSubTool.add_sub_key "x"
                    (PubSubTool.initial (Stub.world [] []))).2).2).2 in
  queue_of (PubSubTool.remove_sub_key "k" s).2 "x" =
    Some [Stub.msg "e" 9 1 1].
Proof.
  intros s.
  assert (reachable s) as Hr
    by (apply reach_add_non_gd, reach_add_sub_key, reach_add_sub_key,
          reach_initial).
  destruct (other_keys_are_left_alone "k" "x" s Hr)
    with (s1 := (PubSubTool.remove_sub_key "k" s).2)
    as (_ & _ & _ & _ & Hq & _); [discriminate|right; reflexivity|].
  rewrite Hq. vm_compute. reflexivity.
Defined.

(** X18.  Removing a key and registering it again does not carry its queue
    over.  The key gets a new, empty list and a new task; the messages that
    were queued stay in the old list object, which the registry no longer
    refers to and whose task has its flag cleared. *)
Theorem re_registration_starts_empty {W : Type} `{Collaborators W}
    (k : string) (s : PubSubTool.Sys W) :
  reachable s -> k ∈ PubSubTool.sub_keys (PubSubTool.self s) ->
  exists loc tid q s1 s2,
    PubSubTool.delivery_lists (PubSubTool.self s) !! k = Some loc /\
    PubSubTool.delivery_tasks (PubSubTool.self s) !! k = Some tid /\
    queue_of s k = Some q /\
    PubSubTool.remove_sub_key k s = (Ok tt, s1) /\
    PubSubTool.add_sub_key k s1 = (Ok tt, s2) /\
    queue_of s2 k = Some [] /\
    PubSubTool.delivery_lists (PubSubTool.self s2) !! k =
      Some (length (lists (PubSubTool.heap s))) /\
    PubSubTool.delivery_tasks (PubSubTool.self s2) !! k =
      Some (length (tasks (PubSubTool.heap s))) /\
    lists (PubSubTool.heap s2) !! loc = Some q /\
    (forall x, PubSubTool.delivery_lists (PubSubTool.self s2) !! x <> Some loc) /\
    DeliveryTask.keep_running (task_at (PubSubTool.heap s2) tid) = false /\
    DeliveryTask.delivery_list (task_at (PubSubTool.heap s2) tid) = loc.
Proof.
  intros Hr Hk.
  destruct (reachable_invariant s Hr) as [Hs _].
  pose proof (reachable_wired s Hr) as Hw.
  destruct (remove_sub_key_registered k s Hs Hk)
    as (tid & l' & Htid & Hl' & Hrm).
  destruct (Hw k tid Htid) as (lock & loc & Ht & _ & Hloc).
  pose proof (cons_lists_alloc s Hs k loc Hloc) as Hlt.
  destruct (lookup_lt_is_Some_2 _ _ Hlt) as [q Hq].
  destruct (list_remove_NoDup k _ _ (cons_nodup s Hs) Hl') as [_ Hiff].
  eexists loc, tid, q, _, _.
  split; [exact Hloc|]. split; [exact Htid|].
  split; [unfold queue_of, list_at; rewrite Hloc, Hq; reflexivity|].
  split; [exact Hrm|].
  unfold PubSubTool.add_sub_key.
  rewrite add_sub_key_fresh by (cbn; rewrite Hiff; tauto).
  split; [reflexivity|]. unfold queue_of, list_at, task_at. cbn.
  rewrite !lookup_insert_eq, length_alter.
  split; [rewrite list_lookup_middle by reflexivity; reflexivity|].
  split; [reflexivity|]. split; [reflexivity|].
  split; [rewrite lookup_app_l by assumption; exact Hq|].
  split.
  { intros x Hx. apply lookup_insert_Some in Hx as [[_ Hx]|[Hne Hx]].
    - lia.
    - apply lookup_delete_Some in Hx as [Hne' Hx].
      apply Hne'. eapply (cons_lists_apart s Hs); eauto. }
  rewrite lookup_app_l
    by (rewrite length_alter; eapply lookup_lt_Some; exact Ht).
  rewrite list_lookup_alter, decide_True by reflexivity.
  rewrite Ht. cbn. auto.
Qed.

Lemma re_registration_starts_empty_witness :
  let s := (PubSubTool.add_non_gd_messages_by_sub_key "k"
              [Stub.dict "e" 9 1 1]
              (PubSubTool.add_sub_key "k"
                 (PubSubTool.initial (Stub.world [] []))).2).2 in
  queue_of s "k" = Some [Stub.msg "e" 9 1 1] /\
  queue_of (PubSubTool.add_sub_key "k" (PubSubTool.remove_sub_key "k" s).2).2
    "k" = Some [].
Proof.
  intros s. split; [vm_compute; reflexivity|].
  destruct (re_registration_starts_empty "k" s)
    as (loc & tid & q & s1 & s2 & _ & _ & _ & Hrm & Hadd & Hq & _).
  - apply reach_add_non_gd, reach_add_sub_key, reach_initial.
  - vm_compute. left.
  - rewrite Hrm. cbn [snd]. rewrite Hadd. exact Hq.
Defined.

(** X19.  Once a key is removed, the loop of the task that served it ends at
    its next check of the flag: run for any number of iterations from the
    state after the removal, it delivers nothing, confirms nothing, does not
    sleep and changes nothing, and the messages that were queued for the key
    are still in the task's list. *)
Theorem removed_key_task_winds_down {W : Type} `{Collaborators W}
    (deliver : Message -> W -> Result unit * W)
    (confirm : string -> Val -> W -> Result unit * W)
    (k : string) (tid : nat) (q : list Message) (s : PubSubTool.Sys W) :
  reachable s ->
  PubSubTool.delivery_tasks (PubSubTool.self s) !! k = Some tid ->
  queue_of s k = Some q ->
  exists s1,
    PubSubTool.remove_sub_key k s = (Ok tt, s1) /\
    queue_of s1 k = None /\
    list_at (PubSubTool.heap s1)
      (DeliveryTask.delivery_list (task_at (PubSubTool.heap s1) tid)) = q /\
    forall n,
      TaskLoop.run deliver confirm (S n) 1 tid
        (PubSubTool.heap s1) (PubSubTool.world s1) =
      Some (PubSubTool.heap s1, PubSubTool.world s1, []).
Proof.
  intros Hr Htid Hq.
  destruct (reachable_invariant s Hr) as [Hs _].
  pose proof (reachable_wired s Hr) as Hw.
  assert (k ∈ PubSubTool.sub_keys (PubSubTool.self s)) as Hk
    by (apply (cons_delivery_tasks s Hs); eauto).
  destruct (remove_sub_key_registered k s Hs Hk)
    as (tid' & l' & Htid' & _ & Hrm).
  rewrite Htid in Htid'. injection Htid' as <-.
  destruct (Hw k tid Htid) as (lock & loc & Ht & _ & Hloc).
  unfold queue_of in Hq. rewrite Hloc in Hq. injection Hq as <-.
  eexists. split; [exact Hrm|]. cbn [PubSubTool.heap PubSubTool.world].
  split; [unfold queue_of; cbn; rewrite lookup_delete_eq; reflexivity|].
  split.
  { unfold task_at, list_at, stop_task. cbn.
    rewrite list_lookup_alter, decide_True by reflexivity.
    rewrite Ht. reflexivity. }
  intros n. cbn [TaskLoop.run]. unfold TaskLoop.run_iteration.
  rewrite stop_task_stops. reflexivity.
Qed.

Lemma removed_key_task_winds_down_witness :
  let s := (PubSubTool.add_non_gd_messages_by_sub_key "k"
              [Stub.dict "e" 9 1 1]
              (PubSubTool.add_sub_key "k"
                 (PubSubTool.initial (Stub.world [] []))).2).2 in
  exists s1,
    PubSubTool.remove_sub_key "k" s = (Ok tt, s1) /\
    PubSubTool.task_run 3 0 (PubSubTool.heap s1) (PubSubTool.world s1) =
      Some (PubSubTool.heap s1, PubSubTool.world s1, []) /\
    list_at (PubSubTool.heap s1) 0 = [Stub.msg "e" 9 1 1].
Proof.
  intros s.
  destruct (removed_key_task_winds_down Stub.deliver
              PubSubTool.confirm_pubsub_msg_delivered "k" 0
              [Stub.msg "e" 9 1 1] s)
    as (s1 & Hrm & _ & _ & Hrun).
  - apply reach_add_non_gd, reach_add_sub_key, reach_initial.
  - vm_compute. reflexivity.
  - vm_compute. reflexivity.
  - exists s1. split; [exact Hrm|]. split; [apply (Hrun 2%nat)|].
    vm_compute in Hrm. injection Hrm as <-. vm_compute. reflexivity.
Defined.

(** X20.  [remove_all_sub_keys] in a reachable state returns normally and
    leaves no task with its flag set, whether the task belonged to a key
    registered at the time or to one removed earlier; nothing is registered
    afterwards, and the list objects, with whatever was still queued, are as
    they were. *)
Theorem teardown_stops_every_task {W : Type} `{Collaborators W}
    (s : PubSubTool.Sys W) :
  reachable s ->
  exists s2,
    PubSubTool.remove_all_sub_keys s = (Ok tt, s2) /\
    PubSubTool.sub_keys (PubSubTool.self s2) = [] /\
    (forall tid,
       DeliveryTask.keep_running (task_at (PubSubTool.heap s2) tid) = false) /\
    lists (PubSubTool.heap s2) = lists (PubSubTool.heap s).
Proof.
  intros Hr.
  destruct (reachable_invariant s Hr) as [Hs _].
  pose proof (reachable_accounted _ (reach_remove_all_sub_keys s Hr)) as Ha.
  pose proof (remove_each_lists (PubSubTool.sub_keys (PubSubTool.self s)) s)
    as Hlists.
  unfold PubSubTool.remove_all_sub_keys in *.
  destruct (remove_each (PubSubTool.sub_keys (PubSubTool.self s)) s Hs
              (cons_nodup s Hs))
    as (s2 & Hrun & Hs2 & Hiff & _); [auto|].
  rewrite Hrun in Ha, Hlists. cbn [snd] in Ha, Hlists.
  assert (PubSubTool.sub_keys (PubSubTool.self s2) = []) as Hnone.
  { destruct (PubSubTool.sub_keys (PubSubTool.self s2)) as [|x l] eqn:E;
      [reflexivity|].
    exfalso. destruct (proj1 (Hiff x)) as [Hin Hout]; [left|].
    apply Hout, Hin. }
  exists s2. split; [exact Hrun|]. split; [exact Hnone|].
  split; [|exact Hlists].
  intros tid. unfold task_at.
  destruct (tasks (PubSubTool.heap s2) !! tid) as [t|] eqn:Ht; [|reflexivity].
  cbn. destruct (DeliveryTask.keep_running t) eqn:Hrunning; [|reflexivity].
  exfalso. pose proof (Ha tid t Ht Hrunning) as Hreg.
  assert (DeliveryTask.sub_key t ∈ PubSubTool.sub_keys (PubSubTool.self s2))
    as Hin by (apply (cons_delivery_tasks s2 Hs2); eauto).
  rewrite Hnone in Hin. inversion Hin.
Qed.

Lemma teardown_stops_every_task_witness :
  let s := (PubSubTool.add_sub_key "c"
              (PubSubTool.remove_sub_key "a"
                 (PubSubTool.add_sub_key "b"
                    (PubSubTool.add_sub_key "a"
                       (PubSubTool.initial (Stub.world [] []))).2).2).2).2 in
  exists s2,
    PubSubTool.remove_all_sub_keys s = (Ok tt, s2) /\
    length (tasks (PubSubTool.heap s2)) = 3%nat /\
    forall tid,
      DeliveryTask.keep_running (task_at (PubSubTool.heap s2) tid) = false.
Proof.
  intros s.
  destruct (teardown_stops_every_task s) as (s2 & Hrun & _ & Hstop & _).
  - apply reach_add_sub_key, reach_remove_sub_key, reach_add_sub_key,
      reach_add_sub_key, reach_initial.
  - exists s2. split; [exact Hrun|]. split; [|exact Hstop].
    vm_compute in Hrun. injection Hrun as <-. reflexivity.
Defined.

(** X21.  From notification to delivery.  In a reachable state, a
    notification with one well-formed ephemeral dict for a key whose queue
    is empty returns normally and leaves exactly that message queued; if the
    transport and the confirmation then accept it, the next iteration of the
    key's task delivers it, confirms it, takes it off the queue, leaving the
    queue empty, sleeps 1 and goes on. *)
Theorem notified_message_is_delivered {W : Type} `{Collaborators W}
    (cid : Val) (k : string) (d : Dict) (m : Message)
    (s : PubSubTool.Sys W) (u u' : unit) (w1 w2 : W) :
  reachable s -> queue_of s k = Some [] -> NonGDMessage d = Ok m ->
  web_socket_deliver_pubsub_msg m (PubSubTool.world s) = (Ok u, w1) ->
  pubsub_confirm_pubsub_msg_delivered k (pub_msg_id m) w1 = (Ok u', w2) ->
  exists s1 tid loc h',
    PubSubTool.handle_new_messages cid false [k] [d] s = (Ok tt, s1) /\
    queue_of s1 k = Some [m] /\
    PubSubTool.delivery_tasks (PubSubTool.self s1) !! k = Some tid /\
    PubSubTool.delivery_lists (PubSubTool.self s1) !! k = Some loc /\
    TaskLoop.run_iteration web_socket_deliver_pubsub_msg
      PubSubTool.confirm_pubsub_msg_delivered 1 tid
      (PubSubTool.heap s1) (PubSubTool.world s1) =
      Some (true, h', w2,
            [Delivered m; Confirmed m; Removed m; Slept 1]) /\
    list_at h' loc = [].
Proof.
  intros Hr Hq Hd Hdel Hconf.
  destruct (reachable_invariant s Hr) as [Hs _].
  pose proof (reachable_wired s Hr) as Hw.
  assert (k ∈ PubSubTool.sub_keys (PubSubTool.self s)) as Hk.
  { apply (cons_delivery_lists s Hs). unfold queue_of in Hq.
    destruct (PubSubTool.delivery_lists (PubSubTool.self s) !! k);
      [eauto|discriminate]. }
  assert (wrap_all [d] = Ok [m]) as Hwrap by (cbn; rewrite Hd; reflexivity).
  destruct (handle_new_messages_returns cid false [d] [k] s Hs)
    as [s1 Hrun]; [|eauto|discriminate|].
  { intros x Hx. apply list_elem_of_singleton in Hx. subst x. exact Hk. }
  destruct (handle_new_messages_returned cid false [d] [k] s s1 Hs Hrun)
    as (Hself & Hs1 & Hts & _ & _ & _ & Hworld & _ & _ & _ & _ & Hin).
  destruct (Hin [m] k [] Hwrap (NoDup_singleton k)) as (rows & Hrows & Hq1);
    [left|exact Hq|].
  rewrite (Hrows eq_refl) in Hq1. cbn in Hq1.
  destruct (proj1 (cons_delivery_tasks s Hs k) Hk) as [tid Htid].
  destruct (Hw k tid Htid) as (lock & loc & Ht & _ & Hloc).
  assert (list_at (PubSubTool.heap s1) loc = [m]) as Hlist.
  { unfold queue_of in Hq1. rewrite Hself, Hloc in Hq1. congruence. }
  assert (loc < length (lists (PubSubTool.heap s1)))%nat as Hlt
    by (apply (cons_lists_alloc s1 Hs1 k); rewrite Hself; exact Hloc).
  exists s1, tid, loc, (set_list loc [] (PubSubTool.heap s1)).
  split; [exact Hrun|]. split; [exact Hq1|].
  rewrite Hself. split; [exact Htid|]. split; [exact Hloc|].
  split; [|apply list_at_set_list, Hlt].
  assert (SortedList.remove [m] m = Ok []) as Hrm.
  { unfold SortedList.remove. cbn. rewrite lt_irrefl. cbn.
    rewrite eq_refl_msg. reflexivity. }
  unfold TaskLoop.run_iteration, task_at. rewrite Hts, Ht. cbn.
  rewrite Hlist. unfold DeliveryTask._run_delivery.
  cbn [DeliveryTask.delivery_loop length].
  change ([m] !! 0%nat) with (Some m). cbn iota.
  unfold PubSubTool.confirm_pubsub_msg_delivered.
  rewrite (Hworld eq_refl), Hdel, Hconf, Hrm. reflexivity.
Qed.

Lemma notified_message_is_delivered_witness :
  let s := (PubSubTool.add_sub_key "k"
              (PubSubTool.initial (Stub.world [] []))).2 in
  exists s1 tid loc h',
    PubSubTool.handle_new_messages (VStr "cid") false ["k"%string]
      [Stub.dict "e" 9 1 1] s = (Ok tt, s1) /\
    TaskLoop.run_iteration web_socket_deliver_pubsub_msg
      PubSubTool.confirm_pubsub_msg_delivered 1 tid
      (PubSubTool.heap s1) (PubSubTool.world s1) =
      Some (true, h', Stub.world [] [],
            [Delivered (Stub.msg "e" 9 1 1); Confirmed (Stub.msg "e" 9 1 1);
             Removed (Stub.msg "e" 9 1 1); Slept 1]) /\
    list_at h' loc = [].
Proof.
  intros s.
  destruct (notified_message_is_delivered (VStr "cid") "k"
              (Stub.dict "e" 9 1 1) (Stub.msg "e" 9 1 1) s tt tt
              (Stub.world [] []) (Stub.world [] []))
    as (s1 & tid & loc & h' & Hrun & _ & _ & _ & Hit & Hempty);
    [apply reach_add_sub_key, reach_initial|reflexivity..|].
  exists s1, tid, loc, h'.
  split; [exact Hrun|]. split; [exact Hit|exact Hempty].
Defined.

(** ** An endpoint that accepts everything *)

Section Drain.

Context {W : Type} `{Collaborators W}.
Variable deliver : Message -> W -> Result unit * W.
Variable confirm : string -> Val -> W -> Result unit * W.
Hypothesis deliver_accepts : forall m w, exists w', deliver m w = (Ok tt, w').
Hypothesis confirm_accepts :
  forall k id w, exists w', confirm k id w = (Ok tt, w').

Lemma pass_accepting k l i w o l' w' tr :
  pass_from deliver confirm k l i w o l' w' tr -> SortedList.sorted l ->
  o = DeliveryTask.ReturnedTrue /\
  ((i < length l)%nat -> (length l' < length l)%nat).
Proof.
  induction 1 as [ l i w Hi | l i w msg e w1 Hi Hd
                 | l i w msg u e w1 w2 o l' w' tr Hi Hd Hc Hrec IH
                 | l i w msg u u' e w1 w2 Hi Hd Hc Hr
                 | l i w msg u u' w1 w2 l1 o l' w' tr Hi Hd Hc Hr Hrec IH ];
    intros Hl.
  - split; [reflexivity|]. apply lookup_ge_None in Hi. lia.
  - destruct (deliver_accepts msg w) as [w0 Hok].
    rewrite Hok in Hd. discriminate.
  - destruct (confirm_accepts k (pub_msg_id msg) w1) as [w0 Hok].
    rewrite Hok in Hc. discriminate.
  - destruct (remove_sorted l i msg Hl Hi) as [l0 Hok].
    rewrite Hok in Hr. discriminate.
  - destruct (remove_shape l l1 i msg Hi Hr) as (j & _ & Hj & ->).
    destruct IH as [-> _].
    { eapply sorted_sublist; [apply sublist_delete|exact Hl]. }
    split; [reflexivity|]. intros _.
    apply pass_sublist, sublist_length in Hrec.
    rewrite length_delete in Hrec by (apply lookup_lt_is_Some_2, Hj). lia.
Qed.

Lemma run_drains (n : nat) (tid : nat) (h : Heap) (w : W) :
  DeliveryTask.keep_running (task_at h tid) = true ->
  (DeliveryTask.delivery_list (task_at h tid) < length (lists h))%nat ->
  SortedList.sorted (list_at h (DeliveryTask.delivery_list (task_at h tid))) ->
  (length (list_at h (DeliveryTask.delivery_list (task_at h tid))) <= n)%nat ->
  exists h' w' tr,
    TaskLoop.run deliver confirm n 1 tid h w = Some (h', w', tr) /\
    list_at h' (DeliveryTask.delivery_list (task_at h tid)) = [] /\
    tasks h' = tasks h /\
    (forall loc, loc <> DeliveryTask.delivery_list (task_at h tid) ->
       lists h' !! loc = lists h !! loc) /\
    sleeps_of tr = replicate n 1.
Proof.
  revert h w. induction n as [|n IH]; intros h w Hrun Hlt Hsorted Hlen.
  - exists h, w, []. split; [reflexivity|].
    split; [apply nil_length_inv; lia|]. auto.
  - cbn [TaskLoop.run].
    destruct (list_at h (DeliveryTask.delivery_list (task_at h tid)))
      as [|x q] eqn:Hq.
    + rewrite run_iteration_idle by assumption.
      destruct (IH h w Hrun Hlt) as (h' & w' & tr & Hgo & Hend & Hts & Hls & Hsl);
        [rewrite Hq; constructor|rewrite Hq; cbn; lia|].
      rewrite Hgo. exists h', w', ([Slept 1] ++ tr).
      split; [reflexivity|]. split; [exact Hend|]. split; [exact Hts|].
      split; [exact Hls|]. rewrite sleeps_of_app, Hsl. reflexivity.
    + destruct (run_delivery_total deliver confirm
                  (DeliveryTask.sub_key (task_at h tid)) (x :: q) w)
        as [[[[o q'] w1] tr] Hpass].
      pose proof (loop_derivation _ _ _ _ _ _ _ _ _ _ _ Hpass) as Hder.
      destruct (pass_accepting _ _ _ _ _ _ _ _ Hder Hsorted) as [-> Hshort].
      specialize (Hshort ltac:(cbn; lia)).
      rewrite <- Hq in Hpass.
      rewrite (run_iteration_pass deliver confirm 1 tid h w
                 DeliveryTask.ReturnedTrue q' w1 tr Hrun)
        by (rewrite ?Hq; congruence).
      set (loc := DeliveryTask.delivery_list (task_at h tid)) in *.
      set (h1 := set_list loc q' h).
      assert (task_at h1 tid = task_at h tid) as Htask by reflexivity.
      assert (list_at h1 loc = q') as Hq1 by (apply list_at_set_list, Hlt).
      destruct (IH h1 w1) as (h' & w' & tr' & Hgo & Hend & Hts & Hls & Hsl).
      { rewrite Htask. exact Hrun. }
      { rewrite Htask. fold loc. subst h1. cbn. rewrite length_insert.
        exact Hlt. }
      { rewrite Htask. fold loc. rewrite Hq1.
        eapply sorted_sublist; [eapply pass_sublist, Hder|exact Hsorted]. }
      { rewrite Htask. fold loc. rewrite Hq1. cbn in Hshort, Hlen. lia. }
      rewrite Htask in Hend, Hls. fold loc in Hend, Hls.
      rewrite Hgo. exists h', w', ((tr ++ [Slept 1]) ++ tr').
      split; [reflexivity|]. split; [exact Hend|]. split; [exact Hts|].
      split.
      * intros loc' Hne. rewrite (Hls loc' Hne). subst h1. cbn.
        apply list_lookup_insert_ne. congruence.
      * rewrite !sleeps_of_app, Hsl,
          (sleeps_of_pass _ _ _ _ _ _ _ _ _ _ Hder).
        reflexivity.
Qed.

End Drain.

(** X22.  When the endpoint accepts every message and every confirmation
    goes through, the task of a key empties the key's queue: followed for
    [n] iterations from a reachable state, with [n] at least the number of
    queued messages, its loop gets that far, sleeps exactly 1 after every
    iteration, never backs off, leaves the key's queue empty and the queues
    of all other keys as they were. *)
Theorem accepting_endpoint_drains_queue {W : Type} `{Collaborators W}
    (k : string) (q : list Message) (n : nat) (s : PubSubTool.Sys W) :
  reachable s -> queue_of s k = Some q -> (length q <= n)%nat ->
  (forall m w, exists w', web_socket_deliver_pubsub_msg m w = (Ok tt, w')) ->
  (forall key id w, exists w',
     pubsub_confirm_pubsub_msg_delivered key id w = (Ok tt, w')) ->
  exists tid h' w' tr,
    PubSubTool.delivery_tasks (PubSubTool.self s) !! k = Some tid /\
    PubSubTool.task_run n tid (PubSubTool.heap s) (PubSubTool.world s) =
      Some (h', w', tr) /\
    sleeps_of tr = replicate n 1 /\
    let s' := {| PubSubTool.self := PubSubTool.self s; PubSubTool.heap := h';
                 PubSubTool.world := w';
                 PubSubTool.trace := PubSubTool.trace s ++ tr |} in
    queue_of s' k = Some [] /\
    forall x, x <> k -> queue_of s' x = queue_of s x.
Proof.
  intros Hr Hq Hn Hdel Hconf.
  destruct (reachable_invariant s Hr) as [Hs Hsorted].
  pose proof (reachable_wired s Hr) as Hw.
  assert (k ∈ PubSubTool.sub_keys (PubSubTool.self s)) as Hk.
  { apply (cons_delivery_lists s Hs). unfold queue_of in Hq.
    destruct (PubSubTool.delivery_lists (PubSubTool.self s) !! k);
      [eauto|discriminate]. }
  destruct (proj1 (cons_delivery_tasks s Hs k) Hk) as [tid Htid].
  destruct (Hw k tid Htid) as (lock & loc & Ht & _ & Hloc).
  unfold queue_of in Hq. rewrite Hloc in Hq. injection Hq as <-.
  assert (task_at (PubSubTool.heap s) tid =
          {| DeliveryTask.keep_running := true; DeliveryTask.sub_key := k;
             DeliveryTask.delivery_lock := lock;
             DeliveryTask.delivery_list := loc |}) as Htask
    by (unfold task_at; rewrite Ht; reflexivity).
  destruct (run_drains web_socket_deliver_pubsub_msg
              PubSubTool.confirm_pubsub_msg_delivered Hdel Hconf n tid
              (PubSubTool.heap s) (PubSubTool.world s))
    as (h' & w' & tr & Hrun & Hend & _ & Hls & Hsl);
    rewrite ?Htask; cbn [DeliveryTask.keep_running DeliveryTask.delivery_list].
  - reflexivity.
  - apply (cons_lists_alloc s Hs k), Hloc.
  - apply sorted_list_at, Hsorted.
  - exact Hn.
  - rewrite Htask in Hend, Hls.
    cbn [DeliveryTask.delivery_list] in Hend, Hls.
    exists tid, h', w', tr. split; [exact Htid|]. split; [exact Hrun|].
    split; [exact Hsl|]. unfold queue_of. cbn. rewrite Hloc, Hend.
    split; [reflexivity|]. intros x Hx.
    destruct (PubSubTool.delivery_lists (PubSubTool.self s) !! x)
      as [loc'|] eqn:Hloc'; [|reflexivity].
    unfold list_at. rewrite Hls; [reflexivity|].
    intros ->. apply Hx. eapply (cons_lists_apart s Hs); eauto.
Qed.

Lemma accepting_endpoint_drains_queue_witness :
  let s := (PubSubTool.add_non_gd_messages_by_sub_key "k"
              [Stub.dict "a" 9 1 1; Stub.dict "b" 5 1 2; Stub.dict "c" 1 1 3]
              (PubSubTool.add_sub_key "k" (PubSubTool.initial tt)).2).2 in
  queue_of s "k" =
    Some [Stub.msg "a" 9 1 1; Stub.msg "b" 5 1 2; Stub.msg "c" 1 1 3] /\
  exists h' w' tr,
    PubSubTool.task_run 3 0 (PubSubTool.heap s) (PubSubTool.world s) =
      Some (h', w', tr) /\
    sleeps_of tr = [1; 1; 1] /\ list_at h' 0 = [].
Proof.
  intros s. split; [vm_compute; reflexivity|].
  destruct (accepting_endpoint_drains_queue "k"
              [Stub.msg "a" 9 1 1; Stub.msg "b" 5 1 2; Stub.msg "c" 1 1 3]
              3 s)
    as (tid & h' & w' & tr & Htid & Hrun & Hsl & Hq & _).
  - apply reach_add_non_gd, reach_add_sub_key, reach_initial.
  - vm_compute. reflexivity.
  - cbn. lia.
  - intros m w. exists w. reflexivity.
  - intros key id w. exists w. reflexivity.
  - vm_compute in Htid. injection Htid as <-.
    exists h', w', tr. split; [exact Hrun|]. split; [exact Hsl|].
    unfold queue_of in Hq. cbn in Hq. injection Hq as Hq. exact Hq.
Defined.
